(** * Host monitoring and reader failover of the AWS advanced Python wrapper

    A shallow embedding of [aws_wrapper/host_monitoring_plugin.py] and
    [aws_wrapper/reader_failover_handler.py], with the properties of their
    natural-language specification stated and settled against it.

    Python integers are unbounded, so every counter and timestamp is a [Z].
    Calls into collaborators that live outside the two files (the plugin
    service, the dialect, the driver connection) are recorded as [Event]s in
    a trace, in program order; what such a call answers is a parameter of the
    model.  Logging has no effect on the state and is left out. *)

From Stdlib Require Import ZArith List String Bool Lia Permutation.
From stdpp Require Import base gmap strings list.

Local Open Scope Z_scope.

(** ** Values shared by both files *)

(** Modelled from the spec: the declarations of [aws_wrapper.hostinfo]
    ([HostRole], [HostAvailability], [HostInfo]) are not among the sources;
    the roles, the availabilities and the fields are those of the data model
    of the specification. *)
Inductive HostRole := WRITER | READER.

(** Modelled from the spec: see [HostRole]. *)
Inductive HostAvailability := AVAILABLE | NOT_AVAILABLE.

Definition HostRole_eqb (a b : HostRole) : bool :=
  match a, b with
  | WRITER, WRITER | READER, READER => true
  | _, _ => false
  end.

Definition HostAvailability_eqb (a b : HostAvailability) : bool :=
  match a, b with
  | AVAILABLE, AVAILABLE | NOT_AVAILABLE, NOT_AVAILABLE => true
  | _, _ => false
  end.

(** Modelled from the spec: see [HostRole]. *)
Record HostInfo := mkHostInfo {
  url : string;
  host : string;
  role : HostRole;
  availability : HostAvailability;
  all_aliases : gset string
}.

(** A driver connection is an opaque handle. *)
Definition Connection := nat.

(** Exceptions: the wrapper's own [AwsWrapperError], carrying the key of its
    message, two built-in ones, and whatever the driver raises. *)
Inductive PyException :=
| AwsWrapperError (message : string)
| TimeoutError
| IndexError
| DriverError (code : nat).

(** How a call ends. *)
Inductive outcome (A : Type) :=
| Returned (a : A)
| Raised (e : PyException).
Arguments Returned {A} a.
Arguments Raised {A} e.

(** Calls that leave the two files. *)
Inductive Event :=
| EvSetAvailability (aliases : gset string) (a : HostAvailability)
| EvForceConnect (h : HostInfo) (props : gmap string string) (cancel : option bool)
| EvForceRefresh (c : option Connection)
| EvClose (c : Connection)
| EvAbort (c : Connection)
| EvSleep (seconds : nat).

(** Modelled from the spec: [aws_wrapper.dialect.Dialect] is not among the
    sources; these are the two operations the files call, each field being
    what the dialect answers. *)
Record Dialect := mkDialect {
  is_closed : Connection -> bool;
  abort_connection : Connection -> outcome unit
}.

(** ** MonitoringContext *)

Record MonitoringContext := mkMonitoringContext {
  _connection : option Connection;
  _dialect : Dialect;
  _failure_detection_time_ms : Z;
  _failure_detection_interval_ms : Z;
  _failure_detection_count : Z;
  _monitor_start_time_ns : Z;
  _active_monitoring_start_time_ns : Z;
  _unavailable_host_start_time_ns : Z;
  _current_failure_count : Z;
  _is_host_unavailable : bool;
  _is_active : bool
}.

(** [MonitoringContext.__init__] *)
Definition MonitoringContext_init (connection : option Connection) (dialect : Dialect)
    (failure_detection_time_ms failure_detection_interval_ms failure_detection_count : Z)
  : MonitoringContext :=
  {| _connection := connection;
     _dialect := dialect;
     _failure_detection_time_ms := failure_detection_time_ms;
     _failure_detection_interval_ms := failure_detection_interval_ms;
     _failure_detection_count := failure_detection_count;
     _monitor_start_time_ns := 0;
     _active_monitoring_start_time_ns := 0;
     _unavailable_host_start_time_ns := 0;
     _current_failure_count := 0;
     _is_host_unavailable := false;
     _is_active := true |}.

Definition is_host_unavailable (self : MonitoringContext) : bool :=
  _is_host_unavailable self.

(** The [is_active] setter. *)
Definition set_is_active (self : MonitoringContext) (is_active : bool) : MonitoringContext :=
  {| _connection := _connection self;
     _dialect := _dialect self;
     _failure_detection_time_ms := _failure_detection_time_ms self;
     _failure_detection_interval_ms := _failure_detection_interval_ms self;
     _failure_detection_count := _failure_detection_count self;
     _monitor_start_time_ns := _monitor_start_time_ns self;
     _active_monitoring_start_time_ns := _active_monitoring_start_time_ns self;
     _unavailable_host_start_time_ns := _unavailable_host_start_time_ns self;
     _current_failure_count := _current_failure_count self;
     _is_host_unavailable := _is_host_unavailable self;
     _is_active := is_active |}.

Definition set_monitor_start_time_ns (self : MonitoringContext) (start_time_ns : Z)
  : MonitoringContext :=
  {| _connection := _connection self;
     _dialect := _dialect self;
     _failure_detection_time_ms := _failure_detection_time_ms self;
     _failure_detection_interval_ms := _failure_detection_interval_ms self;
     _failure_detection_count := _failure_detection_count self;
     _monitor_start_time_ns := start_time_ns;
     _active_monitoring_start_time_ns :=
       start_time_ns + _failure_detection_time_ms self * 1000000;
     _unavailable_host_start_time_ns := _unavailable_host_start_time_ns self;
     _current_failure_count := _current_failure_count self;
     _is_host_unavailable := _is_host_unavailable self;
     _is_active := _is_active self |}.

(** The three fields [_set_host_availability] writes. *)
Definition set_health (self : MonitoringContext)
    (failure_count unavailable_start : Z) (unavailable : bool) : MonitoringContext :=
  {| _connection := _connection self;
     _dialect := _dialect self;
     _failure_detection_time_ms := _failure_detection_time_ms self;
     _failure_detection_interval_ms := _failure_detection_interval_ms self;
     _failure_detection_count := _failure_detection_count self;
     _monitor_start_time_ns := _monitor_start_time_ns self;
     _active_monitoring_start_time_ns := _active_monitoring_start_time_ns self;
     _unavailable_host_start_time_ns := unavailable_start;
     _current_failure_count := failure_count;
     _is_host_unavailable := unavailable;
     _is_active := _is_active self |}.

(** A method of the context returns (or raises), leaves a context behind and
    adds to the trace. *)
Definition ctx_result : Type := outcome unit * MonitoringContext * list Event.

(** [_abort_connection]: the dialect's abort is tried once; what it raises is
    logged and ignored. *)
Definition _abort_connection (self : MonitoringContext) : outcome unit * list Event :=
  match _connection self with
  | None => (Returned tt, [])
  | Some c =>
      if negb (_is_active self) then (Returned tt, [])
      else
        match abort_connection (_dialect self) c with
        | Returned _ => (Returned tt, [EvAbort c])
        | Raised _ => (Returned tt, [EvAbort c])
        end
  end.

Definition _set_host_availability (self : MonitoringContext) (url : string)
    (is_available : bool) (status_check_start_time_ns status_check_end_time_ns : Z)
  : ctx_result :=
  if is_available then
    (Returned tt, set_health self 0 0 false, [])
  else
    let failure_count := _current_failure_count self + 1 in
    let unavailable_start :=
      if _unavailable_host_start_time_ns self <=? 0
      then status_check_start_time_ns
      else _unavailable_host_start_time_ns self in
    let unavailable_host_duration_ns := status_check_end_time_ns - unavailable_start in
    let max_unavailable_host_duration_ms :=
      _failure_detection_interval_ms self * Z.max 0 (_failure_detection_count self) in
    if max_unavailable_host_duration_ms * 1000000 <? unavailable_host_duration_ns then
      let self' := set_health self failure_count unavailable_start true in
      let '(r, tr) := _abort_connection self' in
      (r, self', tr)
    else
      (Returned tt,
       set_health self failure_count unavailable_start (_is_host_unavailable self), []).

Definition update_host_status (self : MonitoringContext) (url : string)
    (status_check_start_time_ns status_check_end_time_ns : Z) (is_available : bool)
  : ctx_result :=
  if negb (_is_active self) then (Returned tt, self, [])
  else
    let total_elapsed_time_ns := status_check_end_time_ns - _monitor_start_time_ns self in
    if _failure_detection_time_ms self * 1000000 <? total_elapsed_time_ns then
      _set_host_availability self url is_available
        status_check_start_time_ns status_check_end_time_ns
    else (Returned tt, self, []).

(** The fields fixed at construction and submission, and [is_active]:
    [update_host_status] never writes them. *)
Definition same_frame (a b : MonitoringContext) : Prop :=
  _connection a = _connection b
  /\ _dialect a = _dialect b
  /\ _failure_detection_time_ms a = _failure_detection_time_ms b
  /\ _failure_detection_interval_ms a = _failure_detection_interval_ms b
  /\ _failure_detection_count a = _failure_detection_count b
  /\ _monitor_start_time_ns a = _monitor_start_time_ns b
  /\ _active_monitoring_start_time_ns a = _active_monitoring_start_time_ns b
  /\ _is_active a = _is_active b.

(** One report of the monitor to a context: probe start, probe end, verdict. *)
Record probe := mkProbe {
  probe_start : Z;
  probe_end : Z;
  probe_ok : bool
}.

(** The reports of a monitor reach the context one after the other. *)
Fixpoint update_host_status_all (self : MonitoringContext) (url : string) (ps : list probe)
  : MonitoringContext * list Event :=
  match ps with
  | [] => (self, [])
  | p :: ps' =>
      let '(_, self', tr) :=
        update_host_status self url (probe_start p) (probe_end p) (probe_ok p) in
      let '(self'', tr') := update_host_status_all self' url ps' in
      (self'', tr ++ tr')
  end.

(** ** A small state-and-exception monad

    A method runs on the state of its object; it returns or raises. *)

Definition M (S A : Type) : Type := S -> outcome A * S.

#[global] Instance M_ret {S} : MRet (M S) :=
  fun A a s => (Returned a, s).

#[global] Instance M_bind {S} : MBind (M S) :=
  fun A B f m s =>
    match m s with
    | (Returned a, s') => f a s'
    | (Raised e, s') => (Raised e, s')
    end.

Definition raise {S A} (e : PyException) : M S A :=
  fun s => (Raised e, s).

(** [try: m  except Exception as e: h e] *)
Definition try_except {S A} (m : M S A) (h : PyException -> M S A) : M S A :=
  fun s =>
    match m s with
    | (Returned a, s') => (Returned a, s')
    | (Raised e, s') => h e s'
    end.

(** [try: m  finally: fin]: an exception of [fin] replaces whatever [m]
    left pending. *)
Definition try_finally {S A} (m : M S A) (fin : M S unit) : M S A :=
  fun s =>
    let '(pending, s1) := m s in
    match fin s1 with
    | (Returned _, s2) => (pending, s2)
    | (Raised e, s2) => (Raised e, s2)
    end.

(** ** The plugin service and the driver, as the two files see them

    Modelled from the spec: [aws_wrapper.plugin_service.PluginService] and
    the driver connection are not among the sources; the fields are the
    operations of the external interfaces of the specification that the two
    files call.  Each field is what the collaborator answers; [update_dialect]
    is the dialect the service holds once [update_dialect()] has run.  [force_connect] and
    [force_refresh_host_list] are indexed by the number of the call, so that
    two calls with equal arguments may end differently.  [close] belongs to
    the connection, not to the service; it is kept here with the other
    answers of the outside world. *)
Record PluginService := mkPluginService {
  current_connection : option Connection;
  current_host_info : option HostInfo;
  update_dialect : option Dialect;
  is_rds_cluster : string -> bool;
  identify_connection : outcome (option HostInfo);
  fill_aliases : HostInfo -> outcome HostInfo;
  force_connect :
    nat -> HostInfo -> gmap string string -> option bool -> outcome (option Connection);
  force_refresh_host_list : nat -> option Connection -> outcome (list HostInfo);
  is_network_exception : PyException -> bool;
  close : Connection -> outcome unit
}.

(** ** HostMonitoringPlugin *)

(** The configuration [execute] reads from its properties through
    [WrapperProperties], and the table of network-bound methods of
    [SubscribedMethodUtils]; neither module is among the sources, so the
    values read are parameters. *)
Record MonitoringConfig := mkMonitoringConfig {
  FAILURE_DETECTION_ENABLED : bool;
  FAILURE_DETECTION_TIME_MS : Z;
  FAILURE_DETECTION_INTERVAL_MS : Z;
  FAILURE_DETECTION_COUNT : Z;
  NETWORK_BOUND_METHODS : list string
}.

(** The plugin's cached monitoring host, the dialect the service holds at
    this moment, and the trace. *)
Record PluginState := mkPluginState {
  _monitoring_host_info : option HostInfo;
  service_dialect : option Dialect;
  plugin_trace : list Event
}.

Definition set_monitoring_host_info (h : option HostInfo) : M PluginState unit :=
  fun st => (Returned tt,
             {| _monitoring_host_info := h;
                service_dialect := service_dialect st;
                plugin_trace := plugin_trace st |}).

Definition set_service_dialect (d : option Dialect) : M PluginState unit :=
  fun st => (Returned tt,
             {| _monitoring_host_info := _monitoring_host_info st;
                service_dialect := d;
                plugin_trace := plugin_trace st |}).

Definition emit (tr : list Event) : M PluginState unit :=
  fun st => (Returned tt,
             {| _monitoring_host_info := _monitoring_host_info st;
                service_dialect := service_dialect st;
                plugin_trace := plugin_trace st ++ tr |}).

Definition get_state {S} : M S S := fun st => (Returned st, st).

Definition modify {S} (f : S -> S) : M S unit := fun st => (Returned tt, f st).

(** Lift the answer of a collaborator. *)
Definition answer {S A} (o : outcome A) : M S A := fun st => (o, st).

Definition _get_monitoring_host_info (svc : PluginService) : M PluginState HostInfo :=
  st ← get_state;
  match _monitoring_host_info st with
  | Some h => mret h
  | None =>
      match current_host_info svc with
      | None => raise (AwsWrapperError "HostMonitoringPlugin.NullHostInfo")
      | Some current =>
          _ ← set_monitoring_host_info (Some current);
          try_except
            (if is_rds_cluster svc (url current) then
               identified ← answer (identify_connection svc);
               _ ← set_monitoring_host_info identified;
               match identified with
               | None =>
                   raise (AwsWrapperError "HostMonitoringPlugin.UnableToIdentifyConnection")
               | Some h =>
                   h' ← answer (fill_aliases svc h);
                   _ ← set_monitoring_host_info (Some h');
                   mret h'
               end
             else mret current)
            (fun _ => raise (AwsWrapperError "HostMonitoringPlugin.ErrorIdentifyingConnection"))
      end
  end.

(** [MonitorService.start_monitoring].  Finding or creating the monitor in
    the registry is the answer [registry]; the clock is [now_ns]
    ([perf_counter_ns] in [Monitor.start_monitoring]). *)
Definition start_monitoring (svc : PluginService) (registry : outcome unit) (now_ns : Z)
    (conn : Connection) (host_aliases : gset string) (host_info : HostInfo)
    (failure_detection_time_ms failure_detection_interval_ms failure_detection_count : Z)
  : M PluginState MonitoringContext :=
  if decide (host_aliases = ∅) then raise (AwsWrapperError "MonitorService.EmptyAliasSet")
  else
    _ ← answer registry;
    st ← get_state;
    d ← match service_dialect st with
        | Some d => mret d
        | None =>
            _ ← set_service_dialect (update_dialect svc);
            match update_dialect svc with
            | Some d => mret d
            | None => raise (AwsWrapperError "MonitorService.NullDialect")
            end
        end;
    mret (set_monitor_start_time_ns
            (MonitoringContext_init (Some conn) d failure_detection_time_ms
               failure_detection_interval_ms failure_detection_count)
            now_ns).

(** [Monitor.stop_monitoring], through [MonitorService.stop_monitoring]. *)
Definition stop_monitoring (context : MonitoringContext) : MonitoringContext :=
  set_is_active context false.

(** The part of [execute] under [try] up to the wrapped call: the arguments
    of [start_monitoring] are evaluated left to right. *)
Definition execute_start (svc : PluginService) (cfg : MonitoringConfig)
    (registry : outcome unit) (now_ns : Z) (connection : Connection)
  : M PluginState MonitoringContext :=
  aliases_of ← _get_monitoring_host_info svc;
  monitoring_host ← _get_monitoring_host_info svc;
  start_monitoring svc registry now_ns connection (all_aliases aliases_of) monitoring_host
    (FAILURE_DETECTION_TIME_MS cfg) (FAILURE_DETECTION_INTERVAL_MS cfg)
    (FAILURE_DETECTION_COUNT cfg).

(** The [finally] block of [execute] for a context that was created. *)
Definition execute_cleanup (svc : PluginService) (connection : Connection)
    (host_info : HostInfo) (monitor_context : MonitoringContext) : M PluginState unit :=
  let monitor_context := stop_monitoring monitor_context in
  if is_host_unavailable monitor_context then
    monitoring_host ← _get_monitoring_host_info svc;
    _ ← emit [EvSetAvailability (all_aliases monitoring_host) NOT_AVAILABLE];
    st ← get_state;
    match service_dialect st with
    | Some d =>
        if negb (is_closed d connection) then
          _ ← try_except (_ ← emit [EvClose connection]; answer (close svc connection))
                (fun _ => mret tt);
          raise (AwsWrapperError "HostMonitoringPlugin.UnavailableHost")
        else mret tt
    | None => mret tt
    end
  else mret tt.

(** [HostMonitoringPlugin.execute].  [execute_func] is how the wrapped call
    ends.  The context is an object the plugin shares with the monitor:
    while the call runs the monitor reports [probes] to it, and the [finally]
    block reads the context those reports left.  When [start_monitoring]
    raises, [monitor_context] is still [None] and the [finally] block does
    nothing. *)
Definition execute {A} (svc : PluginService) (cfg : MonitoringConfig)
    (registry : outcome unit) (now_ns : Z) (probes : list probe)
    (method_name : string) (execute_func : outcome A) : M PluginState A :=
  match current_connection svc with
  | None => raise (AwsWrapperError "HostMonitoringPlugin.NullConnection")
  | Some connection =>
      match current_host_info svc with
      | None => raise (AwsWrapperError "HostMonitoringPlugin.NullHostInfoForMethod")
      | Some host_info =>
          if negb (FAILURE_DETECTION_ENABLED cfg)
             || negb (existsb (String.eqb method_name) (NETWORK_BOUND_METHODS cfg))
          then answer execute_func
          else
            fun st =>
              match execute_start svc cfg registry now_ns connection st with
              | (Raised e, st1) => (Raised e, st1)
              | (Returned monitor_context, st1) =>
                  let host_url :=
                    match _monitoring_host_info st1 with
                    | Some monitoring_host => url monitoring_host
                    | None => url host_info
                    end in
                  let '(monitor_context', aborts) :=
                    update_host_status_all monitor_context host_url probes in
                  try_finally
                    (_ ← emit aborts; answer execute_func)
                    (execute_cleanup svc connection host_info monitor_context')
                    st1
              end
      end
  end.

(** The context the [finally] block of [execute] inspects, when the call is
    wrapped and monitoring started: the one [start_monitoring] returned,
    after the reports made during the call and after [stop_monitoring]. *)
Definition context_at_exit (svc : PluginService) (cfg : MonitoringConfig)
    (registry : outcome unit) (now_ns : Z) (probes : list probe) (method_name : string)
    (st : PluginState) : option MonitoringContext :=
  match current_connection svc, current_host_info svc with
  | Some connection, Some host_info =>
      if negb (FAILURE_DETECTION_ENABLED cfg)
         || negb (existsb (String.eqb method_name) (NETWORK_BOUND_METHODS cfg))
      then None
      else
        match execute_start svc cfg registry now_ns connection st with
        | (Raised _, _) => None
        | (Returned monitor_context, st1) =>
            Some (stop_monitoring
                    (update_host_status_all monitor_context (url host_info) probes).1)
        end
  | _, _ => None
  end.

(** ** Monitor: the probe of [_check_host_status] *)

Definition _MONITORING_PROPERTY_PREFIX : string := "monitoring-".

(** [key.startswith(prefix)] *)
Definition startswith (key prefix : string) : bool := String.prefix prefix key.

(** [key[n:len(key)]] *)
Definition slice_from (n : nat) (key : string) : string :=
  String.substring n (String.length key - n) key.

(** One turn of the loop over [self._props.items()]: it writes to the copy
    only. *)
Definition remap_property (props_copy : gmap string string) (item : string * string)
  : gmap string string :=
  let '(key, value) := item in
  if startswith key _MONITORING_PROPERTY_PREFIX then
    delete key
      (<[slice_from (String.length _MONITORING_PROPERTY_PREFIX) key := value]> props_copy)
  else props_copy.

(** The properties of the monitoring connection.  [props] is the dictionary
    as [items()] walks it, in insertion order; [copy(self._props)] is a new
    dictionary with the same bindings, read and written by key only. *)
Definition monitoring_connection_props (props : list (string * string))
  : gmap string string :=
  fold_left remap_property props (list_to_map props).

(** The same properties as the specification words them: the binding of
    [monitoring-k], if there is one, is the binding of [k]; otherwise a key
    with the prefix is gone and any other key is as in the original. *)
Definition remapped_lookup (props : list (string * string)) (k : string) : option string :=
  let original : gmap string string := list_to_map props in
  match original !! (_MONITORING_PROPERTY_PREFIX +:+ k) with
  | Some value => Some value
  | None => if startswith k _MONITORING_PROPERTY_PREFIX then None else original !! k
  end.

(** No key [monitoring-k] comes before the key [k] in the order of
    iteration when [k] has the prefix itself; [seen] are the keys passed. *)
Fixpoint stripped_key_not_passed (seen : list string) (props : list (string * string))
  : bool :=
  match props with
  | [] => true
  | (key, _) :: rest =>
      (negb (startswith key _MONITORING_PROPERTY_PREFIX)
       || negb (existsb (String.eqb (_MONITORING_PROPERTY_PREFIX +:+ key)) seen))
      && stripped_key_not_passed (key :: seen) rest
  end.

(** What holds of the copy when the loop has passed the items [passed]:
    [original] is the dictionary the loop walks. *)
Definition remap_invariant (original : gmap string string)
    (passed : list (string * string)) (props_copy : gmap string string) : Prop :=
  forall k : string,
    (forall value, (_MONITORING_PROPERTY_PREFIX +:+ k, value) ∈ passed ->
                   props_copy !! k = Some value)
    /\ ((_MONITORING_PROPERTY_PREFIX +:+ k) ∉ passed.*1 ->
        (startswith k _MONITORING_PROPERTY_PREFIX = true -> k ∈ passed.*1 ->
         props_copy !! k = None)
        /\ (startswith k _MONITORING_PROPERTY_PREFIX = false \/ k ∉ passed.*1 ->
            props_copy !! k = original !! k)).

Record HostStatus := mkHostStatus {
  is_available : bool;
  elapsed_time_ns : Z
}.

Record Monitor := mkMonitor {
  _host_info : HostInfo;
  _props : list (string * string);
  _monitoring_conn : option Connection;
  monitor_dialect : option Dialect;
  monitor_connects : nat;
  monitor_trace : list Event
}.

Definition monitor_update (self : Monitor) (conn : option Connection)
    (d : option Dialect) (connects : nat) (tr : list Event) : Monitor :=
  {| _host_info := _host_info self;
     _props := _props self;
     _monitoring_conn := conn;
     monitor_dialect := d;
     monitor_connects := connects;
     monitor_trace := monitor_trace self ++ tr |}.

(** [_is_host_available]: the query under its timeout. *)
Definition _is_host_available (query : outcome unit) : outcome bool :=
  match query with
  | Returned _ => Returned true
  | Raised TimeoutError => Returned false
  | Raised e => Raised e
  end.

(** [_check_host_status].  [elapsed_ns] is the time the clock shows for the
    probe, [query] how [SELECT 1] ends on the monitoring connection. *)
Definition _check_host_status (svc : PluginService) (elapsed_ns : Z)
    (query : outcome unit) : M Monitor HostStatus :=
  try_except
    (self ← get_state;
     d ← match monitor_dialect self with
         | Some d => mret d
         | None =>
             _ ← modify (fun self =>
                    monitor_update self (_monitoring_conn self) (update_dialect svc)
                      (monitor_connects self) []);
             match update_dialect svc with
             | Some d => mret d
             | None => raise (AwsWrapperError "Monitor.NullDialect")
             end
         end;
     if match _monitoring_conn self with
        | None => true
        | Some c => is_closed d c
        end
     then
       let props_copy := monitoring_connection_props (_props self) in
       _ ← modify (fun self =>
              monitor_update self (_monitoring_conn self) (monitor_dialect self)
                (S (monitor_connects self))
                [EvForceConnect (_host_info self) props_copy None]);
       conn ← answer (force_connect svc (monitor_connects self) (_host_info self)
                        props_copy None);
       _ ← modify (fun self =>
              monitor_update self conn (monitor_dialect self) (monitor_connects self) []);
       mret (mkHostStatus true elapsed_ns)
     else
       available ← answer (_is_host_available query);
       mret (mkHostStatus available elapsed_ns))
    (fun _ => mret (mkHostStatus false elapsed_ns)).

(** ** ReaderFailoverHandlerImpl *)

(** Modelled from the spec: [aws_wrapper.failover_result] is not among the
    sources; the four fields are those of the data model, in the order of
    the constructor calls of the handler. *)
Record ReaderFailoverResult := mkReaderFailoverResult {
  connection : option Connection;
  is_connected : bool;
  new_host : option HostInfo;
  exception : option PyException
}.

Definition failed_reader_failover_result : ReaderFailoverResult :=
  mkReaderFailoverResult None false None None.

(** What the run-time decides: [shuffle] is [random.shuffle], indexed by the
    draw; [completion] tells, for the batch drawn, in which order its
    attempts finish and how many finish before [timeout_sec] is over. *)
Record BatchSchedule := mkBatchSchedule {
  second_first : bool;
  completed_in_time : nat
}.

Record Runtime := mkRuntime {
  shuffle : nat -> list HostInfo -> list HostInfo;
  completion : nat -> BatchSchedule
}.

(** The fixed part of a handler. *)
Record Handler := mkHandler {
  _plugin_service : PluginService;
  _properties : gmap string string;
  _strict_reader_failover : bool;
  runtime : Runtime
}.

(** The part that changes: the cancellation event, the wait of a caller of
    [failover] that is under way, the number of draws made from the outside
    world, and the trace.

    Time is counted in steps of the task, a step being a batch it starts or
    a sleep it takes.  [outer_wait = Some k] says that the caller of
    [failover] gives up after [k] more steps; when the count reaches zero
    while the task is running, the caller's [except TimeoutError] branch has
    set the event. *)
Record HandlerState := mkHandlerState {
  _timeout_event : bool;
  outer_wait : option nat;
  draws : nat;
  handler_trace : list Event
}.

Definition timeout_event_set (st : HandlerState) : HandlerState :=
  mkHandlerState true (outer_wait st) (draws st) (handler_trace st).

Definition set_outer_wait (w : option nat) (st : HandlerState) : HandlerState :=
  mkHandlerState (_timeout_event st) w (draws st) (handler_trace st).

Definition draw (n : nat) (st : HandlerState) : HandlerState :=
  mkHandlerState (_timeout_event st) (outer_wait st) (draws st + n)%nat (handler_trace st).

Definition record (tr : list Event) (st : HandlerState) : HandlerState :=
  mkHandlerState (_timeout_event st) (outer_wait st) (draws st) (handler_trace st ++ tr).

(** One step of the task goes by. *)
Definition pass_time (st : HandlerState) : HandlerState :=
  match outer_wait st with
  | Some (S O) => timeout_event_set (set_outer_wait (Some O) st)
  | Some (S k) => set_outer_wait (Some k) st
  | _ => st
  end.

Definition sleep (seconds : nat) : M HandlerState unit :=
  modify (fun st => pass_time (record [EvSleep seconds] st)).

Definition attempt_connection (self : Handler) (host : HostInfo)
  : M HandlerState ReaderFailoverResult :=
  let props := _properties self in
  st ← get_state;
  try_except
    (_ ← modify (fun st =>
            draw 1 (record [EvForceConnect host props (Some (_timeout_event st))] st));
     conn ← answer (force_connect (_plugin_service self) (draws st) host props
                      (Some (_timeout_event st)));
     _ ← modify (record [EvSetAvailability (all_aliases host) AVAILABLE]);
     mret (mkReaderFailoverResult conn true (Some host) None))
    (fun ex =>
       _ ← modify (record [EvSetAvailability (all_aliases host) NOT_AVAILABLE]);
       if negb (is_network_exception (_plugin_service self) ex)
       then mret (mkReaderFailoverResult None false None (Some ex))
       else mret failed_reader_failover_result).

(** [result.is_connected or result.exception is not None] *)
Definition settles (result : ReaderFailoverResult) : bool :=
  is_connected result || bool_decide (exception result <> None).

(** [_get_result_from_next_task_batch].  Both attempts are submitted and run
    to their end, because leaving the [with ThreadPoolExecutor()] block waits
    for them; the trace lists them in the order of submission.
    [as_completed] hands over, in the order of completion, the attempts that
    end before the deadline, and raises [TimeoutError] if some do not.
    [hosts !! (i + 1)] is an element exactly when [i + 1 < len(hosts)]. *)
Definition _get_result_from_next_task_batch (self : Handler) (hosts : list HostInfo)
    (i : nat) : M HandlerState ReaderFailoverResult :=
  match hosts !! i with
  | None => raise IndexError
  | Some first =>
      _ ← modify pass_time;
      r1 ← attempt_connection self first;
      futures ← match hosts !! (i + 1)%nat with
                | Some second =>
                    r2 ← attempt_connection self second;
                    mret [r1; r2]
                | None => mret [r1]
                end;
      st ← get_state;
      _ ← modify (draw 1);
      let schedule := completion (runtime self) (draws st) in
      let in_order := if second_first schedule then rev futures else futures in
      let handed_over := take (completed_in_time schedule) in_order in
      let timed_out := (completed_in_time schedule <? length futures)%nat in
      match find settles handed_over with
      | Some result =>
          (* return result; finally: *)
          _ ← modify timeout_event_set;
          mret result
      | None =>
          (* except TimeoutError: *)
          _ ← (if timed_out then modify timeout_event_set else mret tt);
          (* finally: *)
          _ ← modify timeout_event_set;
          mret failed_reader_failover_result
      end
  end.

(** [range(start, stop, step)] for a positive step and [start <= stop]. *)
Definition range (start stop step : nat) : list nat :=
  map (fun k => (start + k * step)%nat) (seq 0 ((stop - start + (step - 1)) / step)%nat).

Fixpoint host_group_loop (self : Handler) (hosts : list HostInfo) (indices : list nat)
  : M HandlerState ReaderFailoverResult :=
  match indices with
  | [] => mret failed_reader_failover_result
  | i :: indices' =>
      result ← _get_result_from_next_task_batch self hosts i;
      if settles result then mret result
      else
        _ ← sleep 1;
        host_group_loop self hosts indices'
  end.

Definition _get_connection_from_host_group (self : Handler) (hosts : list HostInfo)
  : M HandlerState ReaderFailoverResult :=
  host_group_loop self hosts (range 0 (length hosts) 2).

(** The loop of [get_hosts_by_priority] and [get_reader_hosts_by_priority]
    over the hosts. *)
Record HostGroups := mkHostGroups {
  active_readers : list HostInfo;
  down_hosts : list HostInfo;
  writer_host : option HostInfo
}.

Definition group_host (groups : HostGroups) (h : HostInfo) : HostGroups :=
  if HostRole_eqb (role h) WRITER then
    mkHostGroups (active_readers groups) (down_hosts groups) (Some h)
  else if HostAvailability_eqb (availability h) AVAILABLE then
    mkHostGroups (active_readers groups ++ [h]) (down_hosts groups) (writer_host groups)
  else
    mkHostGroups (active_readers groups) (down_hosts groups ++ [h]) (writer_host groups).

Definition group_hosts (hosts : list HostInfo) : HostGroups :=
  fold_left group_host hosts (mkHostGroups [] [] None).

(** [get_hosts_by_priority]; the two shuffles are draws [n] and [n + 1]. *)
Definition get_hosts_by_priority (rt : Runtime) (n : nat) (hosts : list HostInfo)
    (readers_only : bool) : list HostInfo :=
  let groups := group_hosts hosts in
  let active_readers := shuffle rt n (active_readers groups) in
  let down_hosts := shuffle rt (S n) (down_hosts groups) in
  let num_readers := (length active_readers + length down_hosts)%nat in
  let hosts_by_priority :=
    match writer_host groups with
    | Some writer =>
        if negb readers_only || (num_readers =? 0)%nat
        then active_readers ++ [writer]
        else active_readers
    | None => active_readers
    end in
  hosts_by_priority ++ down_hosts.

(** [get_reader_hosts_by_priority] keeps no writer. *)
Definition get_reader_hosts_by_priority (rt : Runtime) (n : nat) (hosts : list HostInfo)
  : list HostInfo :=
  let groups := group_hosts hosts in
  let active_readers := shuffle rt n (active_readers groups) in
  let down_hosts := shuffle rt (S n) (down_hosts groups) in
  active_readers ++ down_hosts.

Definition _failover_internal (self : Handler) (hosts : list HostInfo)
    (current_host : option HostInfo) : M HandlerState ReaderFailoverResult :=
  _ ← match current_host with
      | Some h => modify (record [EvSetAvailability (all_aliases h) NOT_AVAILABLE])
      | None => mret tt
      end;
  st ← get_state;
  _ ← modify (draw 2);
  let hosts_by_priority :=
    get_hosts_by_priority (runtime self) (draws st) hosts (_strict_reader_failover self) in
  _get_connection_from_host_group self hosts_by_priority.

Definition get_reader_connection (self : Handler) (hosts : option (list HostInfo))
  : M HandlerState ReaderFailoverResult :=
  match hosts with
  | None | Some [] => mret failed_reader_failover_result
  | Some hosts =>
      st ← get_state;
      _ ← modify (draw 2);
      let hosts_by_priority := get_reader_hosts_by_priority (runtime self) (draws st) hosts in
      _get_connection_from_host_group self hosts_by_priority
  end.

(** One turn of the [while] loop of [_internal_failover_task]: [inl result]
    when the turn returns, [inr topology] when the loop goes on with this
    topology. *)
Definition failover_turn (self : Handler) (topology : list HostInfo)
    (current_host : option HostInfo)
  : M HandlerState (ReaderFailoverResult + list HostInfo) :=
  result ← _failover_internal self topology current_host;
  if is_connected result then
    if negb (_strict_reader_failover self) then mret (inl result)
    else
      st ← get_state;
      _ ← modify (fun st => draw 1 (record [EvForceRefresh (connection result)] st));
      refreshed ← answer (force_refresh_host_list (_plugin_service self) (draws st)
                            (connection result));
      let topology' := match new_host result with Some _ => refreshed | None => topology end in
      if match new_host result with
         | Some new =>
             existsb (fun node => String.eqb (url node) (url new)
                                  && HostRole_eqb (role node) READER) refreshed
         | None => false
         end
      then mret (inl result)
      else
        _ ← match connection result with
            | Some c => _ ← modify (record [EvClose c]); answer (close (_plugin_service self) c)
            | None => mret tt
            end;
        _ ← sleep 1;
        mret (inr topology')
  else
    _ ← sleep 1;
    mret (inr topology).

(** The [while not self._timeout_event.is_set()] loop; [None] when [fuel]
    turns were not enough. *)
Fixpoint failover_loop (fuel : nat) (self : Handler) (topology : list HostInfo)
    (current_host : option HostInfo) (st : HandlerState)
  : option (outcome ReaderFailoverResult * HandlerState) :=
  if _timeout_event st then Some (Returned failed_reader_failover_result, st)
  else
    match fuel with
    | O => None
    | S fuel' =>
        match failover_turn self topology current_host st with
        | (Raised err, st') => Some (Raised err, st')
        | (Returned (inl result), st') => Some (Returned result, st')
        | (Returned (inr topology'), st') =>
            failover_loop fuel' self topology' current_host st'
        end
    end.

Definition _internal_failover_task (fuel : nat) (self : Handler) (topology : list HostInfo)
    (current_host : option HostInfo) (st : HandlerState)
  : option (ReaderFailoverResult * HandlerState) :=
  match failover_loop fuel self topology current_host st with
  | None => None
  | Some (Returned result, st') => Some (result, st')
  | Some (Raised err, st') => Some (mkReaderFailoverResult None false None (Some err), st')
  end.

(** [failover].  [max_wait] is the wait of [future.result] in steps of the
    task ([None]: it outlasts the task).  The caller's wait has run out when
    the count stands at zero once the task is over; the result is dropped
    then. *)
Definition failover (fuel : nat) (self : Handler) (max_wait : option nat)
    (current_topology : option (list HostInfo)) (current_host : option HostInfo)
    (st : HandlerState) : option (ReaderFailoverResult * HandlerState) :=
  match current_topology with
  | None | Some [] => Some (failed_reader_failover_result, st)
  | Some topology =>
      let st0 :=
        match max_wait with
        | Some O => timeout_event_set (set_outer_wait (Some O) st)
        | _ => set_outer_wait max_wait st
        end in
      match _internal_failover_task fuel self topology current_host st0 with
      | None => None
      | Some (result, st') =>
          match outer_wait st' with
          | Some O =>
              Some (failed_reader_failover_result,
                    set_outer_wait None (timeout_event_set st'))
          | _ => Some (result, set_outer_wait None st')
          end
      end
  end.

(** ** Predicates used in the statements about the handler *)

(** The invariant of a [ReaderFailoverResult]. *)
Definition result_ok (result : ReaderFailoverResult) : Prop :=
  is_connected result = true -> connection result <> None /\ new_host result <> None.

Definition is_reader (h : HostInfo) : bool := negb (HostRole_eqb (role h) WRITER).

Definition is_up (h : HostInfo) : bool := HostAvailability_eqb (availability h) AVAILABLE.

(** The hosts of a trace that [force_connect] was called on. *)
Definition attempted (tr : list Event) : list HostInfo :=
  omap (fun ev => match ev with EvForceConnect h _ _ => Some h | _ => None end) tr.

(** [st'] comes after [st]: a set event stays set, and the trace grew by
    calls whose connection attempts went to hosts of [allowed]. *)
Definition evolves (allowed : list HostInfo) (st st' : HandlerState) : Prop :=
  (_timeout_event st = true -> _timeout_event st' = true)
  /\ exists calls, handler_trace st' = handler_trace st ++ calls
                   /\ attempted calls ⊆ allowed.

(** Between [st] and [st'] the hosts that [force_connect] was called on
    are those of [l], in this order. *)
Definition attempts (l : list HostInfo) (st st' : HandlerState) : Prop :=
  exists calls, handler_trace st' = handler_trace st ++ calls /\ attempted calls = l.

(** [m], run in [st], returns a value and a state that satisfy [Q]. *)
Definition returns {A} (m : M HandlerState A) (st : HandlerState)
    (Q : A -> HandlerState -> Prop) : Prop :=
  exists a st', m st = (Returned a, st') /\ Q a st'.

(** The run-time shuffles: what comes back is a permutation. *)
Definition shuffle_permutes (rt : Runtime) : Prop :=
  forall n l, shuffle rt n l ≡ₚ l.

(** [force_connect] never returns [None] for a connection. *)
Definition connects_non_null (svc : PluginService) : Prop :=
  forall n h props cancel, force_connect svc n h props cancel <> Returned None.

(** ** Concrete values used by the examples below *)

Definition quiet_dialect : Dialect :=
  mkDialect (fun _ => false) (fun _ => Returned tt).

(** A dialect that reports every connection closed and whose abort raises. *)
Definition broken_dialect : Dialect :=
  mkDialect (fun _ => true) (fun _ => Raised (DriverError 1)).

(** A context with no grace period and no tolerated failure, submitted at
    time 0. *)
Definition fresh_context : MonitoringContext :=
  set_monitor_start_time_ns (MonitoringContext_init (Some 7%nat) quiet_dialect 0 1000 0) 0.

(** The same context after one failed probe from 1 ns to 2 ns. *)
Definition unavailable_context : MonitoringContext :=
  fst (update_host_status_all fresh_context "db-1" [mkProbe 1 2 false]).

(** The parameters of the scenarios of the specification: 5 s of grace, a
    probe each second, three failures tolerated; submitted at time 0. *)
Definition scenario_context : MonitoringContext :=
  set_monitor_start_time_ns
    (MonitoringContext_init (Some 7%nat) broken_dialect 5000 1000 3) 0.

Definition db1 : HostInfo :=
  mkHostInfo "db-1" "db-1.example.com" WRITER AVAILABLE {["db-1"; "10.0.0.1"]}.

Definition no_connect : nat -> HostInfo -> gmap string string -> option bool ->
                        outcome (option Connection) :=
  fun _ _ _ _ => Raised (DriverError 2).

(** A service connected to [db1] over connection 7, whose dialect is [d]. *)
Definition service_on_db1 (d : Dialect) : PluginService :=
  {| current_connection := Some 7%nat;
     current_host_info := Some db1;
     update_dialect := Some d;
     is_rds_cluster := fun _ => false;
     identify_connection := Returned None;
     fill_aliases := fun h => Returned h;
     force_connect := no_connect;
     force_refresh_host_list := fun _ _ => Returned [];
     is_network_exception := fun _ => true;
     close := fun _ => Returned tt |}.

(** No grace period, no tolerated failure. *)
Definition eager_config : MonitoringConfig :=
  mkMonitoringConfig true 0 1000 0 ["Cursor.execute"; "Connection.commit"].

Definition idle_plugin (d : Dialect) : PluginState :=
  mkPluginState None (Some d) [].

(** A doubly prefixed key ahead of the key it strips to. *)
Definition nested_props : list (string * string) :=
  [("monitoring-monitoring-x", "v"); ("monitoring-x", "u")].

Definition probe_props : list (string * string) :=
  [("user", "app"); ("connect_timeout", "30"); ("monitoring-connect_timeout", "3");
   ("monitoring-socket_timeout", "5")].

Definition writer1 : HostInfo :=
  mkHostInfo "w-1" "w-1.example.com" WRITER AVAILABLE {["w-1"]}.
Definition reader1 : HostInfo :=
  mkHostInfo "r-1" "r-1.example.com" READER AVAILABLE {["r-1"]}.
Definition reader2 : HostInfo :=
  mkHostInfo "r-2" "r-2.example.com" READER NOT_AVAILABLE {["r-2"]}.

(** A run-time that reverses where it shuffles and in which every attempt
    ends before the deadline of its batch, in the order of submission. *)
Definition prompt_runtime : Runtime :=
  mkRuntime (fun _ l => rev l) (fun _ => mkBatchSchedule false 2).

(** A service where only [reader1] accepts connections, handing out the
    connection 11; after a refresh [reader1] has become the writer. *)
Definition service_reader1_up : PluginService :=
  {| current_connection := None;
     current_host_info := None;
     update_dialect := None;
     is_rds_cluster := fun _ => false;
     identify_connection := Returned None;
     fill_aliases := fun h => Returned h;
     force_connect := fun _ h _ _ =>
       if String.eqb (url h) "r-1" then Returned (Some 11%nat) else Raised (DriverError 3);
     force_refresh_host_list := fun _ _ =>
       Returned [mkHostInfo "r-1" "r-1.example.com" WRITER AVAILABLE {["r-1"]};
                 mkHostInfo "w-1" "w-1.example.com" READER AVAILABLE {["w-1"]}];
     is_network_exception := fun e =>
       match e with DriverError 3 => true | _ => false end;
     close := fun _ => Returned tt |}.

Definition strict_handler : Handler :=
  mkHandler service_reader1_up ∅ true prompt_runtime.

Definition relaxed_handler : Handler :=
  mkHandler service_reader1_up ∅ false prompt_runtime.

Definition idle_handler : HandlerState := mkHandlerState false None 0 [].

(** ** Further readings of a trace *)

(** The alias sets that [set_availability] was called on. *)
Definition marked (tr : list Event) : list (gset string) :=
  omap (fun ev => match ev with EvSetAvailability a _ => Some a | _ => None end) tr.

(** The connections that were closed. *)
Definition closed (tr : list Event) : list Connection :=
  omap (fun ev => match ev with EvClose c => Some c | _ => None end) tr.

(** The connections the host list was refreshed over. *)
Definition refreshed_over (tr : list Event) : list (option Connection) :=
  omap (fun ev => match ev with EvForceRefresh c => Some c | _ => None end) tr.

(** Between [st] and [st'] the handler attempted the hosts of [l], in this
    order, marked the aliases of each of them and of no other host, and
    neither closed a connection nor refreshed the host list. *)
Definition walked (l : list HostInfo) (st st' : HandlerState) : Prop :=
  exists calls,
    handler_trace st' = handler_trace st ++ calls
    /\ attempted calls = l
    /\ marked calls = all_aliases <$> l
    /\ closed calls = []
    /\ refreshed_over calls = [].

(** Between [st] and [st'] no connection was closed and the host list was
    not refreshed. *)
Definition quiet (st st' : HandlerState) : Prop :=
  exists calls,
    handler_trace st' = handler_trace st ++ calls
    /\ closed calls = []
    /\ refreshed_over calls = [].

(** The host of [result] is listed as a reader in the topology that the
    service gave back when it was refreshed over the connection of
    [result]. *)
Definition confirmed_reader (svc : PluginService) (result : ReaderFailoverResult) : Prop :=
  exists (h : HostInfo) (n : nat) (topology : list HostInfo) (node : HostInfo),
    new_host result = Some h
    /\ force_refresh_host_list svc n (connection result) = Returned topology
    /\ node ∈ topology
    /\ url node = url h
    /\ role node = READER.

(** As [service_reader1_up], but the refreshed topology still lists
    [reader1] as a reader. *)
Definition service_reader1_stays : PluginService :=
  {| current_connection := None;
     current_host_info := None;
     update_dialect := None;
     is_rds_cluster := fun _ => false;
     identify_connection := Returned None;
     fill_aliases := fun h => Returned h;
     force_connect := force_connect service_reader1_up;
     force_refresh_host_list := fun _ _ => Returned [writer1; reader1; reader2];
     is_network_exception := is_network_exception service_reader1_up;
     close := fun _ => Returned tt |}.

Definition steady_strict_handler : Handler :=
  mkHandler service_reader1_stays ∅ true prompt_runtime.

(** ** Monitor: the queues and the two loops of [run] over them

    Contexts are objects that the plugin, the service and the monitor share;
    a queue holds references.  A reference is a number, [contexts] gives the
    object behind it.

    Modelled from the spec: [QueueUtils] is not among the sources; as the
    two queues are FIFO, [QueueUtils.get] takes the head of the queue and
    gives [None] on an empty one, [put] appends, [QueueUtils.clear] empties
    the queue. *)
Record MonitorQueues := mkMonitorQueues {
  contexts : nat -> MonitoringContext;
  _new_contexts : list nat;
  _active_contexts : list nat;
  _context_last_used_ns : Z
}.

Definition store_set (store : nat -> MonitoringContext) (c : nat)
    (context : MonitoringContext) : nat -> MonitoringContext :=
  fun c' => if decide (c' = c) then context else store c'.

(** [Monitor.start_monitoring]; [now_ns] is [perf_counter_ns()]. *)
Definition Monitor_start_monitoring (c : nat) (now_ns : Z) (self : MonitorQueues)
  : MonitorQueues :=
  mkMonitorQueues
    (store_set (contexts self) c (set_monitor_start_time_ns (contexts self c) now_ns))
    (_new_contexts self ++ [c])
    (_active_contexts self)
    now_ns.

(** [Monitor.stop_monitoring]; for [None] it only logs a warning. *)
Definition Monitor_stop_monitoring (context : option nat) (now_ns : Z)
    (self : MonitorQueues) : MonitorQueues :=
  match context with
  | None => self
  | Some c =>
      mkMonitorQueues
        (store_set (contexts self) c (set_is_active (contexts self c) false))
        (_new_contexts self)
        (_active_contexts self)
        now_ns
  end.

(** [Monitor.clear_contexts] *)
Definition Monitor_clear_contexts (self : MonitorQueues) : MonitorQueues :=
  mkMonitorQueues (contexts self) [] [] (_context_last_used_ns self).

(** The first loop of [run]: the new contexts, at the time [current_time_ns].
    [None] when [fuel] turns were not enough. *)
Fixpoint process_new_contexts (fuel : nat) (current_time_ns : Z)
    (first_added_new_context : option nat) (self : MonitorQueues)
  : option MonitorQueues :=
  match _new_contexts self with
  | [] => Some self
  | new_monitor_context :: rest =>
      match fuel with
      | O => None
      | S fuel' =>
          if decide (first_added_new_context = Some new_monitor_context) then
            (* already processed: back to the queue, and out of the loop *)
            Some (mkMonitorQueues (contexts self) (rest ++ [new_monitor_context])
                    (_active_contexts self) (_context_last_used_ns self))
          else if negb (_is_active (contexts self new_monitor_context)) then
            (* inactive contexts are discarded *)
            process_new_contexts fuel' current_time_ns first_added_new_context
              (mkMonitorQueues (contexts self) rest
                 (_active_contexts self) (_context_last_used_ns self))
          else if _active_monitoring_start_time_ns (contexts self new_monitor_context)
                  <=? current_time_ns then
            (* submitted for active monitoring *)
            process_new_contexts fuel' current_time_ns first_added_new_context
              (mkMonitorQueues (contexts self) rest
                 (_active_contexts self ++ [new_monitor_context])
                 (_context_last_used_ns self))
          else
            (* not yet: back to the queue *)
            process_new_contexts fuel' current_time_ns
              (match first_added_new_context with
               | None => Some new_monitor_context
               | Some first => Some first
               end)
              (mkMonitorQueues (contexts self) (rest ++ [new_monitor_context])
                 (_active_contexts self) (_context_last_used_ns self))
      end
  end.

(** What the second loop of [run] carries along: the queues, the delay, the
    marker and the aborts that the contexts made. *)
Record Dispatch := mkDispatch {
  queues : MonitorQueues;
  delay_ms : Z;
  first_added_new_context : option nat;
  dispatch_trace : list Event
}.

(** The second loop of [run], left alone by the other threads: the probe
    that started at [status_check_start_time_ns] and gave [status] is
    reported to the active contexts.  What the loop does when other threads
    call the monitor under way is [process_active_contexts_among], below. *)
Fixpoint process_active_contexts (fuel : nat) (host_url : string)
    (status_check_start_time_ns : Z) (status : HostStatus) (d : Dispatch)
  : option Dispatch :=
  let self := queues d in
  match _active_contexts self with
  | [] => Some d
  | monitor_context :: rest =>
      match fuel with
      | O => None
      | S fuel' =>
          if negb (_is_active (contexts self monitor_context)) then
            (* inactive contexts are discarded *)
            process_active_contexts fuel' host_url status_check_start_time_ns status
              (mkDispatch
                 (mkMonitorQueues (contexts self) (_new_contexts self) rest
                    (_context_last_used_ns self))
                 (delay_ms d) (first_added_new_context d) (dispatch_trace d))
          else if decide (first_added_new_context d = Some monitor_context) then
            (* already processed by this loop: back to the queue, and out *)
            Some (mkDispatch
                    (mkMonitorQueues (contexts self) (_new_contexts self)
                       (rest ++ [monitor_context]) (_context_last_used_ns self))
                    (delay_ms d) (first_added_new_context d) (dispatch_trace d))
          else
            let '(_, updated, aborts) :=
              update_host_status (contexts self monitor_context) host_url
                status_check_start_time_ns
                (status_check_start_time_ns + elapsed_time_ns status)
                (is_available status) in
            let store := store_set (contexts self) monitor_context updated in
            if negb (_is_active updated) || is_host_unavailable updated then
              process_active_contexts fuel' host_url status_check_start_time_ns status
                (mkDispatch
                   (mkMonitorQueues store (_new_contexts self) rest
                      (_context_last_used_ns self))
                   (delay_ms d) (first_added_new_context d) (dispatch_trace d ++ aborts))
            else
              (* still active, host still available: monitoring goes on *)
              process_active_contexts fuel' host_url status_check_start_time_ns status
                (mkDispatch
                   (mkMonitorQueues store (_new_contexts self) (rest ++ [monitor_context])
                      (_context_last_used_ns self))
                   (if (delay_ms d =? -1)
                       || (_failure_detection_interval_ms updated <? delay_ms d)
                    then _failure_detection_interval_ms updated
                    else delay_ms d)
                   (match first_added_new_context d with
                    | None => Some monitor_context
                    | Some first => Some first
                    end)
                   (dispatch_trace d ++ aborts))
      end
  end.

(** A queue, once its head has gone to its end. *)
Definition head_to_end (l : list nat) : list nat := drop 1 l ++ take 1 l.



(** The marker of a loop is the first context it has put back. *)
Definition marker_of (put_back : list nat) (marker : option nat) : Prop :=
  marker = head put_back.

(** Two new contexts: context 1 was submitted at time 0, context 2 one
    nanosecond later; both have 5 s of grace. *)
Definition two_new_contexts : MonitorQueues :=
  mkMonitorQueues
    (fun c => if decide (c = 1%nat) then scenario_context
              else set_monitor_start_time_ns scenario_context 1)
    [1%nat; 2%nat] [] 0.

(** What a report does to one context, and what it makes it call. *)
Definition reported (host_url : string) (start_ns : Z) (status : HostStatus)
    (context : MonitoringContext) : MonitoringContext :=
  (update_host_status context host_url start_ns (start_ns + elapsed_time_ns status)
     (is_available status)).1.2.

Definition report_calls (host_url : string) (start_ns : Z) (status : HostStatus)
    (context : MonitoringContext) : list Event :=
  (update_host_status context host_url start_ns (start_ns + elapsed_time_ns status)
     (is_available status)).2.

(** A context that the second loop keeps monitoring: after the report it is
    active and has no verdict. *)
Definition survives (host_url : string) (start_ns : Z) (status : HostStatus)
    (store : nat -> MonitoringContext) (c : nat) : bool :=
  _is_active (reported host_url start_ns status (store c))
  && negb (is_host_unavailable (reported host_url start_ns status (store c))).

(** How the second loop takes the interval of a surviving context into its
    delay. *)
Definition shorter_delay (store : nat -> MonitoringContext) (delay : Z) (c : nat) : Z :=
  if (delay =? -1) || (_failure_detection_interval_ms (store c) <? delay)
  then _failure_detection_interval_ms (store c)
  else delay.

(** The two contexts of [two_new_contexts], both under active monitoring. *)
Definition two_active_contexts : MonitorQueues :=
  mkMonitorQueues (contexts two_new_contexts) [] [1%nat; 2%nat] 0.

(** ** The monitor among the other threads

    [run] is the body of the monitor's thread.  The plugin's thread calls
    [Monitor.start_monitoring], [Monitor.stop_monitoring] and
    [Monitor.clear_contexts] on the same monitor while [run] is in its
    loops; none of the three takes the monitor's lock, so a turn of a loop
    finds the contexts and the queues as these calls have left them. *)
Inductive MonitorCall : Type :=
| CallStartMonitoring (c : nat) (now_ns : Z)
| CallStopMonitoring (c : nat) (now_ns : Z)
| CallClearContexts.

Definition monitor_call (self : MonitorQueues) (call : MonitorCall) : MonitorQueues :=
  match call with
  | CallStartMonitoring c now_ns => Monitor_start_monitoring c now_ns self
  | CallStopMonitoring c now_ns => Monitor_stop_monitoring (Some c) now_ns self
  | CallClearContexts => Monitor_clear_contexts self
  end.

Definition monitor_calls (calls : list MonitorCall) (self : MonitorQueues)
  : MonitorQueues :=
  fold_left monitor_call calls self.

(** How a turn of a loop ends: with the next turn, or out of the loop. *)
Inductive Turn : Type :=
| NextTurn (d : Dispatch)
| OutOfLoop (d : Dispatch).

(** One turn of the second loop of [run], from [QueueUtils.get] to the
    [continue], the [break] or the end of the body. *)
Definition active_context_turn (host_url : string) (status_check_start_time_ns : Z)
    (status : HostStatus) (d : Dispatch) : Turn :=
  let self := queues d in
  match _active_contexts self with
  | [] => OutOfLoop d
  | monitor_context :: rest =>
      if negb (_is_active (contexts self monitor_context)) then
        (* inactive contexts are discarded *)
        NextTurn
          (mkDispatch
             (mkMonitorQueues (contexts self) (_new_contexts self) rest
                (_context_last_used_ns self))
             (delay_ms d) (first_added_new_context d) (dispatch_trace d))
      else if decide (first_added_new_context d = Some monitor_context) then
        (* already processed by this loop: back to the queue, and out *)
        OutOfLoop
          (mkDispatch
             (mkMonitorQueues (contexts self) (_new_contexts self)
                (rest ++ [monitor_context]) (_context_last_used_ns self))
             (delay_ms d) (first_added_new_context d) (dispatch_trace d))
      else
        let '(_, updated, aborts) :=
          update_host_status (contexts self monitor_context) host_url
            status_check_start_time_ns
            (status_check_start_time_ns + elapsed_time_ns status)
            (is_available status) in
        let store := store_set (contexts self) monitor_context updated in
        if negb (_is_active updated) || is_host_unavailable updated then
          NextTurn
            (mkDispatch
               (mkMonitorQueues store (_new_contexts self) rest
                  (_context_last_used_ns self))
               (delay_ms d) (first_added_new_context d) (dispatch_trace d ++ aborts))
        else
          (* still active, host still available: monitoring goes on *)
          NextTurn
            (mkDispatch
               (mkMonitorQueues store (_new_contexts self) (rest ++ [monitor_context])
                  (_context_last_used_ns self))
               (if (delay_ms d =? -1)
                   || (_failure_detection_interval_ms updated <? delay_ms d)
                then _failure_detection_interval_ms updated
                else delay_ms d)
               (match first_added_new_context d with
                | None => Some monitor_context
                | Some first => Some first
                end)
               (dispatch_trace d ++ aborts))
  end.

(** The second loop of [run] among the other threads: [others turn] are
    the calls that they make on the monitor after turn [turn - 1] and
    before turn [turn] of the loop (calls that fall into a turn are not
    modelled).  [None] when [fuel] turns were not enough. *)
Fixpoint process_active_contexts_among (fuel : nat) (others : nat -> list MonitorCall)
    (turn : nat) (host_url : string) (status_check_start_time_ns : Z)
    (status : HostStatus) (d : Dispatch) : option Dispatch :=
  match fuel with
  | O => None
  | S fuel' =>
      match active_context_turn host_url status_check_start_time_ns status
              (mkDispatch (monitor_calls (others turn) (queues d))
                 (delay_ms d) (first_added_new_context d) (dispatch_trace d)) with
      | OutOfLoop d' => Some d'
      | NextTurn d' =>
          process_active_contexts_among fuel' others (S turn) host_url
            status_check_start_time_ns status d'
      end
  end.

(** No other thread calls the monitor. *)
Definition undisturbed : nat -> list MonitorCall := fun _ => [].

(** Another thread stops the context [c] between the turns [turn - 1] and
    [turn], at the time [now_ns]; there is no other call. *)
Definition stopped_before (turn : nat) (c : nat) (now_ns : Z) : nat -> list MonitorCall :=
  fun k => if decide (k = turn) then [CallStopMonitoring c now_ns] else [].

(** A context that the monitor keeps reporting to: active, and without the
    verdict. *)
Definition monitored (context : MonitoringContext) : Prop :=
  _is_active context = true /\ is_host_unavailable context = false.

(** * Properties *)

(** ** MonitoringContext *)

Lemma same_frame_refl self : same_frame self self.
Proof. repeat split. Qed.

Lemma same_frame_trans a b c : same_frame a b -> same_frame b c -> same_frame a c.
Proof. unfold same_frame. intuition congruence. Qed.

Lemma set_health_frame self n t b : same_frame (set_health self n t b) self.
Proof. repeat split. Qed.

Lemma abort_returns self : (_abort_connection self).1 = Returned tt.
Proof.
  unfold _abort_connection.
  destruct (_connection self) as [c|]; [|reflexivity].
  destruct (negb (_is_active self)); [reflexivity|].
  destruct (abort_connection (_dialect self) c); reflexivity.
Qed.

Lemma abort_active self c :
  _connection self = Some c -> _is_active self = true ->
  _abort_connection self = (Returned tt, [EvAbort c]).
Proof.
  intros Hc Ha. unfold _abort_connection. rewrite Hc, Ha. simpl.
  destruct (abort_connection (_dialect self) c); reflexivity.
Qed.

Ltac split_if :=
  match goal with |- context [if ?b then _ else _] => destruct b eqn:? end.

Lemma set_host_availability_returns self url ok s e :
  (_set_host_availability self url ok s e).1.1 = Returned tt.
Proof.
  unfold _set_host_availability.
  destruct ok; [reflexivity|].
  split_if; [|reflexivity].
  match goal with |- context [_abort_connection ?c] =>
    pose proof (abort_returns c) as Hr; destruct (_abort_connection c) as [r tr]
  end.
  exact Hr.
Qed.

Lemma set_host_availability_frame self url ok s e :
  same_frame (_set_host_availability self url ok s e).1.2 self.
Proof.
  unfold _set_host_availability.
  destruct ok; [apply set_health_frame|].
  split_if.
  - destruct (_abort_connection _). apply set_health_frame.
  - apply set_health_frame.
Qed.

Lemma update_host_status_returns self url s e ok :
  (update_host_status self url s e ok).1.1 = Returned tt.
Proof.
  unfold update_host_status.
  destruct (negb (_is_active self)); [reflexivity|].
  split_if; [apply set_host_availability_returns | reflexivity].
Qed.

Lemma update_host_status_frame self url s e ok :
  same_frame (update_host_status self url s e ok).1.2 self.
Proof.
  unfold update_host_status.
  destruct (negb (_is_active self)); [apply same_frame_refl|].
  split_if; [apply set_host_availability_frame | apply same_frame_refl].
Qed.

(** Without effect: the context is inactive, or the probe ended within the
    grace period. *)
Lemma update_host_status_skip self url s e ok :
  _is_active self = false
  \/ e - _monitor_start_time_ns self <= _failure_detection_time_ms self * 1000000 ->
  update_host_status self url s e ok = (Returned tt, self, []).
Proof.
  intros [Hi | Hg]; unfold update_host_status.
  - rewrite Hi. reflexivity.
  - destruct (negb (_is_active self)); [reflexivity|].
    destruct (Z.ltb_spec (_failure_detection_time_ms self * 1000000)
                (e - _monitor_start_time_ns self)); [lia | reflexivity].
Qed.

(** A failed report never clears the verdict. *)
Lemma failed_report_keeps_verdict self url s e :
  is_host_unavailable self = true ->
  is_host_unavailable (update_host_status self url s e false).1.2 = true.
Proof.
  intros Hv. unfold update_host_status.
  destruct (negb (_is_active self)); [exact Hv|].
  split_if; [|exact Hv].
  unfold _set_host_availability.
  split_if.
  - destruct (_abort_connection _). reflexivity.
  - exact Hv.
Qed.

(** C5.  [update_host_status] leaves the context as it is, returns normally
    and calls nothing outside, whenever the context is inactive or the probe
    ended no later than [failure_detection_time_ms] after the monitor start
    time (times are in nanoseconds, the grace period in milliseconds, hence
    the factor 10^6 of the code).  So for a context stamped by
    [set_monitor_start_time_ns], a report whose probe ended at or before
    [active_monitoring_start_time_ns] changes nothing, whatever the probe
    found. *)
Theorem grace_period_no_update :
  forall (self : MonitoringContext) (url : string) (probe_start probe_end : Z)
         (is_available : bool),
    (_is_active self = false
     \/ probe_end - _monitor_start_time_ns self
        <= _failure_detection_time_ms self * 1000000 ->
     update_host_status self url probe_start probe_end is_available
     = (Returned tt, self, []))
    /\ (forall submitted : Z,
          let stamped := set_monitor_start_time_ns self submitted in
          _active_monitoring_start_time_ns stamped
          = submitted + _failure_detection_time_ms self * 1000000
          /\ (probe_end <= _active_monitoring_start_time_ns stamped ->
              update_host_status stamped url probe_start probe_end is_available
              = (Returned tt, stamped, []))).
Proof.
  intros self url s e ok. split.
  - apply update_host_status_skip.
  - intros t stamped. split; [reflexivity|].
    intros Hb. apply update_host_status_skip. right.
    subst stamped. simpl in *. lia.
Qed.

Lemma grace_period_no_update_witness :
  update_host_status scenario_context "db-1" 4999000000 5000000000 false
  = (Returned tt, scenario_context, []).
Proof.
  apply (proj1 (grace_period_no_update scenario_context "db-1"
                  4999000000 5000000000 false)).
  right. vm_compute. discriminate.
Defined.

(** C4.  A failed probe reported to an active context after the grace
    period: the call returns normally whatever the dialect's abort does;
    the failure count grows by one; [unavailable_since] becomes the probe
    start if it was 0 (or negative) and is kept otherwise; the verdict is
    set, with exactly one abort of the target connection, if and only if
    [probe_end - unavailable_since] exceeds
    [failure_detection_interval_ms * max(0, failure_detection_count)]
    (nanoseconds against milliseconds, hence the factor 10^6); below that the
    verdict is left as it was and nothing is aborted.  With
    [failure_detection_count = 0] a failed probe that ends after it started
    sets the verdict, on a context with no failure pending as well as on one
    whose pending failure began no later than the probe. *)
Theorem failed_probe_after_grace :
  forall (self : MonitoringContext) (url : string) (c : Connection)
         (probe_start probe_end : Z),
    _is_active self = true ->
    _connection self = Some c ->
    _failure_detection_time_ms self * 1000000
    < probe_end - _monitor_start_time_ns self ->
    exists (self' : MonitoringContext) (calls : list Event),
      update_host_status self url probe_start probe_end false
      = (Returned tt, self', calls)
      /\ _current_failure_count self' = _current_failure_count self + 1
      /\ (_unavailable_host_start_time_ns self <= 0 ->
          _unavailable_host_start_time_ns self' = probe_start)
      /\ (0 < _unavailable_host_start_time_ns self ->
          _unavailable_host_start_time_ns self' = _unavailable_host_start_time_ns self)
      /\ let threshold_ms :=
           _failure_detection_interval_ms self * Z.max 0 (_failure_detection_count self) in
         let unavailable_duration_ns :=
           probe_end - _unavailable_host_start_time_ns self' in
         ((_is_host_unavailable self' = true /\ calls = [EvAbort c])
          <-> threshold_ms * 1000000 < unavailable_duration_ns)
         /\ (unavailable_duration_ns <= threshold_ms * 1000000 ->
             _is_host_unavailable self' = _is_host_unavailable self /\ calls = [])
         /\ (_failure_detection_count self = 0 ->
             _unavailable_host_start_time_ns self <= 0
             \/ _unavailable_host_start_time_ns self <= probe_start ->
             probe_start < probe_end ->
             _is_host_unavailable self' = true /\ calls = [EvAbort c]).
Proof.
  intros self url c s e Hact Hconn Hgrace.
  unfold update_host_status. rewrite Hact. simpl negb. cbv iota.
  destruct (Z.ltb_spec (_failure_detection_time_ms self * 1000000)
              (e - _monitor_start_time_ns self)) as [_|?]; [|lia].
  unfold _set_host_availability.
  set (since := if _unavailable_host_start_time_ns self <=? 0 then s
                else _unavailable_host_start_time_ns self).
  set (thr := _failure_detection_interval_ms self
              * Z.max 0 (_failure_detection_count self)).
  assert (Hsince0 : _unavailable_host_start_time_ns self <= 0 -> since = s).
  { intros H. subst since.
    destruct (Z.leb_spec (_unavailable_host_start_time_ns self) 0); [reflexivity | lia]. }
  assert (Hsince1 : 0 < _unavailable_host_start_time_ns self ->
                    since = _unavailable_host_start_time_ns self).
  { intros H. subst since.
    destruct (Z.leb_spec (_unavailable_host_start_time_ns self) 0); [lia | reflexivity]. }
  destruct (Z.ltb_spec (thr * 1000000) (e - since)) as [Hover | Hunder].
  - rewrite (abort_active (set_health self (_current_failure_count self + 1) since true) c)
      by (simpl; assumption).
    eexists _, _. split; [reflexivity|]. simpl.
    repeat split; auto; intros; lia.
  - eexists _, _. split; [reflexivity|]. simpl.
    split; [reflexivity|]. split; [assumption|]. split; [assumption|].
    split; [|split].
    + split; [intros [_ Hc]; discriminate Hc | intros; lia].
    + intros _. split; reflexivity.
    + intros Hcount Hle Hlt. exfalso.
      subst thr. rewrite Hcount in Hunder. simpl in Hunder.
      destruct (Z.leb_spec (_unavailable_host_start_time_ns self) 0).
      * rewrite Hsince0 in Hunder by lia. lia.
      * rewrite Hsince1 in Hunder by lia. lia.
Qed.

Lemma failed_probe_after_grace_witness :
  exists (self' : MonitoringContext) (calls : list Event),
    update_host_status scenario_context "db-1" 8000000000 8000000001 false
    = (Returned tt, self', calls)
    /\ _current_failure_count self' = 1.
Proof.
  destruct (failed_probe_after_grace scenario_context "db-1" 7%nat
              8000000000 8000000001) as (self' & calls & Heq & Hcount & _).
  - reflexivity.
  - reflexivity.
  - vm_compute. reflexivity.
  - exists self', calls. split; [exact Heq | exact Hcount].
Defined.

Lemma update_host_status_all_frame url ps :
  forall self, same_frame (update_host_status_all self url ps).1 self.
Proof.
  induction ps as [|p ps IH]; intros self; simpl.
  - apply same_frame_refl.
  - pose proof (update_host_status_frame self url (probe_start p) (probe_end p)
                  (probe_ok p)) as Hf.
    destruct (update_host_status self url (probe_start p) (probe_end p) (probe_ok p))
      as [[r self'] tr].
    specialize (IH self').
    destruct (update_host_status_all self' url ps) as [self'' tr'].
    simpl in *. eapply same_frame_trans; eassumption.
Qed.

(** C2, as the specification has it, fails: on an active context whose
    verdict is set, a healthy report after the grace period clears it.
    [unavailable_context] got its verdict from a failed probe (1 ns to 2 ns);
    a healthy probe from 3 ns to 4 ns resets it. *)
Lemma verdict_reverts_on_healthy_probe :
  is_host_unavailable unavailable_context = true
  /\ _is_active unavailable_context = true
  /\ is_host_unavailable
       (update_host_status unavailable_context "db-1" 3 4 true).1.2 = false
  /\ is_host_unavailable
       (update_host_status_all unavailable_context "db-1" [mkProbe 3 4 true]).1 = false.
Proof. vm_compute. repeat split. Qed.

(** C2, amended.  Once the verdict is set it stays set over every sequence
    of [update_host_status] calls in which each call reports a failure or
    falls within the grace period, and over every sequence at all once the
    context is inactive.  A healthy report after the grace period on a
    context that is still active resets the verdict, and with it the failure
    count and [unavailable_since]. *)
Theorem verdict_kept_until_healthy_probe :
  forall (self : MonitoringContext) (url : string),
    is_host_unavailable self = true ->
    (forall reports : list probe,
       _is_active self = false
       \/ Forall (fun p => probe_ok p = false
                           \/ probe_end p - _monitor_start_time_ns self
                              <= _failure_detection_time_ms self * 1000000) reports ->
       is_host_unavailable (update_host_status_all self url reports).1 = true)
    /\ (forall status_check_start_time_ns status_check_end_time_ns : Z,
          _is_active self = true ->
          _failure_detection_time_ms self * 1000000
          < status_check_end_time_ns - _monitor_start_time_ns self ->
          let self' :=
            (update_host_status self url status_check_start_time_ns
               status_check_end_time_ns true).1.2 in
          is_host_unavailable self' = false
          /\ _current_failure_count self' = 0
          /\ _unavailable_host_start_time_ns self' = 0).
Proof.
  intros self url Hv. split.
  - intros reports. revert self Hv.
    induction reports as [|p ps IH]; intros self Hv Hok; simpl; [exact Hv|].
    pose proof (update_host_status_frame self url (probe_start p) (probe_end p)
                  (probe_ok p)) as Hf.
    assert (Hv' : is_host_unavailable
                    (update_host_status self url (probe_start p) (probe_end p)
                       (probe_ok p)).1.2 = true).
    { destruct Hok as [Hi | Hall].
      - rewrite update_host_status_skip by (left; exact Hi). exact Hv.
      - inversion Hall as [|? ? [Hfail | Hgrace] ?]; subst.
        + rewrite Hfail. apply failed_report_keeps_verdict. exact Hv.
        + rewrite update_host_status_skip by (right; exact Hgrace). exact Hv. }
    destruct (update_host_status self url (probe_start p) (probe_end p) (probe_ok p))
      as [[r self'] tr].
    simpl in Hf, Hv'.
    specialize (IH self' Hv').
    destruct (update_host_status_all self' url ps) as [self'' tr'] eqn:E.
    simpl in *. apply IH.
    destruct Hf as (_ & _ & Ht & _ & _ & Hs & _ & Ha).
    destruct Hok as [Hi | Hall]; [left; congruence | right].
    inversion Hall; subst. rewrite Ht, Hs. assumption.
  - intros s e Hactive Hgrace. unfold update_host_status.
    rewrite Hactive. cbn [negb].
    destruct (Z.ltb_spec (_failure_detection_time_ms self * 1000000)
                (e - _monitor_start_time_ns self)) as [_ | Hle]; [|lia].
    unfold _set_host_availability. simpl. repeat split.
Qed.

Lemma verdict_kept_until_healthy_probe_witness :
  is_host_unavailable
    (update_host_status_all unavailable_context "db-1"
       [mkProbe 3 4 false; mkProbe 5 6 false]).1 = true
  /\ _current_failure_count
       (update_host_status unavailable_context "db-1" 3 4 true).1.2 = 0.
Proof.
  destruct (verdict_kept_until_healthy_probe unavailable_context "db-1" eq_refl)
    as [Hkept Hreset].
  split.
  - apply Hkept. right. repeat constructor.
  - apply (Hreset 3 4); [reflexivity | vm_compute; reflexivity].
Defined.

(** The third scenario of the specification: 5 s of grace, probes each
    second, three failures tolerated.  The probes fail from 5 s on; the
    verdict comes with the probe that ends after 8 s, and the connection is
    aborted once, although the abort of this dialect raises. *)
Example host_goes_silent :
  let reports := [mkProbe 4000000000 4000000001 false;
                  mkProbe 5000000000 5000000001 false;
                  mkProbe 6000000000 6000000001 false;
                  mkProbe 7000000000 7000000001 false] in
  let late := mkProbe 8000000000 8000000001 false in
  is_host_unavailable (update_host_status_all scenario_context "db-1" reports).1 = false
  /\ (update_host_status_all scenario_context "db-1" reports).2 = []
  /\ is_host_unavailable
       (update_host_status_all scenario_context "db-1" (reports ++ [late])).1 = true
  /\ (update_host_status_all scenario_context "db-1" (reports ++ [late])).2
     = [EvAbort 7%nat].
Proof. vm_compute. repeat split. Qed.

(** ** HostMonitoringPlugin.execute *)

Ltac run_monad :=
  unfold mbind, M_bind, mret, M_ret, raise, answer, get_state, modify, emit,
         try_except, try_finally, set_monitoring_host_info, set_service_dialect in *;
  simpl in *.

(** The url handed to [update_host_status] only feeds the log. *)
Lemma update_host_status_url self u u' s e ok :
  update_host_status self u s e ok = update_host_status self u' s e ok.
Proof. reflexivity. Qed.

Lemma update_host_status_all_url u u' ps :
  forall self, update_host_status_all self u ps = update_host_status_all self u' ps.
Proof.
  induction ps as [|p ps IH]; intros self; simpl; [reflexivity|].
  rewrite (update_host_status_url self u u').
  destruct (update_host_status self u' _ _ _) as [[r self'] tr].
  rewrite IH. reflexivity.
Qed.

Lemma get_monitoring_host_info_cached svc st h :
  _monitoring_host_info st = Some h ->
  _get_monitoring_host_info svc st = (Returned h, st).
Proof.
  intros Hc. unfold _get_monitoring_host_info. run_monad. rewrite Hc. reflexivity.
Qed.

(** When the monitoring host is resolved it is cached; neither the dialect
    nor the trace is touched. *)
Lemma get_monitoring_host_info_returned svc st h st' :
  _get_monitoring_host_info svc st = (Returned h, st') ->
  _monitoring_host_info st' = Some h
  /\ service_dialect st' = service_dialect st
  /\ plugin_trace st' = plugin_trace st.
Proof.
  unfold _get_monitoring_host_info. run_monad.
  destruct (_monitoring_host_info st) as [h0|] eqn:Hc.
  - intros H. inversion H; subst. auto.
  - destruct (current_host_info svc) as [cur|]; [|discriminate].
    destruct (is_rds_cluster svc (url cur)).
    + destruct (identify_connection svc) as [[ident|]|]; try discriminate.
      destruct (fill_aliases svc ident) as [h'|]; [|discriminate].
      intros H. inversion H; subst. auto.
    + intros H. inversion H; subst. auto.
Qed.

(** A context that [start_monitoring] returns is active, has no verdict, and
    aborts the connection it was given; the service holds a dialect. *)
Lemma start_monitoring_returned svc registry now conn aliases h t i n st ctx st' :
  start_monitoring svc registry now conn aliases h t i n st = (Returned ctx, st') ->
  _monitoring_host_info st' = _monitoring_host_info st
  /\ plugin_trace st' = plugin_trace st
  /\ (exists d, service_dialect st' = Some d /\ _dialect ctx = d)
  /\ _connection ctx = Some conn
  /\ _is_active ctx = true
  /\ _is_host_unavailable ctx = false
  /\ _monitor_start_time_ns ctx = now
  /\ aliases <> ∅.
Proof.
  unfold start_monitoring.
  destruct (decide (aliases = ∅)) as [|Hne]; [discriminate|].
  run_monad.
  destruct registry; [|discriminate].
  destruct (service_dialect st) as [d|] eqn:Hd.
  - intros H. inversion H; subst. rewrite Hd. repeat split; eauto.
  - destruct (update_dialect svc) as [d|]; [|discriminate].
    intros H. inversion H; subst. simpl. repeat split; eauto.
Qed.

Lemma execute_start_returned svc cfg registry now conn st ctx st' :
  execute_start svc cfg registry now conn st = (Returned ctx, st') ->
  (exists m, _monitoring_host_info st' = Some m)
  /\ (exists d, service_dialect st' = Some d /\ _dialect ctx = d)
  /\ plugin_trace st' = plugin_trace st
  /\ _connection ctx = Some conn
  /\ _is_active ctx = true.
Proof.
  unfold execute_start. unfold mbind at 1, M_bind at 1.
  destruct (_get_monitoring_host_info svc st) as [[m1|] st1] eqn:H1; [|discriminate].
  apply get_monitoring_host_info_returned in H1 as (Hc1 & Hd1 & Ht1).
  unfold mbind at 1, M_bind at 1.
  rewrite (get_monitoring_host_info_cached svc st1 m1 Hc1).
  intros H. apply start_monitoring_returned in H
    as (Hm & Ht & Hd & Hconn & Hact & _).
  split; [exists m1; congruence|].
  split; [exact Hd|].
  split; [congruence|].
  split; assumption.
Qed.

(** C1, as the specification has it, fails: the error is raised, and the
    connection closed, only under the guard that the dialect does not report
    the connection closed already.  Here the wrapped call returns 42 while a
    failed probe sets the verdict; the dialect reports connection 7 closed;
    [execute] marks the host and returns 42. *)
Lemma unavailable_verdict_without_error :
  (exists context,
      context_at_exit (service_on_db1 broken_dialect) eager_config (Returned tt) 0
        [mkProbe 1 2 false] "Cursor.execute" (idle_plugin broken_dialect) = Some context
      /\ is_host_unavailable context = true)
  /\ execute (service_on_db1 broken_dialect) eager_config (Returned tt) 0
       [mkProbe 1 2 false] "Cursor.execute" (Returned 42%nat) (idle_plugin broken_dialect)
     = (Returned 42%nat,
        mkPluginState (Some db1) (Some broken_dialect)
          [EvAbort 7%nat; EvSetAvailability (all_aliases db1) NOT_AVAILABLE]).
Proof.
  split.
  - eexists. split; [vm_compute; reflexivity | reflexivity].
  - vm_compute. reflexivity.
Qed.

(** What a context calls outside is the abort of its own connection. *)
Lemma update_host_status_calls self url s e ok c :
  _connection self = Some c ->
  Forall (fun ev => ev = EvAbort c) (update_host_status self url s e ok).2.
Proof.
  intros Hc. unfold update_host_status.
  destruct (negb (_is_active self)); [constructor|].
  split_if; [|constructor].
  unfold _set_host_availability.
  destruct ok; [constructor|].
  split_if; [|constructor].
  unfold _abort_connection. simpl. rewrite Hc.
  destruct (negb (_is_active self)); [constructor|].
  destruct (abort_connection (_dialect self) c); repeat constructor.
Qed.

Lemma update_host_status_all_calls url ps c :
  forall self,
    _connection self = Some c ->
    Forall (fun ev => ev = EvAbort c) (update_host_status_all self url ps).2.
Proof.
  induction ps as [|p ps IH]; intros self Hc; simpl; [constructor|].
  pose proof (update_host_status_calls self url (probe_start p) (probe_end p)
                (probe_ok p) c Hc) as Hev.
  pose proof (update_host_status_frame self url (probe_start p) (probe_end p)
                (probe_ok p)) as (Hc' & _).
  destruct (update_host_status self url (probe_start p) (probe_end p) (probe_ok p))
    as [[r self'] tr].
  simpl in *.
  specialize (IH self' ltac:(congruence)).
  destruct (update_host_status_all self' url ps) as [self'' tr'].
  simpl in *. apply Forall_app. split; assumption.
Qed.

(** C1, amended.  When the context of a wrapped network-bound call ends
    with the unavailable verdict, [execute] marks the aliases of the
    monitoring host NOT_AVAILABLE.  If the dialect reports the underlying
    connection as not closed, [execute] then closes it, ignoring what the
    close raises, and raises the host-unavailable error in place of whatever
    result or exception the wrapped call produced.  If the dialect reports
    the connection closed, nothing is closed and nothing is raised: the
    outcome of the wrapped call reaches the caller. *)
Theorem unavailable_verdict_at_exit :
  forall (A : Type) (svc : PluginService) (cfg : MonitoringConfig)
         (registry : outcome unit) (now_ns : Z) (probes : list probe)
         (method_name : string) (execute_func : outcome A) (st : PluginState)
         (context : MonitoringContext),
    context_at_exit svc cfg registry now_ns probes method_name st = Some context ->
    is_host_unavailable context = true ->
    exists (connection : Connection) (monitoring_host : HostInfo) (d : Dialect)
           (aborts : list Event),
      current_connection svc = Some connection
      /\ Forall (fun ev => ev = EvAbort connection) aborts
      /\ let marked :=
           plugin_trace st ++ aborts
           ++ [EvSetAvailability (all_aliases monitoring_host) NOT_AVAILABLE] in
         let '(result, st') :=
           execute svc cfg registry now_ns probes method_name execute_func st in
         _monitoring_host_info st' = Some monitoring_host
         /\ service_dialect st' = Some d
         /\ if is_closed d connection
            then result = execute_func /\ plugin_trace st' = marked
            else result = Raised (AwsWrapperError "HostMonitoringPlugin.UnavailableHost")
                 /\ plugin_trace st' = marked ++ [EvClose connection].
Proof.
  intros A svc cfg registry now probes method execute_func st context.
  unfold context_at_exit, execute.
  destruct (current_connection svc) as [connection|]; [|discriminate].
  destruct (current_host_info svc) as [host_info|]; [|discriminate].
  destruct (negb (FAILURE_DETECTION_ENABLED cfg)
            || negb (existsb (String.eqb method) (NETWORK_BOUND_METHODS cfg)));
    [discriminate|].
  destruct (execute_start svc cfg registry now connection st)
    as [[monitor_context|] st1] eqn:Hstart; [|discriminate].
  apply execute_start_returned in Hstart
    as ((m & Hm) & (d & Hd & _) & Htr & Hconn & _).
  rewrite Hm.
  rewrite (update_host_status_all_url (url host_info) (url m)).
  pose proof (update_host_status_all_calls (url m) probes connection
                monitor_context Hconn) as Haborts.
  destruct (update_host_status_all monitor_context (url m) probes)
    as [monitor_context' aborts].
  simpl in Haborts. simpl fst.
  intros Hctx Hverdict. inversion Hctx; subst context; clear Hctx.
  exists connection, m, d, aborts.
  split; [reflexivity|]. split; [exact Haborts|].
  unfold try_finally, execute_cleanup.
  rewrite Hverdict.
  unfold mbind at 1, M_bind at 1. unfold emit at 1, answer at 1.
  unfold mbind at 1, M_bind at 1.
  rewrite get_monitoring_host_info_cached with (h := m) by exact Hm.
  run_monad. rewrite Hd.
  destruct (is_closed d connection); simpl.
  - rewrite Htr, <- app_assoc. auto.
  - destruct (close svc connection); simpl;
      rewrite Htr, <- !app_assoc; auto.
Qed.

Lemma unavailable_verdict_at_exit_witness :
  exists (connection : Connection) (aborts : list Event),
    current_connection (service_on_db1 quiet_dialect) = Some connection
    /\ Forall (fun ev => ev = EvAbort connection) aborts.
Proof.
  destruct (unavailable_verdict_at_exit nat (service_on_db1 quiet_dialect) eager_config
              (Returned tt) 0 [mkProbe 1 2 false] "Cursor.execute" (Returned 42%nat)
              (idle_plugin quiet_dialect)
              (stop_monitoring unavailable_context))
    as (connection & _ & _ & aborts & Hc & Ha & _).
  - vm_compute. reflexivity.
  - reflexivity.
  - exists connection, aborts. split; assumption.
Defined.

(** ** Monitor._check_host_status: the properties of the monitoring connection *)

Lemma string_length_app (a b : string) :
  String.length (a +:+ b) = (String.length a + String.length b)%nat.
Proof.
  induction a as [|c a IH]; [reflexivity|].
  change (S (String.length (a +:+ b)) = S (String.length a + String.length b)).
  now rewrite IH.
Qed.

Lemma substring_whole (s : string) : String.substring 0 (String.length s) s = s.
Proof. induction s as [|c s IH]; simpl; [reflexivity | now rewrite IH]. Qed.

Lemma startswith_split (p key : string) :
  startswith key p = true -> key = p +:+ slice_from (String.length p) key.
Proof.
  unfold startswith, slice_from. revert key.
  induction p as [|a p IH]; intros key H; simpl.
  - rewrite Nat.sub_0_r. symmetry. apply substring_whole.
  - destruct key as [|b key]; simpl in H; [discriminate|].
    destruct (Ascii.ascii_dec a b) as [->|]; [|discriminate].
    change (String b key
            = String b (p +:+ String.substring (String.length p)
                                (String.length key - String.length p) key)).
    f_equal. apply IH. exact H.
Qed.

Lemma startswith_app (p s : string) : startswith (p +:+ s) p = true.
Proof.
  unfold startswith. induction p as [|a p IH]; [destruct s; reflexivity|].
  change (String.prefix (String a p) (String a (p +:+ s)) = true).
  simpl. destruct (Ascii.ascii_dec a a); [exact IH | congruence].
Qed.

Lemma prefixed_key_differs (p k : string) : p <> "" -> p +:+ k <> k.
Proof.
  intros Hp Heq. apply (f_equal String.length) in Heq.
  rewrite string_length_app in Heq.
  destruct p; [congruence | simpl in Heq; lia].
Qed.

Lemma remap_invariant_start (props : list (string * string)) :
  remap_invariant (list_to_map props) [] (list_to_map props).
Proof.
  intros k. split.
  - intros v Hin. inversion Hin.
  - intros _. split.
    + intros _ Hin. inversion Hin.
    + reflexivity.
Qed.

(** One turn of the loop keeps the invariant, provided the key is new and,
    when it has the prefix, its prefixed form was not passed before. *)
Lemma remap_invariant_step original passed props_copy key value :
  remap_invariant original passed props_copy ->
  key ∉ passed.*1 ->
  (startswith key _MONITORING_PROPERTY_PREFIX = true ->
   (_MONITORING_PROPERTY_PREFIX +:+ key) ∉ passed.*1) ->
  remap_invariant original (passed ++ [(key, value)])
    (remap_property props_copy (key, value)).
Proof.
  intros Hinv Hnew Hord k.
  destruct (Hinv k) as [Hbound Hfree].
  assert (Hp : _MONITORING_PROPERTY_PREFIX <> "") by discriminate.
  unfold remap_property.
  destruct (startswith key _MONITORING_PROPERTY_PREFIX) eqn:Hpre.
  - pose proof (startswith_split _ _ Hpre) as Hkey.
    set (suffix := slice_from (String.length _MONITORING_PROPERTY_PREFIX) key) in *.
    specialize (Hord eq_refl).
    destruct (decide (k = key)) as [->|Hk].
    + (* the prefixed key itself is dropped from the copy *)
      rewrite lookup_delete_eq. split.
      * intros v Hin. exfalso.
        apply elem_of_app in Hin as [Hin | Hin].
        -- apply Hord. apply list_elem_of_fmap. exists (_MONITORING_PROPERTY_PREFIX +:+ key, v).
           split; [reflexivity | exact Hin].
        -- apply list_elem_of_singleton in Hin. injection Hin as Heq _.
           exact (prefixed_key_differs _ _ Hp Heq).
      * intros _. split; [reflexivity|].
        intros [Hf | Hnot]; [congruence|].
        exfalso. apply Hnot. rewrite fmap_app. apply elem_of_app. right.
        simpl. apply list_elem_of_singleton. reflexivity.
    + rewrite lookup_delete_ne by congruence.
      destruct (decide (k = suffix)) as [->|Hs].
      * (* the stripped key takes the value *)
        rewrite lookup_insert_eq. split.
        -- intros v Hin.
           apply elem_of_app in Hin as [Hin | Hin].
           ++ exfalso. apply Hnew. apply list_elem_of_fmap.
              exists (_MONITORING_PROPERTY_PREFIX +:+ suffix, v).
              split; [simpl; congruence | exact Hin].
           ++ apply list_elem_of_singleton in Hin. injection Hin as _ Hv. congruence.
        -- intros Hnot. exfalso. apply Hnot.
           rewrite fmap_app. apply elem_of_app. right.
           simpl. apply list_elem_of_singleton. congruence.
      * (* every other key is as before *)
        rewrite lookup_insert_ne by congruence.
        assert (Hne : _MONITORING_PROPERTY_PREFIX +:+ k <> key).
        { rewrite Hkey. intros Heq. apply Hs.
          exact (String.app_inj _MONITORING_PROPERTY_PREFIX _ _ Heq). }
        split.
        -- intros v Hin. apply Hbound.
           apply elem_of_app in Hin as [Hin | Hin]; [exact Hin|].
           apply list_elem_of_singleton in Hin. injection Hin as Hk' _. congruence.
        -- intros Hnot.
           rewrite fmap_app in Hnot. simpl in Hnot.
           destruct Hfree as [Hgone Hsame].
           { intros Hin. apply Hnot. apply elem_of_app. left. exact Hin. }
           split.
           ++ intros Hkp Hin. apply Hgone; [exact Hkp|].
              rewrite fmap_app in Hin. apply elem_of_app in Hin as [Hin | Hin];
                [exact Hin|].
              simpl in Hin. apply list_elem_of_singleton in Hin. congruence.
           ++ intros [Hf | Hout]; apply Hsame; [left; exact Hf | right].
              intros Hin. apply Hout. rewrite fmap_app. apply elem_of_app. left. exact Hin.
  - (* a key without the prefix: the copy is left alone *)
    assert (Hne : _MONITORING_PROPERTY_PREFIX +:+ k <> key).
    { intros Heq. rewrite <- Heq, startswith_app in Hpre. discriminate. }
    split.
    + intros v Hin. apply Hbound.
      apply elem_of_app in Hin as [Hin | Hin]; [exact Hin|].
      apply list_elem_of_singleton in Hin. injection Hin as Hk' _. congruence.
    + intros Hnot.
      rewrite fmap_app in Hnot. simpl in Hnot.
      destruct Hfree as [Hgone Hsame].
      { intros Hin. apply Hnot. apply elem_of_app. left. exact Hin. }
      split.
      * intros Hkp Hin. apply Hgone; [exact Hkp|].
        rewrite fmap_app in Hin. apply elem_of_app in Hin as [Hin | Hin]; [exact Hin|].
        simpl in Hin. apply list_elem_of_singleton in Hin. congruence.
      * intros [Hf | Hout]; apply Hsame; [left; exact Hf | right].
        intros Hin. apply Hout. rewrite fmap_app. apply elem_of_app. left. exact Hin.
Qed.

Lemma remap_invariant_loop original rest :
  forall passed seen props_copy,
    remap_invariant original passed props_copy ->
    NoDup (passed ++ rest).*1 ->
    (forall x, In x seen <-> x ∈ passed.*1) ->
    stripped_key_not_passed seen rest = true ->
    remap_invariant original (passed ++ rest) (fold_left remap_property rest props_copy).
Proof.
  induction rest as [|[key value] rest IH]; intros passed seen props_copy Hinv Hnd Hseen Hord.
  - rewrite app_nil_r. exact Hinv.
  - cbn [stripped_key_not_passed] in Hord. apply andb_prop in Hord as [Hhere Hrest].
    assert (Hnew : key ∉ passed.*1).
    { rewrite fmap_app in Hnd. apply NoDup_app in Hnd as (_ & Hdisj & _).
      intros Hin. apply (Hdisj key Hin). simpl. left. }
    replace (passed ++ (key, value) :: rest) with ((passed ++ [(key, value)]) ++ rest) in *
      by (rewrite <- app_assoc; reflexivity).
    simpl. apply IH with (seen := key :: seen).
    + apply remap_invariant_step; [exact Hinv | exact Hnew |].
      intros Hpre Hin. apply Hseen in Hin.
      apply orb_prop in Hhere as [Hh | Hh]; [rewrite Hpre in Hh; discriminate|].
      apply negb_true_iff in Hh.
      assert (existsb (String.eqb (_MONITORING_PROPERTY_PREFIX +:+ key)) seen = true)
        as Hex; [|rewrite Hex in Hh; discriminate].
      apply existsb_exists. exists (_MONITORING_PROPERTY_PREFIX +:+ key).
      split; [exact Hin | apply String.eqb_refl].
    + exact Hnd.
    + intros x. rewrite fmap_app, elem_of_app, <- Hseen. simpl.
      rewrite list_elem_of_singleton. split.
      * intros [<- | Hin]; [right; reflexivity | left; exact Hin].
      * intros [Hin | ->]; [right; exact Hin | left; reflexivity].
    + exact Hrest.
Qed.

(** The lookups of the remapped copy, for a dictionary in which no doubly
    prefixed key is walked before the key it strips to. *)
Lemma monitoring_connection_props_lookup (props : list (string * string)) :
  NoDup props.*1 ->
  stripped_key_not_passed [] props = true ->
  forall k, monitoring_connection_props props !! k = remapped_lookup props k.
Proof.
  intros Hnd Hord k.
  pose proof (remap_invariant_loop (list_to_map props) props [] [] (list_to_map props)
                (remap_invariant_start props) Hnd) as Hinv.
  simpl in Hinv. specialize (Hinv ltac:(intros x; split; [intros [] | inversion 1]) Hord k).
  destruct Hinv as [Hbound Hfree].
  unfold monitoring_connection_props, remapped_lookup.
  destruct (list_to_map props !! (_MONITORING_PROPERTY_PREFIX +:+ k)) as [v|] eqn:Hl.
  - apply Hbound. apply elem_of_list_to_map_2 in Hl. exact Hl.
  - apply not_elem_of_list_to_map in Hl. destruct (Hfree Hl) as [Hgone Hsame].
    destruct (startswith k _MONITORING_PROPERTY_PREFIX) eqn:Hpre.
    + destruct (decide (k ∈ props.*1)) as [Hin | Hout].
      * apply Hgone; [reflexivity | exact Hin].
      * rewrite Hsame by (right; exact Hout).
        apply not_elem_of_list_to_map_1. exact Hout.
    + apply Hsame. left. reflexivity.
Qed.

(** C9.  The loop misses the case of a doubly prefixed key that is walked
    before the key it strips to.  From
    [{"monitoring-monitoring-x": "v", "monitoring-x": "u"}] the first turn
    binds ["monitoring-x"] to ["v"] in the copy and the second turn pops
    that very key, so the copy ends as [{"x": "u"}], without the binding of
    ["monitoring-x"] to ["v"] that the stripped key should have.  Walked in
    the other order the same dictionary gives both bindings. *)
Theorem nested_prefix_binding_lost :
  NoDup nested_props.*1
  /\ monitoring_connection_props nested_props = {["x" := "u"]}
  /\ monitoring_connection_props nested_props !! "monitoring-x" = None
  /\ remapped_lookup nested_props "monitoring-x" = Some "v"
  /\ monitoring_connection_props (rev nested_props)
     = {["monitoring-x" := "v"; "x" := "u"]}.
Proof.
  split; [|split; [|split; [|split]]].
  - apply (bool_decide_unpack _). vm_compute. exact I.
  - vm_compute. reflexivity.
  - vm_compute. reflexivity.
  - vm_compute. reflexivity.
  - vm_compute. reflexivity.
Qed.

(** Apart from that case the loop does what is specified.  Let the
    properties of a monitor hold no key [monitoring-monitoring-s] that is
    walked before the key [monitoring-s].
    Then [_check_host_status] always returns a status, leaves the monitor's
    own properties as they were, and calls [force_connect] at most once; the
    properties it hands over are the original ones with every key prefixed
    [monitoring-] removed and, for each such key, its suffix bound to the
    value of that key, in place of any plain key of that name; all other
    keys are as in the original.  The call is made whenever the dialect is
    known and the monitor has no connection or a closed one. *)
Theorem monitoring_connection_properties :
  forall (svc : PluginService) (elapsed_ns : Z) (query : outcome unit) (self : Monitor),
    NoDup (_props self).*1 ->
    stripped_key_not_passed [] (_props self) = true ->
    exists (status : HostStatus) (self' : Monitor) (calls : list Event),
      _check_host_status svc elapsed_ns query self = (Returned status, self')
      /\ _props self' = _props self
      /\ monitor_trace self' = monitor_trace self ++ calls
      /\ (calls = []
          \/ exists used : gmap string string,
               calls = [EvForceConnect (_host_info self) used None]
               /\ used = monitoring_connection_props (_props self)
               /\ forall k, used !! k = remapped_lookup (_props self) k)
      /\ (forall d : Dialect,
            match monitor_dialect self with
            | Some d' => d' = d
            | None => update_dialect svc = Some d
            end ->
            match _monitoring_conn self with
            | None => True
            | Some c => is_closed d c = true
            end ->
            calls <> []).
Proof.
  intros svc elapsed query self Hnd Hord.
  pose proof (monitoring_connection_props_lookup (_props self) Hnd Hord) as Hlookup.
  assert (Hnil : forall m : Monitor, monitor_trace m = monitor_trace m ++ [])
    by (intros; rewrite app_nil_r; reflexivity).
  unfold _check_host_status. run_monad.
  destruct (monitor_dialect self) as [d|] eqn:Hd;
    [|destruct (update_dialect svc) as [d|] eqn:Hu].
  - destruct (match _monitoring_conn self with
              | Some c => is_closed d c | None => true end) eqn:Hopen.
    + destruct (force_connect svc (monitor_connects self) (_host_info self)
                  (monitoring_connection_props (_props self)) None) as [conn|err];
        simpl;
        eexists _, _, [EvForceConnect (_host_info self)
                         (monitoring_connection_props (_props self)) None];
        (split; [reflexivity|]); simpl;
        rewrite ?app_nil_r; (split; [reflexivity|]); (split; [reflexivity|]);
        (split; [right; eexists; split; [reflexivity|]; split; [reflexivity | exact Hlookup]
                | intros; discriminate]).
    + destruct (_is_host_available query) as [ok|err]; simpl;
        eexists _, _, []; (split; [reflexivity|]); (split; [reflexivity|]);
        (split; [apply Hnil|]); (split; [left; reflexivity|]);
        intros d' -> Hc; exfalso;
        destruct (_monitoring_conn self); congruence.
  - simpl.
    destruct (match _monitoring_conn self with
              | Some c => is_closed d c | None => true end) eqn:Hopen.
    + destruct (force_connect svc (monitor_connects self) (_host_info self)
                  (monitoring_connection_props (_props self)) None) as [conn|err];
        simpl;
        eexists _, _, [EvForceConnect (_host_info self)
                         (monitoring_connection_props (_props self)) None];
        (split; [reflexivity|]); simpl;
        rewrite ?app_nil_r; (split; [reflexivity|]); (split; [reflexivity|]);
        (split; [right; eexists; split; [reflexivity|]; split; [reflexivity | exact Hlookup]
                | intros; discriminate]).
    + destruct (_is_host_available query) as [ok|err]; simpl;
        eexists _, _, []; (split; [reflexivity|]); (split; [reflexivity|]);
        (split; [simpl; rewrite !app_nil_r; reflexivity|]); (split; [left; reflexivity|]);
        intros d' Hd' Hc; exfalso; injection Hd' as <-;
        destruct (_monitoring_conn self); congruence.
  - simpl. eexists _, _, []. split; [reflexivity|]. simpl.
    split; [reflexivity|]. split; [rewrite !app_nil_r; reflexivity|].
    split; [left; reflexivity|]. intros d'. discriminate.
Qed.

Lemma monitoring_connection_properties_witness :
  exists used : gmap string string,
    used = monitoring_connection_props probe_props
    /\ used !! "connect_timeout" = Some "3"
    /\ used !! "monitoring-connect_timeout" = None
    /\ used !! "user" = Some "app".
Proof.
  destruct (monitoring_connection_properties (service_on_db1 quiet_dialect) 5 (Returned tt)
              (mkMonitor db1 probe_props None (Some quiet_dialect) 0 []))
    as (status & self' & calls & _ & _ & _ & Hcalls & Hopens).
  - apply (bool_decide_unpack _). vm_compute. exact I.
  - reflexivity.
  - destruct Hcalls as [-> | (used & _ & Hused & Hk)].
    + exfalso. apply (Hopens quiet_dialect); [reflexivity | exact I | reflexivity].
    + exists used. split; [exact Hused|].
      rewrite !Hk. vm_compute. repeat split.
Defined.

(** ** ReaderFailoverHandlerImpl *)

(** *** Reasoning about runs *)

Lemma returns_ret {A} (a : A) st (Q : A -> HandlerState -> Prop) :
  Q a st -> returns (mret a) st Q.
Proof. intros H. exists a, st. split; [reflexivity | exact H]. Qed.

Lemma returns_bind {A B} (m : M HandlerState A) (f : A -> M HandlerState B) st
    (Q : B -> HandlerState -> Prop) :
  returns m st (fun a st1 => returns (f a) st1 Q) -> returns (m ≫= f) st Q.
Proof.
  intros (a & st1 & Hm & b & st2 & Hf & HQ).
  exists b, st2. split; [|exact HQ].
  unfold mbind, M_bind. rewrite Hm. exact Hf.
Qed.

Lemma returns_modify (f : HandlerState -> HandlerState) st
    (Q : unit -> HandlerState -> Prop) :
  Q tt (f st) -> returns (modify f) st Q.
Proof. intros H. exists tt, (f st). split; [reflexivity | exact H]. Qed.

Lemma returns_get st (Q : HandlerState -> HandlerState -> Prop) :
  Q st st -> returns get_state st Q.
Proof. intros H. exists st, st. split; [reflexivity | exact H]. Qed.

Lemma returns_weaken {A} (m : M HandlerState A) st (P Q : A -> HandlerState -> Prop) :
  returns m st P -> (forall a st', P a st' -> Q a st') -> returns m st Q.
Proof. intros (a & st' & Hm & HP) HPQ. exists a, st'. split; [exact Hm | auto]. Qed.

Lemma evolves_refl allowed st : evolves allowed st st.
Proof.
  split; [auto|]. exists []. split; [symmetry; apply app_nil_r | apply list_subseteq_nil].
Qed.

Lemma attempted_app tr1 tr2 : attempted (tr1 ++ tr2) = attempted tr1 ++ attempted tr2.
Proof. unfold attempted. apply omap_app. Qed.

Lemma evolves_trans allowed st1 st2 st3 :
  evolves allowed st1 st2 -> evolves allowed st2 st3 -> evolves allowed st1 st3.
Proof.
  intros [He1 (c1 & Ht1 & Ha1)] [He2 (c2 & Ht2 & Ha2)].
  split; [auto|]. exists (c1 ++ c2). split.
  - rewrite Ht2, Ht1, app_assoc. reflexivity.
  - rewrite attempted_app. intros x Hx. apply elem_of_app in Hx as [Hx | Hx]; auto.
Qed.

Lemma evolves_mono allowed allowed' st st' :
  allowed ⊆ allowed' -> evolves allowed st st' -> evolves allowed' st st'.
Proof.
  intros Hsub [He (c & Ht & Ha)]. split; [exact He|].
  exists c. split; [exact Ht|]. intros x Hx. apply Hsub, Ha, Hx.
Qed.

Lemma evolves_pass_time allowed st : evolves allowed st (pass_time st).
Proof.
  unfold pass_time. destruct (outer_wait st) as [[|[|k]]|]; try apply evolves_refl.
  - split; [reflexivity|]. exists []. simpl.
    split; [symmetry; apply app_nil_r | apply list_subseteq_nil].
  - split; [auto|]. exists []. simpl.
    split; [symmetry; apply app_nil_r | apply list_subseteq_nil].
Qed.

Lemma evolves_event_set allowed st : evolves allowed st (timeout_event_set st).
Proof.
  split; [reflexivity|]. exists []. simpl.
  split; [symmetry; apply app_nil_r | apply list_subseteq_nil].
Qed.

Lemma evolves_draw allowed n st : evolves allowed st (draw n st).
Proof.
  split; [auto|]. exists []. simpl.
  split; [symmetry; apply app_nil_r | apply list_subseteq_nil].
Qed.

Lemma evolves_record allowed tr st :
  attempted tr ⊆ allowed -> evolves allowed st (record tr st).
Proof. intros Ha. split; [auto|]. exists tr. split; [reflexivity | exact Ha]. Qed.

Lemma evolves_sleep allowed n st :
  returns (sleep n) st (fun _ st' => evolves allowed st st').
Proof.
  apply returns_modify.
  eapply evolves_trans; [apply (evolves_record allowed [EvSleep n]) | apply evolves_pass_time].
  apply list_subseteq_nil.
Qed.

(** *** attempt_connection *)

(** C7.  [attempt_connection] calls [force_connect] once, with the
    handler's properties and the cancellation event, and then: if the call
    returns a connection, it marks the aliases of the host AVAILABLE and
    returns the connected result with that connection and that host; if the
    call raises an exception the service classes as a network exception, it
    marks the aliases NOT_AVAILABLE and returns the not-connected result
    with no exception; if it raises any other exception, it marks the
    aliases NOT_AVAILABLE and returns a not-connected result that carries
    the exception.  The result carries an exception exactly in the last
    case. *)
Theorem attempt_connection_cases :
  forall (self : Handler) (host : HostInfo) (st : HandlerState),
    let svc := _plugin_service self in
    let cancel := Some (_timeout_event st) in
    let answer_of_connect := force_connect svc (draws st) host (_properties self) cancel in
    let after (a : HostAvailability) :=
      mkHandlerState (_timeout_event st) (outer_wait st) (draws st + 1)%nat
        (handler_trace st
         ++ [EvForceConnect host (_properties self) cancel]
         ++ [EvSetAvailability (all_aliases host) a]) in
    exists result : ReaderFailoverResult,
      match answer_of_connect with
      | Returned conn =>
          attempt_connection self host st = (Returned result, after AVAILABLE)
          /\ result = mkReaderFailoverResult conn true (Some host) None
      | Raised ex =>
          attempt_connection self host st = (Returned result, after NOT_AVAILABLE)
          /\ result = (if is_network_exception svc ex
                       then failed_reader_failover_result
                       else mkReaderFailoverResult None false None (Some ex))
      end
      /\ (exception result <> None
          <-> exists ex, answer_of_connect = Raised ex
                         /\ is_network_exception svc ex = false).
Proof.
  intros self host st svc cancel answer_of_connect after.
  unfold attempt_connection. run_monad. unfold draw, record. simpl.
  fold svc. fold cancel. fold answer_of_connect.
  destruct answer_of_connect as [conn | ex] eqn:Hfc; simpl.
  - eexists. split; [split; [|reflexivity]|].
    + unfold after. rewrite <- app_assoc. reflexivity.
    + simpl. split; [congruence|]. intros (ex & Hex & _). discriminate.
  - destruct (is_network_exception svc ex) eqn:Hnet; simpl.
    + eexists. split; [split; [|reflexivity]|].
      * unfold after. rewrite <- app_assoc. reflexivity.
      * simpl. split; [congruence|]. intros (ex' & Hex & Hn).
        injection Hex as <-. congruence.
    + eexists. split; [split; [|reflexivity]|].
      * unfold after. rewrite <- app_assoc. reflexivity.
      * simpl. split; [|discriminate]. intros _. exists ex. split; [reflexivity | exact Hnet].
Qed.

(** What the other methods need to know of an attempt. *)
Lemma attempt_connection_returns self host st allowed :
  host ∈ allowed ->
  returns (attempt_connection self host) st
    (fun result st' =>
       evolves allowed st st'
       /\ (connects_non_null (_plugin_service self) -> result_ok result)).
Proof.
  intros Hin. unfold attempt_connection, returns. run_monad. unfold draw, record. simpl.
  assert (Hev : forall a,
             evolves allowed st
               (mkHandlerState (_timeout_event st) (outer_wait st) (draws st + 1)%nat
                  ((handler_trace st
                    ++ [EvForceConnect host (_properties self) (Some (_timeout_event st))])
                   ++ [EvSetAvailability (all_aliases host) a]))).
  { intros a. split; [auto|]. eexists. split; [simpl; rewrite <- app_assoc; reflexivity|].
    simpl. intros x Hx. apply list_elem_of_singleton in Hx as ->. exact Hin. }
  destruct (force_connect (_plugin_service self) (draws st) host (_properties self)
              (Some (_timeout_event st))) as [conn | ex] eqn:Hfc; simpl.
  - eexists _, _. split; [reflexivity|]. split; [apply Hev|].
    intros Hnn _. simpl. split; [|discriminate].
    intros ->. exact (Hnn _ _ _ _ Hfc).
  - destruct (is_network_exception (_plugin_service self) ex); simpl;
      eexists _, _; (split; [reflexivity|]); (split; [apply Hev|]);
      intros _ Hc; discriminate Hc.
Qed.

Lemma failed_result_ok : result_ok failed_reader_failover_result.
Proof. intros Hc. discriminate Hc. Qed.

(** *** Batches *)

(** A batch on an index of the list returns, and the event is set when it
    does: the [finally] clause sets it on every way out. *)
Lemma batch_returns self hosts i first st :
  hosts !! i = Some first ->
  returns (_get_result_from_next_task_batch self hosts i) st
    (fun result st' =>
       evolves hosts st st'
       /\ _timeout_event st' = true
       /\ (connects_non_null (_plugin_service self) -> result_ok result)).
Proof.
  intros Hi. unfold _get_result_from_next_task_batch. rewrite Hi.
  set (P := fun r : ReaderFailoverResult =>
              connects_non_null (_plugin_service self) -> result_ok r).
  apply returns_bind, returns_modify.
  apply returns_bind.
  eapply returns_weaken;
    [apply (attempt_connection_returns self first _ hosts);
     eapply list_elem_of_lookup_2; exact Hi|].
  intros r1 st1 [Hev1 Hok1].
  assert (Hev0 : evolves hosts st st1).
  { eapply evolves_trans; [apply evolves_pass_time | exact Hev1]. }
  clear Hev1.
  apply returns_bind.
  apply returns_weaken with
    (P := fun futures st2 => evolves hosts st st2 /\ Forall P futures).
  { destruct (hosts !! (i + 1)%nat) as [second|] eqn:Hsecond.
    - apply returns_bind.
      eapply returns_weaken;
        [apply (attempt_connection_returns self second _ hosts);
         eapply list_elem_of_lookup_2; exact Hsecond|].
      intros r2 st2 [Hev2 Hok2]. apply returns_ret.
      split; [eapply evolves_trans; eassumption|].
      apply Forall_cons_2; [exact Hok1|].
      apply Forall_cons_2; [exact Hok2 | apply Forall_nil_2].
    - apply returns_ret. split; [exact Hev0|].
      apply Forall_cons_2; [exact Hok1 | apply Forall_nil_2]. }
  intros futures st2 [Hev2 Hall].
  apply returns_bind, returns_get.
  apply returns_bind, returns_modify.
  set (schedule := completion (runtime self) (draws st2)).
  set (handed_over := take (completed_in_time schedule)
                        (if second_first schedule then rev futures else futures)).
  assert (Hhanded : Forall P handed_over).
  { apply Forall_take. destruct (second_first schedule); [|exact Hall].
    apply Forall_forall. intros x Hx. rewrite Forall_forall in Hall.
    apply Hall. apply list_elem_of_In. apply in_rev. apply list_elem_of_In. exact Hx. }
  assert (Hset : forall s, evolves hosts st s ->
                           evolves hosts st (timeout_event_set s)).
  { intros s Hs. eapply evolves_trans; [exact Hs | apply evolves_event_set]. }
  assert (Hdrawn : evolves hosts st (draw 1 st2)).
  { eapply evolves_trans; [exact Hev2 | apply evolves_draw]. }
  destruct (find settles handed_over) as [winner|] eqn:Hfind.
  - apply returns_bind, returns_modify, returns_ret.
    split; [apply Hset, Hdrawn|]. split; [reflexivity|].
    apply find_some in Hfind as [Hin _].
    rewrite Forall_forall in Hhanded. apply Hhanded. apply list_elem_of_In. exact Hin.
  - apply returns_bind.
    destruct (completed_in_time schedule <? length futures)%nat.
    + apply returns_modify, returns_bind, returns_modify, returns_ret.
      split; [apply Hset, Hset, Hdrawn|]. split; [reflexivity|].
      intros _. apply failed_result_ok.
    + apply returns_ret, returns_bind, returns_modify, returns_ret.
      split; [apply Hset, Hdrawn|]. split; [reflexivity|].
      intros _. apply failed_result_ok.
Qed.

Lemma range_below (n : nat) : Forall (fun i => (i < n)%nat) (range 0 n 2).
Proof.
  unfold range. apply Forall_forall. intros i Hi.
  apply list_elem_of_fmap in Hi as (k & -> & Hk).
  apply list_elem_of_In, in_seq in Hk.
  replace (n - 0 + (2 - 1))%nat with (n + 1)%nat in Hk by lia.
  assert (2 * ((n + 1) / 2) <= n + 1)%nat by (apply Nat.Div0.mul_div_le).
  lia.
Qed.

Lemma range_nonempty (n : nat) : (0 < n)%nat -> range 0 n 2 <> [].
Proof.
  intros Hn. unfold range.
  replace (n - 0 + (2 - 1))%nat with (n + 1)%nat by lia.
  assert (1 <= (n + 1) / 2)%nat as Hq.
  { apply Nat.div_le_lower_bound; lia. }
  destruct ((n + 1) / 2)%nat; [lia | discriminate].
Qed.

(** The walk over the batches returns; once a batch was run the event is
    set. *)
Lemma host_group_loop_returns self hosts indices :
  Forall (fun i => (i < length hosts)%nat) indices ->
  forall st,
    returns (host_group_loop self hosts indices) st
      (fun result st' =>
         evolves hosts st st'
         /\ (indices <> [] -> _timeout_event st' = true)
         /\ (connects_non_null (_plugin_service self) -> result_ok result)).
Proof.
  induction indices as [|i indices IH]; intros Hidx st; simpl.
  - apply returns_ret. split; [apply evolves_refl|]. split; [congruence|].
    intros _. apply failed_result_ok.
  - inversion Hidx as [|? ? Hi Hrest]; subst.
    apply lookup_lt_is_Some_2 in Hi as [first Hfirst].
    apply returns_bind.
    eapply returns_weaken; [apply (batch_returns self hosts i first st Hfirst)|].
    intros result st1 (Hev1 & Hset1 & Hok1).
    destruct (settles result).
    + apply returns_ret. auto.
    + apply returns_bind.
      eapply returns_weaken; [apply (evolves_sleep hosts)|].
      intros [] st2 Hev2.
      eapply returns_weaken; [apply (IH Hrest)|].
      intros result' st3 (Hev3 & _ & Hok3).
      split; [eapply evolves_trans; [exact Hev1 | eapply evolves_trans; eassumption]|].
      split; [|exact Hok3].
      intros _. apply Hev3, Hev2, Hset1.
Qed.

Lemma get_connection_from_host_group_returns self hosts st :
  returns (_get_connection_from_host_group self hosts) st
    (fun result st' =>
       evolves hosts st st'
       /\ (hosts <> [] -> _timeout_event st' = true)
       /\ (connects_non_null (_plugin_service self) -> result_ok result)).
Proof.
  unfold _get_connection_from_host_group.
  eapply returns_weaken; [apply host_group_loop_returns, range_below|].
  intros result st' (Hev & Hset & Hok). split; [exact Hev|]. split; [|exact Hok].
  intros Hne. apply Hset, range_nonempty.
  destruct hosts; [congruence | simpl; lia].
Qed.

(** *** The order of the attempts *)

Lemma attempts_none st : attempts [] st st.
Proof. exists []. split; [symmetry; apply app_nil_r | reflexivity]. Qed.

Lemma attempts_then l1 l2 st1 st2 st3 :
  attempts l1 st1 st2 -> attempts l2 st2 st3 -> attempts (l1 ++ l2) st1 st3.
Proof.
  intros (c1 & Ht1 & Ha1) (c2 & Ht2 & Ha2). exists (c1 ++ c2). split.
  - rewrite Ht2, Ht1, app_assoc. reflexivity.
  - rewrite attempted_app, Ha1, Ha2. reflexivity.
Qed.

Lemma attempts_same_trace l st1 st2 st3 :
  attempts l st1 st2 -> handler_trace st3 = handler_trace st2 -> attempts l st1 st3.
Proof. intros (c & Ht & Ha) Heq. exists c. split; [congruence | exact Ha]. Qed.

Lemma pass_time_trace st : handler_trace (pass_time st) = handler_trace st.
Proof. unfold pass_time. destruct (outer_wait st) as [[|[|k]]|]; reflexivity. Qed.

Lemma attempt_connection_attempts self host st :
  returns (attempt_connection self host) st (fun _ st' => attempts [host] st st').
Proof.
  unfold attempt_connection, returns, attempts. run_monad. unfold draw, record. simpl.
  destruct (force_connect (_plugin_service self) (draws st) host (_properties self)
              (Some (_timeout_event st))) as [conn | ex]; simpl.
  - eexists _, _. split; [reflexivity|]. eexists. simpl.
    split; [rewrite <- app_assoc; reflexivity | reflexivity].
  - destruct (is_network_exception (_plugin_service self) ex); simpl;
      eexists _, _; (split; [reflexivity|]); eexists; simpl;
      (split; [rewrite <- app_assoc; reflexivity | reflexivity]).
Qed.

(** A batch calls [force_connect] on the host at its index and on the next
    one, in this order. *)
Lemma batch_attempts self hosts i first st :
  hosts !! i = Some first ->
  returns (_get_result_from_next_task_batch self hosts i) st
    (fun _ st' => attempts (take 2 (drop i hosts)) st st').
Proof.
  intros Hi. unfold _get_result_from_next_task_batch. rewrite Hi.
  rewrite (drop_S hosts first i Hi).
  apply returns_bind, returns_modify.
  apply returns_bind.
  eapply returns_weaken; [apply attempt_connection_attempts|].
  intros r1 st1 Hfirst.
  assert (Hfirst' : attempts [first] st st1).
  { destruct Hfirst as (c & Ht & Ha). exists c. rewrite Ht, pass_time_trace. auto. }
  clear Hfirst.
  apply returns_bind.
  apply returns_weaken with
    (P := fun (_ : list ReaderFailoverResult) st2 =>
            attempts (take 2 (first :: drop (S i) hosts)) st st2).
  { replace (i + 1)%nat with (S i) by lia.
    destruct (hosts !! S i) as [second|] eqn:Hsecond.
    - rewrite (drop_S hosts second (S i) Hsecond).
      apply returns_bind.
      eapply returns_weaken; [apply attempt_connection_attempts|].
      intros r2 st2 Hsnd. apply returns_ret.
      exact (attempts_then [first] [second] _ _ _ Hfirst' Hsnd).
    - apply returns_ret.
      rewrite drop_ge by (apply lookup_ge_None; exact Hsecond). exact Hfirst'. }
  intros futures st2 Hboth.
  apply returns_bind, returns_get.
  apply returns_bind, returns_modify.
  destruct (find settles _) as [winner|].
  - apply returns_bind, returns_modify, returns_ret.
    eapply attempts_same_trace; [exact Hboth | reflexivity].
  - apply returns_bind.
    destruct (_ <? _)%nat.
    + apply returns_modify, returns_bind, returns_modify, returns_ret.
      eapply attempts_same_trace; [exact Hboth | reflexivity].
    + apply returns_ret, returns_bind, returns_modify, returns_ret.
      eapply attempts_same_trace; [exact Hboth | reflexivity].
Qed.

Lemma range_from (m : nat) (f : nat -> nat) :
  map f (seq 0 (S m)) = f O :: map (fun k => f (S k)) (seq 0 m).
Proof. simpl. rewrite <- seq_shift, map_map. reflexivity. Qed.

(** The walk over the batches calls [force_connect] along the list, from
    the first index on, without leaving a host out. *)
Lemma host_group_loop_attempts self hosts m :
  forall first_index st,
    (forall k, (k < m)%nat -> (first_index + k * 2 < length hosts)%nat) ->
    returns (host_group_loop self hosts
               (map (fun k => (first_index + k * 2)%nat) (seq 0 m))) st
      (fun _ st' => exists j, attempts (take j (drop first_index hosts)) st st').
Proof.
  induction m as [|m IH]; intros i0 st Hidx.
  - apply returns_ret. exists O. rewrite take_0. apply attempts_none.
  - rewrite range_from. cbn [host_group_loop].
    assert (Hi0 : (i0 + 0 * 2 < length hosts)%nat) by (apply Hidx; lia).
    replace (i0 + 0 * 2)%nat with i0 in * by lia.
    apply lookup_lt_is_Some_2 in Hi0 as [first Hfirst].
    apply returns_bind.
    eapply returns_weaken; [apply (batch_attempts self hosts i0 first st Hfirst)|].
    intros result st1 Hbatch.
    destruct (settles result).
    + apply returns_ret. exists 2%nat. exact Hbatch.
    + apply returns_bind, returns_modify.
      assert (Hslept : attempts (take 2 (drop i0 hosts)) st
                         (pass_time (record [EvSleep 1] st1))).
      { destruct Hbatch as (c & Ht & Ha). exists (c ++ [EvSleep 1]). split.
        - rewrite pass_time_trace. simpl. rewrite Ht, app_assoc. reflexivity.
        - rewrite attempted_app, Ha. simpl. apply app_nil_r. }
      replace (map (fun k => (i0 + S k * 2)%nat) (seq 0 m))
        with (map (fun k => ((i0 + 2) + k * 2)%nat) (seq 0 m))
        by (apply map_ext; intros; lia).
      eapply returns_weaken.
      { apply (IH (i0 + 2)%nat). intros k Hk. specialize (Hidx (S k)). lia. }
      intros result' st2 (j & Hrest). exists (2 + j)%nat.
      rewrite <- take_take_drop, drop_drop.
      exact (attempts_then _ _ _ _ _ Hslept Hrest).
Qed.

Lemma get_connection_from_host_group_attempts self hosts st :
  returns (_get_connection_from_host_group self hosts) st
    (fun _ st' => exists j, attempts (take j hosts) st st').
Proof.
  unfold _get_connection_from_host_group, range.
  eapply returns_weaken.
  - apply (host_group_loop_attempts self hosts _ O st).
    intros k Hk.
    replace (length hosts - 0 + (2 - 1))%nat with (length hosts + 1)%nat in Hk by lia.
    assert (2 * ((length hosts + 1) / 2) <= length hosts + 1)%nat
      by (apply Nat.Div0.mul_div_le).
    lia.
  - intros result st' (j & Hj). exists j. exact Hj.
Qed.

Lemma failover_internal_attempts self hosts current_host st :
  returns (_failover_internal self hosts current_host) st
    (fun _ st' =>
       exists j,
         attempts (take j (get_hosts_by_priority (runtime self) (draws st) hosts
                             (_strict_reader_failover self))) st st').
Proof.
  unfold _failover_internal.
  apply returns_bind.
  apply returns_weaken with
    (P := fun _ st1 => attempts [] st st1 /\ draws st1 = draws st).
  { destruct current_host as [h|]; [apply returns_modify | apply returns_ret].
    - split; [|reflexivity]. eexists. split; reflexivity.
    - split; [apply attempts_none | reflexivity]. }
  intros [] st1 [Hmark Hdraws].
  apply returns_bind, returns_get, returns_bind, returns_modify.
  eapply returns_weaken; [apply get_connection_from_host_group_attempts|].
  intros result st' (j & Hj). exists j. rewrite <- Hdraws.
  apply (attempts_then [] _ _ _ _ Hmark).
  destruct Hj as (c & Ht & Ha). exists c. split; [exact Ht | exact Ha].
Qed.

(** *** The priority lists *)

Lemma is_reader_role h : is_reader h = true <-> role h <> WRITER.
Proof. unfold is_reader. destruct (role h); simpl; split; congruence. Qed.

Lemma not_reader_role h : is_reader h = false <-> role h = WRITER.
Proof. unfold is_reader. destruct (role h); simpl; split; congruence. Qed.

(** The loop sorts the readers by availability, in the order of the list,
    and remembers a writer of the list if there is one. *)
Lemma group_hosts_from hosts :
  forall acc,
    let groups := fold_left group_host hosts acc in
    active_readers groups
    = active_readers acc ++ List.filter (fun h => is_reader h && is_up h) hosts
    /\ down_hosts groups
       = down_hosts acc ++ List.filter (fun h => is_reader h && negb (is_up h)) hosts
    /\ (forall w, writer_host groups = Some w ->
                  (w ∈ hosts /\ role w = WRITER) \/ writer_host acc = Some w)
    /\ (writer_host groups = None ->
        writer_host acc = None /\ forall h, h ∈ hosts -> is_reader h = true).
Proof.
  induction hosts as [|h hosts IH]; intros acc; cbn zeta.
  - cbn [fold_left List.filter]. rewrite !app_nil_r. repeat split; auto.
    intros h Hh. inversion Hh.
  - cbn [fold_left List.filter].
    destruct (IH (group_host acc h)) as (Ha & Hd & Hw & Hn). clear IH.
    rewrite Ha, Hd. clear Ha Hd.
    set (groups := fold_left group_host hosts (group_host acc h)) in *.
    assert (Hrole : HostRole_eqb (role h) WRITER = negb (is_reader h))
      by (unfold is_reader; destruct (HostRole_eqb (role h) WRITER); reflexivity).
    unfold group_host in Hw, Hn |- *. rewrite Hrole in Hw, Hn |- *.
    change (HostAvailability_eqb (availability h) AVAILABLE) with (is_up h) in Hw, Hn |- *.
    clear Hrole.
    destruct (is_reader h) eqn:Hreader; cbn [negb andb] in *.
    + destruct (is_up h) eqn:Hup;
        cbn [negb active_readers down_hosts writer_host] in *;
        rewrite <- ?app_assoc;
        (split; [reflexivity|]); (split; [reflexivity|]); split.
      * intros w Hsome. destruct (Hw w Hsome) as [[Hin Hr] | Heq]; [left | right; exact Heq].
        split; [right; exact Hin | exact Hr].
      * intros Hnone. destruct (Hn Hnone) as [Hc Hall]. split; [exact Hc|].
        intros x Hx. apply elem_of_cons in Hx as [-> | Hx]; [exact Hreader | auto].
      * intros w Hsome. destruct (Hw w Hsome) as [[Hin Hr] | Heq]; [left | right; exact Heq].
        split; [right; exact Hin | exact Hr].
      * intros Hnone. destruct (Hn Hnone) as [Hc Hall]. split; [exact Hc|].
        intros x Hx. apply elem_of_cons in Hx as [-> | Hx]; [exact Hreader | auto].
    + cbn [active_readers down_hosts writer_host] in *.
      split; [reflexivity|]. split; [reflexivity|]. split.
      * intros w Hsome. left. destruct (Hw w Hsome) as [[Hin Hr] | Heq].
        -- split; [right; exact Hin | exact Hr].
        -- injection Heq as <-. split; [left|].
           apply not_reader_role. exact Hreader.
      * intros Hnone. destruct (Hn Hnone) as [Hc _]. discriminate Hc.
Qed.

Lemma group_hosts_groups hosts :
  active_readers (group_hosts hosts) = List.filter (fun h => is_reader h && is_up h) hosts
  /\ down_hosts (group_hosts hosts)
     = List.filter (fun h => is_reader h && negb (is_up h)) hosts
  /\ (forall w, writer_host (group_hosts hosts) = Some w -> w ∈ hosts /\ role w = WRITER)
  /\ (writer_host (group_hosts hosts) = None -> forall h, h ∈ hosts -> is_reader h = true).
Proof.
  destruct (group_hosts_from hosts (mkHostGroups [] [] None)) as (Ha & Hd & Hw & Hn).
  simpl in *. unfold group_hosts. split; [exact Ha|]. split; [exact Hd|]. split.
  - intros w Hsome. destruct (Hw w Hsome) as [H | H]; [exact H | discriminate H].
  - intros Hnone. apply Hn. exact Hnone.
Qed.

Lemma filter_member {A} (f : A -> bool) (l : list A) (x : A) :
  x ∈ List.filter f l <-> x ∈ l /\ f x = true.
Proof. rewrite !list_elem_of_In. apply filter_In. Qed.

(** The readers of a list are its available readers and its down readers. *)
Lemma readers_split (hosts : list HostInfo) :
  List.filter (fun h => is_reader h && is_up h) hosts
  ++ List.filter (fun h => is_reader h && negb (is_up h)) hosts
  ≡ₚ List.filter is_reader hosts.
Proof.
  induction hosts as [|h hosts IH]; simpl; [reflexivity|].
  destruct (is_reader h); simpl; [|exact IH].
  destruct (is_up h); simpl.
  - constructor. exact IH.
  - rewrite <- Permutation_middle. constructor. exact IH.
Qed.

Lemma no_readers_all_writers (hosts : list HostInfo) :
  List.filter (fun h => is_reader h && is_up h) hosts = [] ->
  List.filter (fun h => is_reader h && negb (is_up h)) hosts = [] ->
  forall h, h ∈ hosts -> role h = WRITER.
Proof.
  intros Ha Hd h Hin. apply not_reader_role.
  destruct (is_reader h) eqn:Hr; [|reflexivity]. exfalso.
  destruct (is_up h) eqn:Hu.
  - assert (h ∈ List.filter (fun h => is_reader h && is_up h) hosts) as Hx
        by (apply filter_member; rewrite Hr, Hu; auto).
    rewrite Ha in Hx. inversion Hx.
  - assert (h ∈ List.filter (fun h => is_reader h && negb (is_up h)) hosts) as Hx
        by (apply filter_member; rewrite Hr, Hu; auto).
    rewrite Hd in Hx. inversion Hx.
Qed.

Lemma shuffle_nil rt n l : shuffle_permutes rt -> (shuffle rt n l = [] <-> l = []).
Proof.
  intros Hp. split.
  - intros He. specialize (Hp n l). rewrite He in Hp.
    apply Permutation_nil in Hp. exact Hp.
  - intros ->. apply Permutation_nil. symmetry. apply Hp.
Qed.

Lemma shuffle_member rt n l x : shuffle_permutes rt -> x ∈ shuffle rt n l <-> x ∈ l.
Proof. intros Hp. rewrite (Hp n l). reflexivity. Qed.

(** C6.  With shuffles that permute, [get_hosts_by_priority] returns the
    available readers (in some order), then at most one host, a writer of
    the list, then the down readers (in some order).  The writer is there
    exactly when the list has a writer and either the mode is not
    strict-reader or the list has no reader at all, available or down.  So
    in both modes every available reader stands before the writer, and
    [_failover_internal] calls [force_connect] along this list from its
    head, without leaving a host out. *)
Theorem hosts_by_priority_order :
  forall (rt : Runtime) (n : nat) (hosts : list HostInfo) (readers_only : bool),
    shuffle_permutes rt ->
    exists active writer down : list HostInfo,
      get_hosts_by_priority rt n hosts readers_only = active ++ writer ++ down
      /\ active ≡ₚ List.filter (fun h => is_reader h && is_up h) hosts
      /\ down ≡ₚ List.filter (fun h => is_reader h && negb (is_up h)) hosts
      /\ (length writer <= 1)%nat
      /\ (forall w, w ∈ writer -> w ∈ hosts /\ role w = WRITER)
      /\ (writer <> [] <->
          (exists w, w ∈ hosts /\ role w = WRITER)
          /\ (readers_only = false \/ forall h, h ∈ hosts -> role h = WRITER))
      /\ (forall (i j : nat) (r w : HostInfo),
            get_hosts_by_priority rt n hosts readers_only !! i = Some r ->
            role r <> WRITER -> availability r = AVAILABLE ->
            get_hosts_by_priority rt n hosts readers_only !! j = Some w ->
            role w = WRITER ->
            (i < j)%nat)
      /\ (forall (self : Handler) (current_host : option HostInfo) (st : HandlerState),
            runtime self = rt -> _strict_reader_failover self = readers_only ->
            draws st = n ->
            exists (result : ReaderFailoverResult) (st' : HandlerState) (j : nat),
              _failover_internal self hosts current_host st = (Returned result, st')
              /\ attempts (take j (get_hosts_by_priority rt n hosts readers_only)) st st').
Proof.
  intros rt n hosts readers_only Hperm.
  destruct (group_hosts_groups hosts) as (Ha & Hd & Hw & Hn).
  set (A := List.filter (fun h => is_reader h && is_up h) hosts) in *.
  set (D := List.filter (fun h => is_reader h && negb (is_up h)) hosts) in *.
  set (writer :=
         match writer_host (group_hosts hosts) with
         | Some w =>
             if negb readers_only
                || (length (shuffle rt n A) + length (shuffle rt (S n) D) =? 0)%nat
             then [w] else []
         | None => []
         end).
  assert (Hout : get_hosts_by_priority rt n hosts readers_only
                 = shuffle rt n A ++ writer ++ shuffle rt (S n) D).
  { unfold get_hosts_by_priority, writer. rewrite Ha, Hd.
    destruct (writer_host (group_hosts hosts)) as [w|]; [|reflexivity].
    destruct (negb readers_only || _); [|reflexivity].
    rewrite <- app_assoc. reflexivity. }
  assert (Hwriters : forall w, w ∈ writer -> w ∈ hosts /\ role w = WRITER).
  { intros w Hin. unfold writer in Hin.
    destruct (writer_host (group_hosts hosts)) as [w'|] eqn:Hsome; [|inversion Hin].
    destruct (negb readers_only || _); [|inversion Hin].
    apply list_elem_of_singleton in Hin as ->. apply Hw. reflexivity. }
  assert (Hactive : forall r, r ∈ shuffle rt n A -> is_reader r = true /\ is_up r = true).
  { intros r Hr. apply (shuffle_member rt n A r Hperm) in Hr.
    apply filter_member in Hr as [_ Hr]. apply andb_prop in Hr. exact Hr. }
  assert (Hdown : forall r, r ∈ shuffle rt (S n) D -> is_reader r = true /\ is_up r = false).
  { intros r Hr. apply (shuffle_member rt (S n) D r Hperm) in Hr.
    apply filter_member in Hr as [_ Hr]. apply andb_prop in Hr as [H1 H2].
    apply negb_true_iff in H2. auto. }
  exists (shuffle rt n A), writer, (shuffle rt (S n) D).
  split; [exact Hout|]. split; [apply Hperm|]. split; [apply Hperm|].
  split; [|split; [exact Hwriters|split; [|split]]].
  - unfold writer. destruct (writer_host (group_hosts hosts)); [|simpl; lia].
    destruct (negb readers_only || _); simpl; lia.
  - unfold writer. split.
    + destruct (writer_host (group_hosts hosts)) as [w|] eqn:Hsome; [|congruence].
      destruct (negb readers_only || _) eqn:Hcond; [|congruence].
      intros _. split; [exists w; apply Hw; reflexivity|].
      apply orb_prop in Hcond as [Hmode | Hzero].
      * left. destruct readers_only; [discriminate | reflexivity].
      * right. apply Nat.eqb_eq in Hzero.
        apply no_readers_all_writers; fold A; fold D.
        -- apply (shuffle_nil rt n A Hperm). apply length_zero_iff_nil. lia.
        -- apply (shuffle_nil rt (S n) D Hperm). apply length_zero_iff_nil. lia.
    + intros [(w & Hin & Hrole) Hmode].
      destruct (writer_host (group_hosts hosts)) as [w'|] eqn:Hsome.
      * assert (negb readers_only
                || (length (shuffle rt n A) + length (shuffle rt (S n) D) =? 0)%nat
                = true) as ->; [|discriminate].
        destruct Hmode as [-> | Hall]; [reflexivity|].
        apply orb_true_intro. right. apply Nat.eqb_eq.
        assert (A = []) as ->.
        { destruct A as [|x A'] eqn:HA; [reflexivity | exfalso].
          assert (x ∈ A) as Hx by (rewrite HA; left).
          apply filter_member in Hx as [Hx1 Hx2]. apply andb_prop in Hx2 as [Hx2 _].
          apply is_reader_role in Hx2. apply Hx2, Hall, Hx1. }
        assert (D = []) as ->.
        { destruct D as [|x D'] eqn:HD; [reflexivity | exfalso].
          assert (x ∈ D) as Hx by (rewrite HD; left).
          apply filter_member in Hx as [Hx1 Hx2]. apply andb_prop in Hx2 as [Hx2 _].
          apply is_reader_role in Hx2. apply Hx2, Hall, Hx1. }
        rewrite (proj2 (shuffle_nil rt n [] Hperm) eq_refl).
        rewrite (proj2 (shuffle_nil rt (S n) [] Hperm) eq_refl). reflexivity.
      * exfalso. specialize (Hn eq_refl w Hin). apply is_reader_role in Hn. congruence.
  - intros i j r w Hi Hr Hup Hj Hrole. rewrite Hout in Hi, Hj.
    assert (Hri : (i < length (shuffle rt n A))%nat).
    { destruct (Nat.lt_ge_cases i (length (shuffle rt n A))) as [|Hge]; [assumption|].
      exfalso. rewrite lookup_app_r in Hi by exact Hge.
      apply list_elem_of_lookup_2, elem_of_app in Hi as [Hi | Hi].
      - apply Hwriters in Hi as [_ Hi]. congruence.
      - apply Hdown in Hi as [_ Hi]. unfold is_up in Hi. rewrite Hup in Hi. discriminate. }
    assert (Hwj : (length (shuffle rt n A) <= j)%nat).
    { destruct (Nat.lt_ge_cases j (length (shuffle rt n A))) as [Hlt|]; [|assumption].
      exfalso. rewrite lookup_app_l in Hj by exact Hlt.
      apply list_elem_of_lookup_2, Hactive in Hj as [Hj _].
      apply is_reader_role in Hj. congruence. }
    lia.
  - intros self current_host st <- <- <-.
    destruct (failover_internal_attempts self hosts current_host st)
      as (result & st' & Heq & j & Hj).
    exists result, st', j. split; [exact Heq | exact Hj].
Qed.

Lemma hosts_by_priority_order_witness :
  exists active writer down : list HostInfo,
    get_hosts_by_priority prompt_runtime 0 [writer1; reader1; reader2] true
    = active ++ writer ++ down.
Proof.
  destruct (hosts_by_priority_order prompt_runtime 0 [writer1; reader1; reader2] true)
    as (active & writer & down & Heq & _).
  - intros n l. symmetry. apply Permutation_rev.
  - exists active, writer, down. exact Heq.
Defined.

Lemma reader_hosts_by_priority_perm rt n hosts :
  shuffle_permutes rt ->
  get_reader_hosts_by_priority rt n hosts ≡ₚ List.filter is_reader hosts.
Proof.
  intros Hperm. unfold get_reader_hosts_by_priority.
  destruct (group_hosts_groups hosts) as (-> & -> & _).
  rewrite (Hperm n), (Hperm (S n)). apply readers_split.
Qed.

(** C10.  With shuffles that permute, [get_reader_hosts_by_priority]
    returns a permutation of the hosts of its argument that are not
    writers.  [get_reader_connection] always returns a result, it calls
    [force_connect] on hosts of the list that are not writers only, and for
    no list or an empty list it returns the not-connected result, which
    carries no exception, and calls nothing. *)
Theorem reader_connection_avoids_writers :
  forall self : Handler,
    shuffle_permutes (runtime self) ->
    (forall (n : nat) (hosts : list HostInfo),
        get_reader_hosts_by_priority (runtime self) n hosts
        ≡ₚ List.filter (fun h => negb (HostRole_eqb (role h) WRITER)) hosts)
    /\ (forall (hosts : option (list HostInfo)) (st : HandlerState),
          exists (result : ReaderFailoverResult) (st' : HandlerState) (calls : list Event),
            get_reader_connection self hosts st = (Returned result, st')
            /\ handler_trace st' = handler_trace st ++ calls
            /\ forall h, h ∈ attempted calls ->
                         role h <> WRITER /\ exists l, hosts = Some l /\ h ∈ l)
    /\ (forall st : HandlerState,
          get_reader_connection self None st = (Returned failed_reader_failover_result, st)
          /\ get_reader_connection self (Some []) st
             = (Returned failed_reader_failover_result, st))
    /\ exception failed_reader_failover_result = None
    /\ is_connected failed_reader_failover_result = false.
Proof.
  intros self Hperm. split; [|split; [|split; [|split]]]; try reflexivity.
  - intros n hosts. apply (reader_hosts_by_priority_perm _ n hosts Hperm).
  - intros [[|h0 hosts]|] st.
    + exists failed_reader_failover_result, st, []. split; [reflexivity|].
      split; [symmetry; apply app_nil_r|]. intros h Hh. inversion Hh.
    + set (l := h0 :: hosts).
      set (priority := get_reader_hosts_by_priority (runtime self) (draws st) l).
      assert (Hrun : returns (get_reader_connection self (Some l)) st
                       (fun _ st' => evolves priority st st')).
      { unfold get_reader_connection, l. fold l.
        apply returns_bind, returns_get, returns_bind, returns_modify.
        eapply returns_weaken; [apply get_connection_from_host_group_returns|].
        intros r st' (Hev & _). fold priority in Hev.
        eapply evolves_trans; [apply evolves_draw | exact Hev]. }
      destruct Hrun as (result & st' & Heq & _ & calls & Htr & Hatt).
      exists result, st', calls. split; [exact Heq|]. split; [exact Htr|].
      intros h Hh. apply Hatt in Hh. unfold priority in Hh.
      rewrite (reader_hosts_by_priority_perm _ _ _ Hperm) in Hh.
      apply filter_member in Hh as [Hin Hr]. split.
      * apply is_reader_role. exact Hr.
      * exists l. split; [reflexivity | exact Hin].
    + exists failed_reader_failover_result, st, []. split; [reflexivity|].
      split; [symmetry; apply app_nil_r|]. intros h Hh. inversion Hh.
  - intros st. split; reflexivity.
Qed.

Lemma reader_connection_avoids_writers_witness :
  get_reader_hosts_by_priority prompt_runtime 0 [writer1; reader1; reader2]
  ≡ₚ [reader1; reader2].
Proof.
  apply (proj1 (reader_connection_avoids_writers relaxed_handler
                  (fun n l => Permutation_sym (Permutation_rev l)))
           0%nat [writer1; reader1; reader2]).
Defined.

(** *** failover *)

(** A list with a host in it gives a priority list with a host in it. *)
Lemma hosts_by_priority_nonempty rt n hosts readers_only :
  shuffle_permutes rt -> hosts <> [] ->
  get_hosts_by_priority rt n hosts readers_only <> [].
Proof.
  intros Hperm Hne Hout.
  destruct (group_hosts_groups hosts) as (Ha & Hd & Hw & Hn).
  unfold get_hosts_by_priority in Hout. rewrite Ha, Hd in Hout.
  apply app_eq_nil in Hout as [Hfront Hdown].
  apply (proj1 (shuffle_nil rt (S n) _ Hperm)) in Hdown.
  assert (Hactive : List.filter (fun h => is_reader h && is_up h) hosts = []).
  { apply (proj1 (shuffle_nil rt n _ Hperm)).
    destruct (writer_host (group_hosts hosts)); [|exact Hfront].
    destruct (negb readers_only || _); [|exact Hfront].
    apply app_eq_nil in Hfront as [Hfront _]. exact Hfront. }
  pose proof (no_readers_all_writers hosts Hactive Hdown) as Hall.
  destruct hosts as [|h hosts]; [congruence|].
  destruct (writer_host (group_hosts (h :: hosts))) as [w|] eqn:Hsome.
  - rewrite Hactive, Hdown in Hfront.
    rewrite (proj2 (shuffle_nil rt n [] Hperm) eq_refl) in Hfront.
    rewrite (proj2 (shuffle_nil rt (S n) [] Hperm) eq_refl) in Hfront.
    simpl in Hfront. rewrite orb_true_r in Hfront. discriminate.
  - specialize (Hn eq_refl h ltac:(left)). apply is_reader_role in Hn.
    apply Hn, Hall. left.
Qed.

Lemma pass_time_event st :
  _timeout_event st = true -> _timeout_event (pass_time st) = true.
Proof. apply (evolves_pass_time []). Qed.

Lemma failover_internal_returns self hosts current_host st :
  returns (_failover_internal self hosts current_host) st
    (fun result st' =>
       (_timeout_event st = true -> _timeout_event st' = true)
       /\ (shuffle_permutes (runtime self) -> hosts <> [] -> _timeout_event st' = true)
       /\ (connects_non_null (_plugin_service self) -> result_ok result)).
Proof.
  unfold _failover_internal.
  apply returns_bind.
  apply returns_weaken with (P := fun _ st1 => _timeout_event st1 = _timeout_event st).
  { destruct current_host; [apply returns_modify | apply returns_ret]; reflexivity. }
  intros [] st1 He1.
  apply returns_bind, returns_get, returns_bind, returns_modify.
  eapply returns_weaken; [apply get_connection_from_host_group_returns|].
  intros result st' ([Hmono _] & Hset & Hok). simpl in Hmono.
  split; [intros He; apply Hmono; congruence|]. split; [|exact Hok].
  intros Hperm Hne. apply Hset. apply hosts_by_priority_nonempty; assumption.
Qed.

(** A turn of the loop: what it returns keeps the invariant, and when the
    loop is to go on after a turn on a topology with a host in it, the event
    is set. *)
Lemma failover_turn_cases self topology current_host st out st' :
  failover_turn self topology current_host st = (out, st') ->
  (_timeout_event st = true -> _timeout_event st' = true)
  /\ match out with
     | Returned (inl result) =>
         connects_non_null (_plugin_service self) -> result_ok result
     | Returned (inr _) =>
         shuffle_permutes (runtime self) -> topology <> [] -> _timeout_event st' = true
     | Raised _ => True
     end.
Proof.
  destruct (failover_internal_returns self topology current_host st)
    as (result & st1 & Hrun & Hmono & Hset & Hok).
  unfold failover_turn. unfold mbind at 1, M_bind at 1. rewrite Hrun.
  destruct (is_connected result) eqn:Hconn.
  - destruct (negb (_strict_reader_failover self)).
    + intros H. injection H as <- <-. split; [exact Hmono | exact Hok].
    + run_monad. unfold sleep, modify. simpl.
      destruct (force_refresh_host_list (_plugin_service self) (draws st1)
                  (connection result)) as [refreshed | err]; simpl.
      * destruct (match new_host result with
                  | Some new => existsb _ refreshed
                  | None => false
                  end); simpl.
        -- intros H. injection H as <- <-. split; [exact Hmono | exact Hok].
        -- destruct (connection result) as [c|]; simpl.
           ++ destruct (close (_plugin_service self) c); simpl;
                intros H; injection H as <- <-.
              ** split; intros; apply pass_time_event; simpl; auto.
              ** split; [exact Hmono | exact I].
           ++ intros H; injection H as <- <-.
              split; intros; apply pass_time_event; simpl; auto.
      * intros H; injection H as <- <-. split; [exact Hmono | exact I].
  - run_monad. unfold sleep, modify. simpl.
    intros H; injection H as <- <-.
    split; intros; apply pass_time_event; simpl; auto.
Qed.

Section FailoverLoop.

Variable self : Handler.
Variable current_host : option HostInfo.

Hypothesis Hnn : connects_non_null (_plugin_service self).
Hypothesis Hperm : shuffle_permutes (runtime self).

(** Whatever the loop returns keeps the invariant. *)
Lemma failover_loop_result fuel :
  forall topology st result st',
    failover_loop fuel self topology current_host st = Some (Returned result, st') ->
    result_ok result.
Proof.
  induction fuel as [|fuel IH]; intros topology st result st'; simpl.
  - destruct (_timeout_event st); [|discriminate].
    intros H. injection H as <- _. apply failed_result_ok.
  - destruct (_timeout_event st).
    { intros H. injection H as <- _. apply failed_result_ok. }
    destruct (failover_turn self topology current_host st)
      as [[[r | topology'] | err] st1] eqn:Hrun;
      apply failover_turn_cases in Hrun as [_ Hturn].
    + intros H. injection H as <- _. apply Hturn, Hnn.
    + apply IH.
    + discriminate.
Qed.

(** One turn is enough on a topology with a host in it: the batch of the
    first turn sets the event. *)
Lemma failover_loop_ends fuel topology st :
  topology <> [] ->
  exists out st', failover_loop (S fuel) self topology current_host st = Some (out, st').
Proof.
  intros Hne. simpl.
  destruct (_timeout_event st); [eauto|].
  destruct (failover_turn self topology current_host st)
    as [[[r | topology'] | err] st1] eqn:Hrun;
    apply failover_turn_cases in Hrun as [_ Hturn]; [eauto | | eauto].
  specialize (Hturn Hperm Hne).
  destruct fuel; simpl; rewrite Hturn; eauto.
Qed.

End FailoverLoop.

(** C8.  Let [force_connect] never return [None] for a connection.  Then
    every result of [attempt_connection], of [get_reader_connection] and of
    [failover] satisfies: [is_connected] implies that the connection is not
    [None] and the new host is not [None].  The first two always return a
    result; [failover] returns one as soon as its loop is given one turn,
    provided the shuffles permute. *)
Theorem reader_failover_results_ok :
  forall self : Handler,
    connects_non_null (_plugin_service self) ->
    (forall (h : HostInfo) (st : HandlerState),
        exists result st',
          attempt_connection self h st = (Returned result, st')
          /\ (is_connected result = true ->
              connection result <> None /\ new_host result <> None))
    /\ (forall (hosts : option (list HostInfo)) (st : HandlerState),
          exists result st',
            get_reader_connection self hosts st = (Returned result, st')
            /\ (is_connected result = true ->
                connection result <> None /\ new_host result <> None))
    /\ (forall (fuel : nat) (max_wait : option nat) (topology : option (list HostInfo))
               (current_host : option HostInfo) (st : HandlerState)
               (result : ReaderFailoverResult) (st' : HandlerState),
          failover fuel self max_wait topology current_host st = Some (result, st') ->
          is_connected result = true ->
          connection result <> None /\ new_host result <> None)
    /\ (shuffle_permutes (runtime self) ->
        forall (fuel : nat) (max_wait : option nat) (topology : option (list HostInfo))
               (current_host : option HostInfo) (st : HandlerState),
        exists result st',
          failover (S fuel) self max_wait topology current_host st = Some (result, st')).
Proof.
  intros self Hnn. split; [|split; [|split]].
  - intros h st.
    destruct (attempt_connection_returns self h st [h] ltac:(left))
      as (result & st' & Heq & _ & Hok).
    exists result, st'. split; [exact Heq | exact (Hok Hnn)].
  - intros [[|h0 hosts]|] st;
      try (exists failed_reader_failover_result, st;
           split; [reflexivity | apply failed_result_ok]).
    assert (Hrun : returns (get_reader_connection self (Some (h0 :: hosts))) st
                     (fun result _ => result_ok result)).
    { unfold get_reader_connection.
      apply returns_bind, returns_get, returns_bind, returns_modify.
      eapply returns_weaken; [apply get_connection_from_host_group_returns|].
      intros r st' (_ & _ & Hok). exact (Hok Hnn). }
    exact Hrun.
  - intros fuel max_wait [[|h0 topology]|] current_host st result st';
      try (intros H; injection H as <- _; apply failed_result_ok).
    unfold failover, _internal_failover_task.
    destruct (failover_loop fuel self (h0 :: topology) current_host _)
      as [[[r | err] st1]|] eqn:Hloop; [| |discriminate].
    + apply (failover_loop_result self current_host Hnn) in Hloop.
      destruct (outer_wait st1) as [[|k]|]; intros H; injection H as <- _;
        try exact Hloop; apply failed_result_ok.
    + destruct (outer_wait st1) as [[|k]|]; intros H; injection H as <- _;
        try apply failed_result_ok; intros Hc; discriminate Hc.
  - intros Hperm fuel max_wait [[|h0 topology]|] current_host st;
      try (exists failed_reader_failover_result, st; reflexivity).
    unfold failover, _internal_failover_task.
    set (st0 := match max_wait with
                | Some O => timeout_event_set (set_outer_wait (Some O) st)
                | _ => set_outer_wait max_wait st
                end).
    destruct (failover_loop_ends self current_host Hperm fuel (h0 :: topology) st0
                ltac:(discriminate)) as (out & st' & Hloop).
    rewrite Hloop.
    destruct out as [result | err]; destruct (outer_wait st') as [[|k]|]; eauto.
Qed.

Lemma reader_failover_results_ok_witness :
  exists result st',
    attempt_connection strict_handler reader1 idle_handler = (Returned result, st')
    /\ (is_connected result = true ->
        connection result <> None /\ new_host result <> None).
Proof.
  refine (proj1 (reader_failover_results_ok strict_handler _) reader1 idle_handler).
  intros n h props cancel. simpl. destruct (url h =? "r-1")%string; discriminate.
Defined.

(** C3.  The code sets the cancellation event at the end of every batch,
    not only when a deadline has passed.  With a run-time in which every
    attempt ends before the deadline, and a caller of [failover] whose wait
    never runs out: the batch on [reader1; reader2] returns the connection
    to [reader1] and leaves the event set; and the strict-reader [failover]
    on [writer1; reader1; reader2], where the refreshed topology shows
    [reader1] as a writer, closes that connection and gives up after this
    single turn with the not-connected result, the event being set. *)
Theorem event_set_without_timeout :
  (forall n, completed_in_time (completion prompt_runtime n) = 2%nat)
  /\ _timeout_event idle_handler = false
  /\ (exists st',
        _get_result_from_next_task_batch strict_handler [reader1; reader2] 0 idle_handler
        = (Returned (mkReaderFailoverResult (Some 11%nat) true (Some reader1) None), st')
        /\ _timeout_event st' = true)
  /\ (exists st',
        failover 5 strict_handler None (Some [writer1; reader1; reader2]) None idle_handler
        = Some (failed_reader_failover_result, st')
        /\ attempted (handler_trace st') = [reader1; reader2]
        /\ _timeout_event st' = true).
Proof.
  split; [reflexivity|]. split; [reflexivity|]. split.
  - eexists. split; [vm_compute; reflexivity | reflexivity].
  - eexists. split; [vm_compute; reflexivity | split; reflexivity].
Qed.

(** The fifth scenario of the specification: not strict, a writer and two
    readers that are down.  The writer heads the list; here it is the one
    that refuses, so both batches are tried ([prompt_runtime] reverses where
    it shuffles) and the not-connected result comes back. *)
Example writer_first_when_readers_down :
  let down1 := mkHostInfo "r-3" "r-3.example.com" READER NOT_AVAILABLE {["r-3"]} in
  get_hosts_by_priority prompt_runtime 0 [writer1; down1; reader2] false
  = [writer1; reader2; down1]
  /\ exists st',
      failover 1 relaxed_handler None (Some [writer1; down1; reader2]) None idle_handler
      = Some (failed_reader_failover_result, st')
      /\ attempted (handler_trace st') = [writer1; reader2; down1].
Proof.
  split; [vm_compute; reflexivity|].
  eexists. split; [vm_compute; reflexivity | reflexivity].
Qed.

(** ** ReaderFailoverHandlerImpl: further properties *)

Lemma walked_none st : walked [] st st.
Proof. exists []. rewrite app_nil_r. repeat split. Qed.

Lemma walked_then l1 l2 st1 st2 st3 :
  walked l1 st1 st2 -> walked l2 st2 st3 -> walked (l1 ++ l2) st1 st3.
Proof.
  intros (c1 & Ht1 & Ha1 & Hm1 & Hc1 & Hr1) (c2 & Ht2 & Ha2 & Hm2 & Hc2 & Hr2).
  exists (c1 ++ c2). unfold attempted, marked, closed, refreshed_over in *.
  rewrite !omap_app, fmap_app, Ht2, Ht1, app_assoc.
  rewrite Ha1, Ha2, Hm1, Hm2, Hc1, Hc2, Hr1, Hr2. repeat split.
Qed.

Lemma walked_same_trace l st1 st2 st3 :
  walked l st1 st2 -> handler_trace st3 = handler_trace st2 -> walked l st1 st3.
Proof. intros (c & Ht & H) Heq. exists c. split; [congruence | exact H]. Qed.

Lemma attempt_connection_walked self host st :
  returns (attempt_connection self host) st (fun _ st' => walked [host] st st').
Proof.
  unfold attempt_connection, returns, walked. run_monad. unfold draw, record. simpl.
  destruct (force_connect (_plugin_service self) (draws st) host (_properties self)
              (Some (_timeout_event st))) as [conn | ex]; simpl.
  - eexists _, _. split; [reflexivity|]. eexists. simpl.
    split; [rewrite <- app_assoc; reflexivity | repeat split].
  - destruct (is_network_exception (_plugin_service self) ex); simpl;
      eexists _, _; (split; [reflexivity|]); eexists; simpl;
      (split; [rewrite <- app_assoc; reflexivity | repeat split]).
Qed.

Lemma batch_walked self hosts i first st :
  hosts !! i = Some first ->
  returns (_get_result_from_next_task_batch self hosts i) st
    (fun _ st' => walked (take 2 (drop i hosts)) st st').
Proof.
  intros Hi. unfold _get_result_from_next_task_batch. rewrite Hi.
  rewrite (drop_S hosts first i Hi).
  apply returns_bind, returns_modify.
  apply returns_bind.
  eapply returns_weaken; [apply attempt_connection_walked|].
  intros r1 st1 Hfirst.
  assert (Hfirst' : walked [first] st st1).
  { destruct Hfirst as (c & Ht & H). exists c. rewrite Ht, pass_time_trace. auto. }
  clear Hfirst.
  apply returns_bind.
  apply returns_weaken with
    (P := fun (_ : list ReaderFailoverResult) st2 =>
            walked (take 2 (first :: drop (S i) hosts)) st st2).
  { replace (i + 1)%nat with (S i) by lia.
    destruct (hosts !! S i) as [second|] eqn:Hsecond.
    - rewrite (drop_S hosts second (S i) Hsecond).
      apply returns_bind.
      eapply returns_weaken; [apply attempt_connection_walked|].
      intros r2 st2 Hsnd. apply returns_ret.
      exact (walked_then [first] [second] _ _ _ Hfirst' Hsnd).
    - apply returns_ret.
      rewrite drop_ge by (apply lookup_ge_None; exact Hsecond). exact Hfirst'. }
  intros futures st2 Hboth.
  apply returns_bind, returns_get.
  apply returns_bind, returns_modify.
  destruct (find settles _) as [winner|].
  - apply returns_bind, returns_modify, returns_ret.
    eapply walked_same_trace; [exact Hboth | reflexivity].
  - apply returns_bind.
    destruct (_ <? _)%nat.
    + apply returns_modify, returns_bind, returns_modify, returns_ret.
      eapply walked_same_trace; [exact Hboth | reflexivity].
    + apply returns_ret, returns_bind, returns_modify, returns_ret.
      eapply walked_same_trace; [exact Hboth | reflexivity].
Qed.

(** The walk goes on to the end of the list unless a batch settles. *)
Lemma host_group_loop_walked self hosts m :
  forall first_index st,
    (forall k, (k < m)%nat -> (first_index + k * 2 < length hosts)%nat) ->
    (length hosts <= first_index + m * 2)%nat ->
    returns (host_group_loop self hosts
               (map (fun k => (first_index + k * 2)%nat) (seq 0 m))) st
      (fun result st' =>
         exists j, walked (take j (drop first_index hosts)) st st'
                   /\ (settles result = false ->
                       result = failed_reader_failover_result
                       /\ take j (drop first_index hosts) = drop first_index hosts)).
Proof.
  induction m as [|m IH]; intros i0 st Hidx Hend.
  - apply returns_ret. exists O. rewrite take_0. split; [apply walked_none|].
    intros _. split; [reflexivity|]. symmetry. apply drop_ge. lia.
  - rewrite range_from. cbn [host_group_loop].
    assert (Hi0 : (i0 + 0 * 2 < length hosts)%nat) by (apply Hidx; lia).
    replace (i0 + 0 * 2)%nat with i0 in * by lia.
    apply lookup_lt_is_Some_2 in Hi0 as [first Hfirst].
    apply returns_bind.
    eapply returns_weaken; [apply (batch_walked self hosts i0 first st Hfirst)|].
    intros result st1 Hbatch.
    destruct (settles result) eqn:Hsettles.
    + apply returns_ret. exists 2%nat. split; [exact Hbatch | congruence].
    + apply returns_bind, returns_modify.
      assert (Hslept : walked (take 2 (drop i0 hosts)) st
                         (pass_time (record [EvSleep 1] st1))).
      { destruct Hbatch as (c & Ht & Ha & Hm & Hc & Hr). exists (c ++ [EvSleep 1]).
        unfold attempted, marked, closed, refreshed_over in *.
        rewrite !omap_app, Ha, Hm, Hc, Hr, pass_time_trace. simpl.
        rewrite Ht, app_assoc, !app_nil_r. repeat split. }
      replace (map (fun k => (i0 + S k * 2)%nat) (seq 0 m))
        with (map (fun k => ((i0 + 2) + k * 2)%nat) (seq 0 m))
        by (apply map_ext; intros; lia).
      eapply returns_weaken.
      { apply (IH (i0 + 2)%nat); [|lia]. intros k Hk. specialize (Hidx (S k)). lia. }
      intros result' st2 (j & Hrest & Hall). exists (2 + j)%nat.
      rewrite <- take_take_drop, drop_drop.
      split; [exact (walked_then _ _ _ _ _ Hslept Hrest)|].
      intros Hno. destruct (Hall Hno) as [-> Hfull]. split; [reflexivity|].
      rewrite Hfull. rewrite <- (drop_drop hosts 2 i0). apply take_drop.
Qed.

Lemma get_connection_from_host_group_walked self hosts st :
  returns (_get_connection_from_host_group self hosts) st
    (fun result st' =>
       exists j, walked (take j hosts) st st'
                 /\ (settles result = false ->
                     result = failed_reader_failover_result /\ take j hosts = hosts)).
Proof.
  unfold _get_connection_from_host_group, range.
  replace (length hosts - 0 + (2 - 1))%nat with (length hosts + 1)%nat by lia.
  pose proof (Nat.Div0.mul_div_le (length hosts + 1) 2) as Hle.
  pose proof (Nat.div_mod_eq (length hosts + 1) 2) as Hdm.
  pose proof (Nat.mod_upper_bound (length hosts + 1) 2 ltac:(lia)) as Hmod.
  eapply returns_weaken.
  - apply (host_group_loop_walked self hosts _ O st).
    + intros k Hk. lia.
    + lia.
  - intros result st' (j & Hj & Hall). exists j. split; [exact Hj | exact Hall].
Qed.

(** [get_reader_connection] gives up only at the end of the list.  With
    shuffles that permute: when the result is not connected and carries no
    exception, [force_connect] was called on every host of the list that is
    not a writer, once for each of its occurrences. *)
Theorem reader_connection_tries_every_reader :
  forall (self : Handler) (hosts : list HostInfo) (st : HandlerState),
    shuffle_permutes (runtime self) ->
    exists (result : ReaderFailoverResult) (st' : HandlerState) (calls : list Event),
      get_reader_connection self (Some hosts) st = (Returned result, st')
      /\ handler_trace st' = handler_trace st ++ calls
      /\ (is_connected result = false -> exception result = None ->
          attempted calls ≡ₚ List.filter is_reader hosts).
Proof.
  intros self [|h0 hosts] st Hperm.
  - exists failed_reader_failover_result, st, [].
    split; [reflexivity|]. split; [symmetry; apply app_nil_r|]. reflexivity.
  - set (l := h0 :: hosts).
    set (priority := get_reader_hosts_by_priority (runtime self) (draws st) l).
    assert (Hrun : returns (get_reader_connection self (Some l)) st
                     (fun result st' =>
                        exists j, walked (take j priority) st st'
                                  /\ (settles result = false -> take j priority = priority))).
    { unfold get_reader_connection, l. fold l.
      apply returns_bind, returns_get, returns_bind, returns_modify.
      eapply returns_weaken; [apply get_connection_from_host_group_walked|].
      intros r st' (j & Hw & Hall). fold priority in Hw, Hall. exists j. split.
      - destruct Hw as (c & Ht & H). exists c. split; [exact Ht | exact H].
      - intros Hno. apply Hall, Hno. }
    destruct Hrun as (result & st' & Heq & j & (calls & Htr & Hatt & _) & Hall).
    exists result, st', calls. split; [exact Heq|]. split; [exact Htr|].
    intros Hconn Hexc. rewrite Hatt, Hall.
    + apply reader_hosts_by_priority_perm, Hperm.
    + unfold settles. rewrite Hconn, Hexc. reflexivity.
Qed.

Lemma reader_connection_tries_every_reader_witness :
  exists (result : ReaderFailoverResult) (st' : HandlerState) (calls : list Event),
    get_reader_connection relaxed_handler (Some [writer1; reader2]) idle_handler
    = (Returned result, st')
    /\ handler_trace st' = handler_trace idle_handler ++ calls.
Proof.
  destruct (reader_connection_tries_every_reader relaxed_handler [writer1; reader2]
              idle_handler) as (result & st' & calls & Heq & Htr & _).
  - intros n l. symmetry. apply Permutation_rev.
  - exists result, st', calls. split; [exact Heq | exact Htr].
Defined.

(** [get_reader_connection] marks the aliases of each host it attempts,
    once for each attempt, and of no other host; it closes no connection
    (not even the one of an attempt whose result it drops) and never
    refreshes the host list.  The two attempts of a batch run side by side,
    so the marks are counted, and nothing is said of their order. *)
Theorem reader_connection_bookkeeping :
  forall (self : Handler) (hosts : option (list HostInfo)) (st : HandlerState),
    exists (result : ReaderFailoverResult) (st' : HandlerState) (calls : list Event),
      get_reader_connection self hosts st = (Returned result, st')
      /\ handler_trace st' = handler_trace st ++ calls
      /\ marked calls ≡ₚ all_aliases <$> attempted calls
      /\ closed calls = []
      /\ refreshed_over calls = [].
Proof.
  intros self [[|h0 hosts]|] st;
    try (exists failed_reader_failover_result, st, [];
         split; [reflexivity|]; split; [symmetry; apply app_nil_r|];
         split; [reflexivity|]; split; reflexivity).
  assert (Hrun : returns (get_reader_connection self (Some (h0 :: hosts))) st
                   (fun _ st' => exists l, walked l st st')).
  { unfold get_reader_connection.
    apply returns_bind, returns_get, returns_bind, returns_modify.
    eapply returns_weaken; [apply get_connection_from_host_group_walked|].
    intros r st' (j & Hw & _). eexists.
    destruct Hw as (c & Ht & H). exists c. split; [exact Ht | exact H]. }
  destruct Hrun as (result & st' & Heq & l & calls & Htr & Hatt & Hm & Hc & Hr).
  exists result, st', calls. rewrite Hatt, Hm. auto.
Qed.

(** *** The loop of [failover] *)

Lemma failover_internal_quiet self hosts current_host st :
  returns (_failover_internal self hosts current_host) st
    (fun _ st' => quiet st st').
Proof.
  unfold _failover_internal.
  apply returns_bind.
  apply returns_weaken with (P := fun _ st1 => quiet st st1).
  { destruct current_host as [h|]; [apply returns_modify | apply returns_ret].
    - eexists. split; [reflexivity|]. split; reflexivity.
    - exists []. rewrite app_nil_r. repeat split. }
  intros [] st1 (c1 & Ht1 & Hc1 & Hr1).
  apply returns_bind, returns_get, returns_bind, returns_modify.
  eapply returns_weaken; [apply get_connection_from_host_group_walked|].
  intros result st' (j & (c2 & Ht2 & _ & _ & Hc2 & Hr2) & _).
  exists (c1 ++ c2). unfold closed, refreshed_over in *.
  rewrite !omap_app, Hc1, Hc2, Hr1, Hr2. simpl in Ht2.
  rewrite Ht2, Ht1, app_assoc. repeat split.
Qed.

(** Every way out of a turn on a topology with a host in it leaves the
    event set. *)
Lemma failover_turn_sets_event self topology current_host st out st' :
  shuffle_permutes (runtime self) -> topology <> [] ->
  failover_turn self topology current_host st = (out, st') ->
  _timeout_event st' = true.
Proof.
  intros Hperm Hne.
  destruct (failover_internal_returns self topology current_host st)
    as (result & st1 & Hrun & _ & Hset & _).
  specialize (Hset Hperm Hne).
  unfold failover_turn. unfold mbind at 1, M_bind at 1. rewrite Hrun.
  destruct (is_connected result).
  - destruct (negb (_strict_reader_failover self)).
    + intros H. injection H as <- <-. exact Hset.
    + run_monad. unfold sleep, modify. simpl.
      destruct (force_refresh_host_list (_plugin_service self) (draws st1)
                  (connection result)) as [refreshed | err]; simpl.
      * destruct (match new_host result with
                  | Some new => existsb _ refreshed
                  | None => false
                  end); simpl.
        -- intros H. injection H as <- <-. exact Hset.
        -- destruct (connection result) as [c|]; simpl.
           ++ destruct (close (_plugin_service self) c); simpl;
                intros H; injection H as <- <-;
                [apply pass_time_event|]; exact Hset.
           ++ intros H; injection H as <- <-. apply pass_time_event. exact Hset.
      * intros H; injection H as <- <-. exact Hset.
  - run_monad. unfold sleep, modify. simpl.
    intros H; injection H as <- <-. apply pass_time_event. exact Hset.
Qed.

(** What a strict-reader turn returns was confirmed as a reader; a turn
    that is not strict neither closes nor refreshes. *)
Lemma failover_turn_returned self topology current_host st result st' :
  failover_turn self topology current_host st = (Returned (inl result), st') ->
  is_connected result = true
  /\ (_strict_reader_failover self = true ->
      confirmed_reader (_plugin_service self) result).
Proof.
  destruct (failover_internal_returns self topology current_host st)
    as (r & st1 & Hrun & _).
  unfold failover_turn. unfold mbind at 1, M_bind at 1. rewrite Hrun.
  destruct (is_connected r) eqn:Hconn.
  - destruct (_strict_reader_failover self); simpl negb; cbv iota.
    + run_monad. unfold sleep, modify. simpl.
      destruct (force_refresh_host_list (_plugin_service self) (draws st1)
                  (connection r)) as [refreshed | err] eqn:Hrefresh; simpl;
        [|discriminate].
      destruct (new_host r) as [new|] eqn:Hnew.
      * destruct (existsb _ refreshed) eqn:Hfound; simpl.
        -- intros H. injection H as <- _. split; [exact Hconn|]. intros _.
           apply existsb_exists in Hfound as (node & Hin & Hnode).
           apply andb_prop in Hnode as [Hurl Hrole].
           exists new, (draws st1), refreshed, node.
           split; [exact Hnew|]. split; [exact Hrefresh|].
           split; [apply list_elem_of_In; exact Hin|].
           split; [apply String.eqb_eq; exact Hurl|].
           destruct (role node); [discriminate | reflexivity].
        -- destruct (connection r) as [c|]; simpl;
             [destruct (close (_plugin_service self) c)|]; discriminate.
      * simpl. destruct (connection r) as [c|]; simpl;
          [destruct (close (_plugin_service self) c)|]; discriminate.
    + intros H. injection H as <- _. split; [exact Hconn | discriminate].
  - run_monad. unfold sleep, modify. simpl. discriminate.
Qed.

Lemma failover_turn_quiet self topology current_host st out st' :
  _strict_reader_failover self = false ->
  failover_turn self topology current_host st = (out, st') ->
  quiet st st'.
Proof.
  intros Hmode.
  destruct (failover_internal_quiet self topology current_host st)
    as (r & st1 & Hrun & c & Ht & Hc & Hr).
  unfold failover_turn. unfold mbind at 1, M_bind at 1. rewrite Hrun, Hmode.
  simpl negb. cbv iota.
  destruct (is_connected r).
  - intros H. injection H as <- <-. exists c. auto.
  - run_monad. unfold sleep, modify. simpl.
    intros H. injection H as <- <-.
    exists (c ++ [EvSleep 1]). unfold closed, refreshed_over in *.
    rewrite !omap_app, Hc, Hr, pass_time_trace. simpl.
    rewrite Ht, app_assoc. repeat split.
Qed.

Lemma quiet_refl st : quiet st st.
Proof. exists []. rewrite app_nil_r. repeat split. Qed.

Lemma quiet_trans st1 st2 st3 : quiet st1 st2 -> quiet st2 st3 -> quiet st1 st3.
Proof.
  intros (c1 & Ht1 & Hc1 & Hr1) (c2 & Ht2 & Hc2 & Hr2).
  exists (c1 ++ c2). unfold closed, refreshed_over in *.
  rewrite !omap_app, Hc1, Hc2, Hr1, Hr2, Ht2, Ht1, app_assoc. repeat split.
Qed.

Section FailoverLoopMore.

Variable self : Handler.
Variable current_host : option HostInfo.

Lemma failover_loop_confirmed fuel :
  forall topology st result st',
    _strict_reader_failover self = true ->
    failover_loop fuel self topology current_host st = Some (Returned result, st') ->
    is_connected result = true ->
    confirmed_reader (_plugin_service self) result.
Proof.
  induction fuel as [|fuel IH]; intros topology st result st' Hmode; simpl.
  - destruct (_timeout_event st); [|discriminate].
    intros H. injection H as <- _. discriminate.
  - destruct (_timeout_event st).
    { intros H. injection H as <- _. discriminate. }
    destruct (failover_turn self topology current_host st)
      as [[[r | topology'] | err] st1] eqn:Hturn.
    + intros H _. injection H as <- _.
      apply failover_turn_returned in Hturn as [_ Hok]. apply Hok, Hmode.
    + apply IH, Hmode.
    + discriminate.
Qed.

Lemma failover_loop_quiet fuel :
  forall topology st out st',
    _strict_reader_failover self = false ->
    failover_loop fuel self topology current_host st = Some (out, st') ->
    quiet st st'.
Proof.
  induction fuel as [|fuel IH]; intros topology st out st' Hmode; simpl.
  - destruct (_timeout_event st); [|discriminate].
    intros H. injection H as _ <-. apply quiet_refl.
  - destruct (_timeout_event st).
    { intros H. injection H as _ <-. apply quiet_refl. }
    destruct (failover_turn self topology current_host st)
      as [[[r | topology'] | err] st1] eqn:Hturn;
      apply (failover_turn_quiet _ _ _ _ _ _ Hmode) in Hturn.
    + intros H. injection H as _ <-. exact Hturn.
    + intros H. eapply quiet_trans; [exact Hturn | eapply IH; eassumption].
    + intros H. injection H as _ <-. exact Hturn.
Qed.

Lemma failover_loop_sets_event fuel topology st out st' :
  shuffle_permutes (runtime self) -> topology <> [] ->
  failover_loop fuel self topology current_host st = Some (out, st') ->
  _timeout_event st' = true.
Proof.
  intros Hperm Hne. destruct fuel as [|fuel]; simpl.
  - destruct (_timeout_event st) eqn:He; [|discriminate].
    intros H. injection H as _ <-. exact He.
  - destruct (_timeout_event st) eqn:He.
    { intros H. injection H as _ <-. exact He. }
    destruct (failover_turn self topology current_host st)
      as [[[r | topology'] | err] st1] eqn:Hturn;
      apply (failover_turn_sets_event _ _ _ _ _ _ Hperm Hne) in Hturn.
    + intros H. injection H as _ <-. exact Hturn.
    + destruct fuel; simpl; rewrite Hturn; intros H; injection H as _ <-; exact Hturn.
    + intros H. injection H as _ <-. exact Hturn.
Qed.

End FailoverLoopMore.

Lemma failover_on_set_event self fuel max_wait topology current_host st :
  _timeout_event st = true ->
  exists st',
    failover fuel self max_wait topology current_host st
    = Some (failed_reader_failover_result, st')
    /\ handler_trace st' = handler_trace st
    /\ _timeout_event st' = true.
Proof.
  intros He. unfold failover.
  destruct topology as [[|h0 topology]|];
    [exists st; auto | | exists st; auto].
  unfold _internal_failover_task.
  destruct max_wait as [[|k]|]; destruct fuel; simpl; rewrite ?He;
    eexists; (split; [reflexivity|]); split; simpl; auto.
Qed.

(** A handler serves one failover.  The event that a batch sets is never
    cleared: once [failover] has returned from a topology with a host in it
    (the shuffles permuting), the event is set, and every later [failover]
    on this handler returns the not-connected result at once, calling nothing
    outside, whatever its topology and however long its caller would wait. *)
Theorem failover_spends_handler :
  forall (self : Handler) (fuel : nat) (max_wait : option nat) (topology : list HostInfo)
         (current_host : option HostInfo) (st : HandlerState)
         (result : ReaderFailoverResult) (st' : HandlerState),
    shuffle_permutes (runtime self) ->
    topology <> [] ->
    failover fuel self max_wait (Some topology) current_host st = Some (result, st') ->
    _timeout_event st' = true
    /\ forall (fuel2 : nat) (max_wait2 : option nat) (topology2 : option (list HostInfo))
              (current_host2 : option HostInfo),
         exists st'',
           failover fuel2 self max_wait2 topology2 current_host2 st'
           = Some (failed_reader_failover_result, st'')
           /\ handler_trace st'' = handler_trace st'.
Proof.
  intros self fuel max_wait topology current_host st result st' Hperm Hne Hrun.
  assert (Hset : _timeout_event st' = true).
  { unfold failover, _internal_failover_task in Hrun.
    destruct topology as [|h0 topology]; [congruence|].
    destruct (failover_loop fuel self (h0 :: topology) current_host _)
      as [[out st1]|] eqn:Hloop; [|discriminate].
    apply (failover_loop_sets_event self current_host _ _ _ _ _ Hperm Hne) in Hloop.
    destruct out as [r | err]; destruct (outer_wait st1) as [[|k]|];
      injection Hrun as _ <-; simpl; auto. }
  split; [exact Hset|].
  intros fuel2 max_wait2 topology2 current_host2.
  destruct (failover_on_set_event self fuel2 max_wait2 topology2 current_host2 st' Hset)
    as (st'' & Heq & Htr & _).
  exists st''. split; assumption.
Qed.

Lemma failover_spends_handler_witness :
  exists st st',
    failover 1 relaxed_handler None (Some [writer1; reader1; reader2]) None idle_handler
    = Some (mkReaderFailoverResult (Some 11%nat) true (Some reader1) None, st)
    /\ failover 1 relaxed_handler None (Some [writer1; reader1; reader2]) None st
       = Some (failed_reader_failover_result, st')
    /\ handler_trace st' = handler_trace st.
Proof.
  eexists. 
  assert (Hfirst : failover 1 relaxed_handler None (Some [writer1; reader1; reader2]) None
                     idle_handler
                   = Some (mkReaderFailoverResult (Some 11%nat) true (Some reader1) None,
                           (let r := failover 1 relaxed_handler None
                                       (Some [writer1; reader1; reader2]) None idle_handler in
                            match r with Some (_, s) => s | None => idle_handler end))).
  { vm_compute. reflexivity. }
  destruct (failover_spends_handler relaxed_handler 1 None [writer1; reader1; reader2]
              None idle_handler _ _
              (fun n l => Permutation_sym (Permutation_rev l))
              ltac:(discriminate) Hfirst) as [_ Hlater].
  destruct (Hlater 1%nat None (Some [writer1; reader1; reader2]) None) as (st'' & H2 & Htr).
  exists st''. split; [exact Hfirst|]. split; [exact H2 | exact Htr].
Defined.

(** Strict-reader mode: a connected result of [failover] names a host that
    the topology, refreshed over the connection of that result, lists as a
    reader under the same url. *)
Theorem strict_failover_returns_reader :
  forall (self : Handler) (fuel : nat) (max_wait : option nat)
         (topology : option (list HostInfo)) (current_host : option HostInfo)
         (st : HandlerState) (result : ReaderFailoverResult) (st' : HandlerState),
    _strict_reader_failover self = true ->
    failover fuel self max_wait topology current_host st = Some (result, st') ->
    is_connected result = true ->
    confirmed_reader (_plugin_service self) result.
Proof.
  intros self fuel max_wait topology current_host st result st' Hmode Hrun Hconn.
  unfold failover, _internal_failover_task in Hrun.
  destruct topology as [[|h0 topology]|];
    try (injection Hrun as <- _; discriminate).
  destruct (failover_loop fuel self (h0 :: topology) current_host _)
    as [[[r | err] st1]|] eqn:Hloop; [| |discriminate].
  - destruct (outer_wait st1) as [[|k]|]; injection Hrun as <- _;
      try discriminate;
      exact (failover_loop_confirmed self current_host _ _ _ _ _ Hmode Hloop Hconn).
  - destruct (outer_wait st1) as [[|k]|]; injection Hrun as <- _; discriminate.
Qed.

(** Mode other than strict-reader: [failover] never refreshes the host list
    and never closes a connection. *)
Theorem relaxed_failover_never_closes :
  forall (self : Handler) (fuel : nat) (max_wait : option nat)
         (topology : option (list HostInfo)) (current_host : option HostInfo)
         (st : HandlerState) (result : ReaderFailoverResult) (st' : HandlerState),
    _strict_reader_failover self = false ->
    failover fuel self max_wait topology current_host st = Some (result, st') ->
    exists calls,
      handler_trace st' = handler_trace st ++ calls
      /\ closed calls = []
      /\ refreshed_over calls = [].
Proof.
  intros self fuel max_wait topology current_host st result st' Hmode Hrun.
  unfold failover, _internal_failover_task in Hrun.
  destruct topology as [[|h0 topology]|];
    try (injection Hrun as _ <-; apply quiet_refl).
  destruct (failover_loop fuel self (h0 :: topology) current_host _)
    as [[out st1]|] eqn:Hloop; [|discriminate].
  apply (failover_loop_quiet self current_host _ _ _ _ _ Hmode) in Hloop.
  destruct Hloop as (c & Ht & Hc & Hr).
  exists c. split; [|auto].
  destruct out as [r | err]; destruct (outer_wait st1) as [[|k]|];
    injection Hrun as _ <-; simpl; rewrite Ht;
    destruct max_wait as [[|k']|]; reflexivity.
Qed.

Lemma strict_failover_returns_reader_witness :
  confirmed_reader service_reader1_stays
    (mkReaderFailoverResult (Some 11%nat) true (Some reader1) None).
Proof.
  refine (strict_failover_returns_reader steady_strict_handler 1 None
            (Some [writer1; reader1; reader2]) None idle_handler _
            (match failover 1 steady_strict_handler None
                     (Some [writer1; reader1; reader2]) None idle_handler with
             | Some (_, s) => s
             | None => idle_handler
             end) _ _ _).
  - reflexivity.
  - vm_compute. reflexivity.
  - reflexivity.
Defined.

Lemma relaxed_failover_never_closes_witness :
  exists st' calls,
    failover 1 relaxed_handler None (Some [writer1; reader1; reader2]) None idle_handler
    = Some (mkReaderFailoverResult (Some 11%nat) true (Some reader1) None, st')
    /\ handler_trace st' = handler_trace idle_handler ++ calls
    /\ closed calls = [].
Proof.
  assert (Hrun : failover 1 relaxed_handler None (Some [writer1; reader1; reader2]) None
                   idle_handler
                 = Some (mkReaderFailoverResult (Some 11%nat) true (Some reader1) None,
                         match failover 1 relaxed_handler None
                                 (Some [writer1; reader1; reader2]) None idle_handler with
                         | Some (_, s) => s
                         | None => idle_handler
                         end)).
  { vm_compute. reflexivity. }
  destruct (relaxed_failover_never_closes relaxed_handler 1 None
              (Some [writer1; reader1; reader2]) None idle_handler _ _
              ltac:(reflexivity) Hrun) as (calls & Htr & Hc & _).
  eexists _, calls. split; [exact Hrun|]. split; [exact Htr | exact Hc].
Defined.

(** ** MonitoringContext: further properties *)

Lemma update_host_status_all_app url a :
  forall self b,
    update_host_status_all self url (a ++ b)
    = let '(s1, t1) := update_host_status_all self url a in
      let '(s2, t2) := update_host_status_all s1 url b in
      (s2, t1 ++ t2).
Proof.
  induction a as [|p a IH]; intros self b; simpl.
  - destruct (update_host_status_all self url b). reflexivity.
  - destruct (update_host_status self url (probe_start p) (probe_end p) (probe_ok p))
      as [[r s] t].
    rewrite IH.
    destruct (update_host_status_all s url a) as [s1 t1].
    destruct (update_host_status_all s1 url b) as [s2 t2].
    rewrite app_assoc. reflexivity.
Qed.

(** A failed report after the grace period on an active context, spelled
    out. *)
Lemma failed_report_state self url s e :
  _is_active self = true ->
  _failure_detection_time_ms self * 1000000 < e - _monitor_start_time_ns self ->
  let since := if _unavailable_host_start_time_ns self <=? 0 then s
               else _unavailable_host_start_time_ns self in
  let over := _failure_detection_interval_ms self
              * Z.max 0 (_failure_detection_count self) * 1000000 <? e - since in
  (update_host_status self url s e false).1.2
  = set_health self (_current_failure_count self + 1) since
      (over || _is_host_unavailable self).
Proof.
  intros Hact Hgrace. unfold update_host_status. rewrite Hact. simpl negb. cbv iota.
  destruct (Z.ltb_spec (_failure_detection_time_ms self * 1000000)
              (e - _monitor_start_time_ns self)) as [_|?]; [|lia].
  unfold _set_host_availability.
  destruct (_ <? _) eqn:Hover; simpl.
  - destruct (_abort_connection _). reflexivity.
  - reflexivity.
Qed.

(** Failures reported to a context that has a failure pending since
    [since]: the count grows by their number, [since] stays, and the verdict
    is set by the first of them that ends more than the threshold after
    [since]. *)
Lemma pending_failures url reports :
  forall self,
    _is_active self = true ->
    0 < _unavailable_host_start_time_ns self ->
    Forall (fun p => probe_ok p = false
                     /\ _failure_detection_time_ms self * 1000000
                        < probe_end p - _monitor_start_time_ns self) reports ->
    let self' := (update_host_status_all self url reports).1 in
    _unavailable_host_start_time_ns self' = _unavailable_host_start_time_ns self
    /\ _current_failure_count self' = _current_failure_count self + Z.of_nat (length reports)
    /\ (_is_host_unavailable self' = true <->
        _is_host_unavailable self = true
        \/ Exists (fun p => _failure_detection_interval_ms self
                            * Z.max 0 (_failure_detection_count self) * 1000000
                            < probe_end p - _unavailable_host_start_time_ns self) reports).
Proof.
  induction reports as [|p reports IH]; intros self Hact Hsince Hall; cbn zeta.
  - simpl. split; [reflexivity|]. split; [lia|].
    split; [auto | intros [H | H]; [exact H | inversion H]].
  - apply Forall_cons in Hall as [[Hfail Hgrace] Hall].
    cbn [update_host_status_all]. rewrite Hfail.
    pose proof (failed_report_state self url (probe_start p) (probe_end p) Hact Hgrace)
      as Hstate.
    pose proof (update_host_status_frame self url (probe_start p) (probe_end p) false)
      as (_ & _ & Ht & Hi & Hc & Hs & _ & Ha).
    destruct (update_host_status self url (probe_start p) (probe_end p) false)
      as [[r s1] t1].
    cbn zeta in Hstate. simpl in Hstate, Ht, Hi, Hc, Hs, Ha.
    destruct (Z.leb_spec (_unavailable_host_start_time_ns self) 0) as [|_]; [lia|].
    assert (Hs1 : _unavailable_host_start_time_ns s1 = _unavailable_host_start_time_ns self)
      by (rewrite Hstate; reflexivity).
    assert (Hc1 : _current_failure_count s1 = _current_failure_count self + 1)
      by (rewrite Hstate; reflexivity).
    assert (Hv1 : _is_host_unavailable s1
                  = ((_failure_detection_interval_ms self
                      * Z.max 0 (_failure_detection_count self) * 1000000
                      <? probe_end p - _unavailable_host_start_time_ns self)
                     || _is_host_unavailable self))
      by (rewrite Hstate; reflexivity).
    specialize (IH s1).
    destruct (update_host_status_all s1 url reports) as [s2 t2].
    simpl in IH |- *.
    destruct IH as (IHs & IHc & IHv).
    + congruence.
    + lia.
    + rewrite Ht, Hs. exact Hall.
    + split; [congruence|]. split; [rewrite IHc, Hc1; lia|].
      rewrite IHv, Hv1, Hs1, Hi, Hc, Exists_cons, orb_true_iff, Z.ltb_lt.
      tauto.
Qed.

(** Only the failures since the last healthy report count.  Whatever was
    reported before, once a healthy report has reached an active context
    after the grace period, a run of failed reports [first :: more] (all
    after the grace period, the first probe starting at a positive time)
    leaves the failure count at the length of the run and
    [unavailable_since] at the start of the first probe of the run, and sets
    the verdict exactly when some probe of the run ends more than
    [failure_detection_interval_ms * max(0, failure_detection_count)]
    milliseconds after that start. *)
Theorem verdict_counts_from_last_healthy_probe :
  forall (self : MonitoringContext) (url : string) (before : list probe)
         (healthy first : probe) (more : list probe),
    _is_active self = true ->
    probe_ok healthy = true ->
    _failure_detection_time_ms self * 1000000
    < probe_end healthy - _monitor_start_time_ns self ->
    0 < probe_start first ->
    Forall (fun p => probe_ok p = false
                     /\ _failure_detection_time_ms self * 1000000
                        < probe_end p - _monitor_start_time_ns self) (first :: more) ->
    let self' :=
      (update_host_status_all self url (before ++ healthy :: first :: more)).1 in
    _current_failure_count self' = Z.of_nat (length (first :: more))
    /\ _unavailable_host_start_time_ns self' = probe_start first
    /\ (_is_host_unavailable self' = true <->
        Exists (fun p => _failure_detection_interval_ms self
                         * Z.max 0 (_failure_detection_count self) * 1000000
                         < probe_end p - probe_start first) (first :: more)).
Proof.
  intros self url before healthy first more Hact Hok Hgrace Hpos Hall. cbn zeta.
  rewrite update_host_status_all_app.
  pose proof (update_host_status_all_frame url before self)
    as (_ & _ & Ht & Hi & Hc & Hs & _ & Ha).
  destruct (update_host_status_all self url before) as [s1 t1].
  simpl in Ht, Hi, Hc, Hs, Ha.
  (* the healthy report *)
  cbn [update_host_status_all].
  assert (Hhealthy : (update_host_status s1 url (probe_start healthy) (probe_end healthy)
                        (probe_ok healthy)).1.2 = set_health s1 0 0 false).
  { unfold update_host_status. rewrite Ha, Hact, Hok. simpl negb. cbv iota.
    rewrite Ht, Hs.
    destruct (Z.ltb_spec (_failure_detection_time_ms self * 1000000)
                (probe_end healthy - _monitor_start_time_ns self)) as [_|?]; [|lia].
    reflexivity. }
  destruct (update_host_status s1 url (probe_start healthy) (probe_end healthy)
              (probe_ok healthy)) as [[r2 s2] t2].
  simpl in Hhealthy. subst s2.
  (* the first failure of the run *)
  apply Forall_cons in Hall as [[Hfail Hgrace1] Hall].
  rewrite Hfail.
  pose proof (failed_report_state (set_health s1 0 0 false) url (probe_start first)
                (probe_end first)) as Hstate.
  cbn zeta in Hstate. simpl in Hstate. rewrite Ha, Ht, Hs, Hi, Hc in Hstate.
  specialize (Hstate Hact Hgrace1).
  destruct (update_host_status (set_health s1 0 0 false) url (probe_start first)
              (probe_end first) false) as [[r3 s3] t3].
  simpl in Hstate.
  pose proof (pending_failures url more s3) as Hrest.
  destruct (update_host_status_all s3 url more) as [s4 t4].
  simpl in Hrest |- *. subst s3. simpl in Hrest.
  rewrite Ha, Ht, Hs, Hi, Hc in Hrest.
  destruct (Hrest Hact Hpos Hall) as (Hs4 & Hc4 & Hv4).
  split; [rewrite Hc4; lia|]. split; [exact Hs4|].
  rewrite Hv4, Exists_cons, orb_false_r, Z.ltb_lt. tauto.
Qed.

Lemma verdict_counts_from_last_healthy_probe_witness :
  _current_failure_count
    (update_host_status_all scenario_context "db-1"
       ([mkProbe 6000000000 6000000001 false]
        ++ mkProbe 7000000000 7000000001 true
        :: mkProbe 8000000000 8000000001 false
        :: [mkProbe 9000000000 9000000001 false])).1 = 2.
Proof.
  apply (verdict_counts_from_last_healthy_probe scenario_context "db-1"
           [mkProbe 6000000000 6000000001 false]
           (mkProbe 7000000000 7000000001 true)
           (mkProbe 8000000000 8000000001 false)
           [mkProbe 9000000000 9000000001 false]).
  - reflexivity.
  - reflexivity.
  - vm_compute. reflexivity.
  - vm_compute. reflexivity.
  - repeat constructor.
Defined.

(** ** HostMonitoringPlugin: further properties *)

(** The monitoring host is resolved once: after a call that returned, every
    further call returns the same host and changes nothing. *)
Theorem monitoring_host_is_cached :
  forall (svc : PluginService) (st st1 : PluginState) (h : HostInfo),
    _get_monitoring_host_info svc st = (Returned h, st1) ->
    _get_monitoring_host_info svc st1 = (Returned h, st1)
    /\ plugin_trace st1 = plugin_trace st
    /\ (_monitoring_host_info st = None ->
        exists current, current_host_info svc = Some current
                        /\ (is_rds_cluster svc (url current) = false -> h = current)).
Proof.
  intros svc st st1 h Hrun.
  pose proof (get_monitoring_host_info_returned svc st h st1 Hrun) as (Hc & _ & Ht).
  split; [apply get_monitoring_host_info_cached; exact Hc|]. split; [exact Ht|].
  intros Hnone. revert Hrun.
  unfold _get_monitoring_host_info. run_monad. rewrite Hnone.
  destruct (current_host_info svc) as [cur|]; [|discriminate].
  intros Hrun. exists cur. split; [reflexivity|].
  intros Hplain. rewrite Hplain in Hrun. injection Hrun as <- _. reflexivity.
Qed.

Lemma monitoring_host_is_cached_witness :
  _get_monitoring_host_info (service_on_db1 quiet_dialect)
    (mkPluginState (Some db1) (Some quiet_dialect) [])
  = (Returned db1, mkPluginState (Some db1) (Some quiet_dialect) []).
Proof.
  refine (proj1 (monitoring_host_is_cached (service_on_db1 quiet_dialect)
                   (idle_plugin quiet_dialect) _ db1 _)).
  vm_compute. reflexivity.
Defined.

(** When the current host is a cluster endpoint and the connection cannot
    be identified, [_get_monitoring_host_info] raises the wrapper's error,
    but what it leaves in the cache differs.  If [identify_connection]
    raised, the cache holds the current host, and the next call returns that
    cluster endpoint as the monitoring host, without error.  If
    [fill_aliases] raised, the cache holds the identified host, and the next
    call returns it with its aliases not filled.  Only if
    [identify_connection] returned [None] is the cache empty again. *)
Theorem failed_identification_leaves_cache :
  forall (svc : PluginService) (st : PluginState) (current : HostInfo),
    _monitoring_host_info st = None ->
    current_host_info svc = Some current ->
    is_rds_cluster svc (url current) = true ->
    let error := AwsWrapperError "HostMonitoringPlugin.ErrorIdentifyingConnection" in
    let with_cache (c : option HostInfo) :=
      mkPluginState c (service_dialect st) (plugin_trace st) in
    match identify_connection svc with
    | Raised _ =>
        _get_monitoring_host_info svc st = (Raised error, with_cache (Some current))
        /\ _get_monitoring_host_info svc (with_cache (Some current))
           = (Returned current, with_cache (Some current))
    | Returned None =>
        _get_monitoring_host_info svc st = (Raised error, with_cache None)
    | Returned (Some identified) =>
        match fill_aliases svc identified with
        | Raised _ =>
            _get_monitoring_host_info svc st = (Raised error, with_cache (Some identified))
            /\ _get_monitoring_host_info svc (with_cache (Some identified))
               = (Returned identified, with_cache (Some identified))
        | Returned filled =>
            _get_monitoring_host_info svc st = (Returned filled, with_cache (Some filled))
        end
    end.
Proof.
  intros svc st current Hnone Hcur Hcluster error with_cache.
  unfold _get_monitoring_host_info. run_monad.
  rewrite Hnone, Hcur, Hcluster.
  destruct (identify_connection svc) as [[identified|] | err]; simpl.
  - destruct (fill_aliases svc identified) as [filled | err]; simpl;
      [reflexivity | split; reflexivity].
  - reflexivity.
  - split; reflexivity.
Qed.

Lemma failed_identification_leaves_cache_witness :
  _get_monitoring_host_info
    {| current_connection := Some 7%nat;
       current_host_info := Some db1;
       update_dialect := None;
       is_rds_cluster := fun _ => true;
       identify_connection := Returned None;
       fill_aliases := fun h => Returned h;
       force_connect := no_connect;
       force_refresh_host_list := fun _ _ => Returned [];
       is_network_exception := fun _ => true;
       close := fun _ => Returned tt |}
    (mkPluginState None None [])
  = (Raised (AwsWrapperError "HostMonitoringPlugin.ErrorIdentifyingConnection"),
     mkPluginState None None []).
Proof.
  refine (failed_identification_leaves_cache
            {| current_connection := Some 7%nat;
               current_host_info := Some db1;
               update_dialect := None;
               is_rds_cluster := fun _ => true;
               identify_connection := Returned None;
               fill_aliases := fun h => Returned h;
               force_connect := no_connect;
               force_refresh_host_list := fun _ _ => Returned [];
               is_network_exception := fun _ => true;
               close := fun _ => Returned tt |}
            (mkPluginState None None []) db1 _ _ _); reflexivity.
Defined.

(** When the context of a wrapped call ends without the unavailable
    verdict, [execute] hands on what the wrapped call produced, value or
    exception, and calls neither [set_availability] nor [close]; the trace
    grows only by the aborts that the context made on the connection while
    the call ran (there can be some: a verdict that a later healthy probe has
    cleared has aborted the connection all the same). *)
Theorem healthy_verdict_passes_outcome :
  forall (A : Type) (svc : PluginService) (cfg : MonitoringConfig)
         (registry : outcome unit) (now_ns : Z) (probes : list probe)
         (method_name : string) (execute_func : outcome A) (st : PluginState)
         (context : MonitoringContext),
    context_at_exit svc cfg registry now_ns probes method_name st = Some context ->
    is_host_unavailable context = false ->
    exists (connection : Connection) (st' : PluginState) (aborts : list Event),
      current_connection svc = Some connection
      /\ execute svc cfg registry now_ns probes method_name execute_func st
         = (execute_func, st')
      /\ plugin_trace st' = plugin_trace st ++ aborts
      /\ Forall (fun ev => ev = EvAbort connection) aborts.
Proof.
  intros A svc cfg registry now probes method execute_func st context.
  unfold context_at_exit, execute.
  destruct (current_connection svc) as [connection|]; [|discriminate].
  destruct (current_host_info svc) as [host_info|]; [|discriminate].
  destruct (negb (FAILURE_DETECTION_ENABLED cfg)
            || negb (existsb (String.eqb method) (NETWORK_BOUND_METHODS cfg)));
    [discriminate|].
  destruct (execute_start svc cfg registry now connection st)
    as [[monitor_context|] st1] eqn:Hstart; [|discriminate].
  apply execute_start_returned in Hstart
    as ((m & Hm) & _ & Htr & Hconn & _).
  rewrite Hm.
  rewrite (update_host_status_all_url (url host_info) (url m)).
  pose proof (update_host_status_all_calls (url m) probes connection
                monitor_context Hconn) as Haborts.
  destruct (update_host_status_all monitor_context (url m) probes)
    as [monitor_context' aborts].
  simpl in Haborts. simpl fst.
  intros Hctx Hverdict. inversion Hctx; subst context; clear Hctx.
  exists connection. eexists _, aborts.
  split; [reflexivity|].
  unfold try_finally, execute_cleanup. rewrite Hverdict.
  run_monad. split; [reflexivity|]. simpl. rewrite Htr. split; [reflexivity | exact Haborts].
Qed.

Lemma healthy_verdict_passes_outcome_witness :
  exists (st' : PluginState),
    execute (service_on_db1 quiet_dialect) eager_config (Returned tt) 0
      [mkProbe 1 2 false; mkProbe 3 4 true] "Cursor.execute" (Returned 42%nat)
      (idle_plugin quiet_dialect)
    = (Returned 42%nat, st')
    /\ plugin_trace st' = [EvAbort 7%nat].
Proof.
  destruct (healthy_verdict_passes_outcome nat (service_on_db1 quiet_dialect) eager_config
              (Returned tt) 0 [mkProbe 1 2 false; mkProbe 3 4 true] "Cursor.execute"
              (Returned 42%nat) (idle_plugin quiet_dialect)
              (stop_monitoring
                 (update_host_status_all fresh_context "db-1"
                    [mkProbe 1 2 false; mkProbe 3 4 true]).1))
    as (connection & st' & aborts & _ & Heq & _).
  - vm_compute. reflexivity.
  - reflexivity.
  - exists st'. split; [exact Heq|].
    apply (f_equal snd) in Heq. simpl in Heq. rewrite <- Heq. vm_compute. reflexivity.
Defined.

(** A wrapped call on a monitoring host without aliases is not monitored
    and not made: [execute] raises the error of [start_monitoring], whatever
    the wrapped call would have produced, and records nothing. *)
Theorem no_alias_no_call :
  forall (A : Type) (svc : PluginService) (cfg : MonitoringConfig)
         (registry : outcome unit) (now_ns : Z) (probes : list probe)
         (method_name : string) (execute_func : outcome A) (st st1 : PluginState)
         (connection : Connection) (host_info monitoring_host : HostInfo),
    current_connection svc = Some connection ->
    current_host_info svc = Some host_info ->
    FAILURE_DETECTION_ENABLED cfg = true ->
    In method_name (NETWORK_BOUND_METHODS cfg) ->
    _get_monitoring_host_info svc st = (Returned monitoring_host, st1) ->
    all_aliases monitoring_host = ∅ ->
    execute svc cfg registry now_ns probes method_name execute_func st
    = (Raised (AwsWrapperError "MonitorService.EmptyAliasSet"), st1)
    /\ plugin_trace st1 = plugin_trace st.
Proof.
  intros A svc cfg registry now probes method execute_func st st1 connection host_info m
         Hconn Hhost Hon Hbound Hget Hempty.
  pose proof (get_monitoring_host_info_returned svc st m st1 Hget) as (Hc & _ & Ht).
  split; [|exact Ht].
  unfold execute. rewrite Hconn, Hhost, Hon.
  assert (existsb (String.eqb method) (NETWORK_BOUND_METHODS cfg) = true) as ->.
  { apply existsb_exists. exists method. split; [exact Hbound | apply String.eqb_refl]. }
  change (negb true || negb true) with false. cbv beta iota.
  unfold execute_start. unfold mbind at 1, M_bind at 1. rewrite Hget.
  unfold mbind at 1, M_bind at 1.
  rewrite (get_monitoring_host_info_cached svc st1 m Hc).
  unfold start_monitoring. rewrite Hempty.
  destruct (decide (∅ = ∅)) as [_|Hne]; [reflexivity | congruence].
Qed.

Lemma no_alias_no_call_witness :
  execute
    {| current_connection := Some 7%nat;
       current_host_info := Some (mkHostInfo "db-0" "db-0.example.com" WRITER AVAILABLE ∅);
       update_dialect := None;
       is_rds_cluster := fun _ => false;
       identify_connection := Returned None;
       fill_aliases := fun h => Returned h;
       force_connect := no_connect;
       force_refresh_host_list := fun _ _ => Returned [];
       is_network_exception := fun _ => true;
       close := fun _ => Returned tt |}
    eager_config (Returned tt) 0 [] "Cursor.execute" (Returned 42%nat)
    (idle_plugin quiet_dialect)
  = (Raised (AwsWrapperError "MonitorService.EmptyAliasSet"),
     mkPluginState (Some (mkHostInfo "db-0" "db-0.example.com" WRITER AVAILABLE ∅))
       (Some quiet_dialect) []).
Proof.
  refine (proj1 (no_alias_no_call nat _ eager_config (Returned tt) 0 [] "Cursor.execute"
                   (Returned 42%nat) (idle_plugin quiet_dialect) _ 7%nat
                   (mkHostInfo "db-0" "db-0.example.com" WRITER AVAILABLE ∅)
                   (mkHostInfo "db-0" "db-0.example.com" WRITER AVAILABLE ∅)
                   _ _ _ _ _ _)); try reflexivity.
  simpl. auto.
Defined.

(** ** Monitor._check_host_status: further properties *)

(** The probe never raises and always reports the elapsed time it was
    given.  It reports the host available in two cases only: it had to open
    a monitoring connection (none yet, or the dialect reports it closed) and
    [force_connect] returned, the connection returned becoming the monitoring
    connection; or it had an open monitoring connection and the query
    returned.  A missing dialect, an exception of [force_connect], a timeout
    of the query and any other exception of the query all give "not
    available", and leave the monitoring connection as it was. *)
Theorem probe_reports_every_failure_as_unavailable :
  forall (svc : PluginService) (elapsed_ns : Z) (query : outcome unit) (self : Monitor),
    let resolved :=
      match monitor_dialect self with
      | Some d => Some d
      | None => update_dialect svc
      end in
    exists (status : HostStatus) (self' : Monitor),
      _check_host_status svc elapsed_ns query self = (Returned status, self')
      /\ elapsed_time_ns status = elapsed_ns
      /\ match resolved with
         | None =>
             is_available status = false
             /\ _monitoring_conn self' = _monitoring_conn self
         | Some d =>
             if match _monitoring_conn self with
                | Some c => is_closed d c
                | None => true
                end
             then
               match force_connect svc (monitor_connects self) (_host_info self)
                       (monitoring_connection_props (_props self)) None with
               | Returned conn =>
                   is_available status = true /\ _monitoring_conn self' = conn
               | Raised _ =>
                   is_available status = false
                   /\ _monitoring_conn self' = _monitoring_conn self
               end
             else
               (is_available status = true <-> query = Returned tt)
               /\ _monitoring_conn self' = _monitoring_conn self
         end.
Proof.
  intros svc elapsed query self resolved. subst resolved.
  unfold _check_host_status. run_monad.
  destruct (monitor_dialect self) as [d|] eqn:Hd;
    [|destruct (update_dialect svc) as [d|] eqn:Hu]; simpl.
  - destruct (match _monitoring_conn self with
              | Some c => is_closed d c | None => true end).
    + destruct (force_connect svc (monitor_connects self) (_host_info self)
                  (monitoring_connection_props (_props self)) None) as [conn|err];
        simpl; eexists _, _; (split; [reflexivity|]); simpl; auto.
    + destruct query as [[]|err]; simpl;
        [| destruct err; simpl];
        eexists _, _; (split; [reflexivity|]); simpl;
        (split; [reflexivity|]); (split; [|reflexivity]);
        split; congruence.
  - destruct (match _monitoring_conn self with
              | Some c => is_closed d c | None => true end).
    + destruct (force_connect svc (monitor_connects self) (_host_info self)
                  (monitoring_connection_props (_props self)) None) as [conn|err];
        simpl; eexists _, _; (split; [reflexivity|]); simpl; auto.
    + destruct query as [[]|err]; simpl;
        [| destruct err; simpl];
        eexists _, _; (split; [reflexivity|]); simpl;
        (split; [reflexivity|]); (split; [|reflexivity]);
        split; congruence.
  - eexists _, _. split; [reflexivity|]. simpl. auto.
Qed.

(** ** Monitor: the loops of [run] over the queues *)

Lemma head_to_end_cons m more : head_to_end (m :: more) = more ++ [m].
Proof. unfold head_to_end. simpl. rewrite drop_0, take_0. reflexivity. Qed.

Lemma marker_of_put_back put_back marker c :
  marker_of put_back marker ->
  marker_of (put_back ++ [c])
    (match marker with None => Some c | Some first => Some first end).
Proof.
  unfold marker_of. intros ->. destruct put_back; reflexivity.
Qed.

Lemma marker_not_pending put_back marker c pending :
  marker_of put_back marker ->
  NoDup ((c :: pending) ++ put_back) ->
  marker <> Some c.
Proof.
  unfold marker_of. intros -> Hnd Heq.
  destruct put_back as [|m more]; [discriminate|]. injection Heq as ->.
  apply NoDup_app in Hnd as (_ & Hdisj & _).
  apply (Hdisj c); left.
Qed.

Lemma NoDup_put_back (c : nat) pending put_back :
  NoDup ((c :: pending) ++ put_back) ->
  NoDup (pending ++ put_back) /\ NoDup (pending ++ put_back ++ [c]).
Proof.
  intros Hnd. simpl in Hnd. apply NoDup_cons in Hnd as [Hc Hnd].
  split; [exact Hnd|].
  rewrite app_assoc. apply NoDup_app. split; [exact Hnd|]. split.
  - intros x Hx Hin. apply list_elem_of_singleton in Hin as ->. exact (Hc Hx).
  - apply NoDup_singleton.
Qed.




(** At 5 s exactly the context submitted at 0 is moved on and the one
    submitted a nanosecond later is kept. *)
Example intake_at_the_boundary :
  option_map (fun q => (_new_contexts q, _active_contexts q))
    (process_new_contexts 3 5000000000 None two_new_contexts)
  = Some ([2%nat], [1%nat]).
Proof. vm_compute. reflexivity. Qed.

Lemma head_to_end_perm l : head_to_end l ≡ₚ l.
Proof.
  unfold head_to_end. rewrite Permutation_app_comm. rewrite take_drop. reflexivity.
Qed.

Lemma reported_frame url s status context :
  same_frame (reported url s status context) context.
Proof. apply update_host_status_frame. Qed.

Lemma reported_inactive url s status context :
  _is_active context = false -> 
  reported url s status context = context
  /\ report_calls url s status context = [].
Proof.
  intros Hi. unfold reported, report_calls.
  rewrite update_host_status_skip by (left; exact Hi). split; reflexivity.
Qed.

Section DispatchPass.

Variables (host_url : string) (start_ns : Z) (status : HostStatus).
Variable store0 : nat -> MonitoringContext.
Variables (new : list nat) (used : Z).

Let upd := reported host_url start_ns status.
Let calls_of := report_calls host_url start_ns status.
Let surv := survives host_url start_ns status store0.

(** The second loop, from any point of its run: [pending] are the contexts
    not yet looked at, which are as at the start of the loop; [put_back]
    those it has put back, which are active. *)
Lemma process_active_contexts_from pending :
  forall store put_back marker delay trace fuel,
    marker_of put_back marker ->
    NoDup (pending ++ put_back) ->
    (forall c, c ∈ pending -> store c = store0 c) ->
    Forall (fun c => _is_active (store c) = true) put_back ->
    (length pending < fuel)%nat ->
    exists d',
      process_active_contexts fuel host_url start_ns status
        (mkDispatch (mkMonitorQueues store new (pending ++ put_back) used)
           delay marker trace) = Some d'
      /\ _new_contexts (queues d') = new
      /\ _context_last_used_ns (queues d') = used
      /\ (forall c, contexts (queues d') c
                    = if bool_decide (c ∈ pending) then upd (store0 c) else store c)
      /\ _active_contexts (queues d')
         = head_to_end (put_back ++ List.filter surv pending)
      /\ delay_ms d' = fold_left (shorter_delay store0) (List.filter surv pending) delay
      /\ dispatch_trace d' = trace ++ flat_map (fun c => calls_of (store0 c)) pending.
Proof.
  induction pending as [|c pending IH];
    intros store put_back marker delay trace fuel Hm Hnd Hsame Hactive Hfuel.
  - simpl. rewrite !app_nil_r.
    destruct put_back as [|m more].
    + exists (mkDispatch (mkMonitorQueues store new [] used) delay marker trace).
      split; [destruct fuel; reflexivity|]. simpl. repeat split.
    + destruct fuel as [|fuel]; [simpl in Hfuel; lia|].
      unfold marker_of in Hm. simpl in Hm. subst marker.
      apply Forall_cons in Hactive as [Hm _].
      eexists. split.
      { simpl. rewrite Hm. simpl.
        destruct (decide (Some m = Some m)) as [_|Hne]; [reflexivity | congruence]. }
      simpl. rewrite head_to_end_cons. repeat split.
  - destruct fuel as [|fuel]; [simpl in Hfuel; lia|].
    pose proof (marker_not_pending _ _ _ _ Hm Hnd) as Hnot.
    assert (Hc_new : (c ∉ pending) /\ (c ∉ put_back)).
    { simpl in Hnd. apply NoDup_cons in Hnd as [Hc _].
      split; intros Hin; apply Hc, elem_of_app; auto. }
    destruct Hc_new as [Hcp Hcb].
    apply NoDup_put_back in Hnd as [Hnd1 Hnd2].
    assert (Hc0 : store c = store0 c) by (apply Hsame; left).
    assert (Hrest : forall store', (forall x, x <> c -> store' x = store x) ->
                                   forall x, x ∈ pending -> store' x = store0 x).
    { intros store' Hother x Hx. rewrite Hother by (intros ->; exact (Hcp Hx)).
      apply Hsame. right. exact Hx. }
    assert (Hkept : forall store', (forall x, x <> c -> store' x = store x) ->
                                   Forall (fun x => _is_active (store' x) = true) put_back).
    { intros store' Hother. rewrite Forall_forall in Hactive |- *. intros x Hx.
      rewrite Hother by (intros ->; exact (Hcb Hx)). apply Hactive, Hx. }
    assert (Hlookup : forall (d' : Dispatch) store',
               (forall x, x <> c -> store' x = store x) ->
               store' c = upd (store0 c) ->
               (forall x, contexts (queues d') x
                          = if bool_decide (x ∈ pending) then upd (store0 x) else store' x) ->
               forall x, contexts (queues d') x
                         = if bool_decide (x ∈ c :: pending) then upd (store0 x)
                           else store x).
    { intros d' store' Hother Hat Hd x. rewrite Hd.
      destruct (decide (x = c)) as [->|Hxc].
      - rewrite bool_decide_eq_false_2 by exact Hcp.
        rewrite bool_decide_eq_true_2 by left. exact Hat.
      - destruct (decide (x ∈ pending)) as [Hin|Hout].
        + rewrite !bool_decide_eq_true_2; [reflexivity | right; exact Hin | exact Hin].
        + rewrite !bool_decide_eq_false_2; [apply Hother, Hxc | | exact Hout].
          intros Hin. apply elem_of_cons in Hin as [?|?]; auto. }
    cbn [process_active_contexts app queues _new_contexts contexts _active_contexts
           _context_last_used_ns delay_ms first_added_new_context dispatch_trace
           List.filter flat_map].
    assert (Hsurv : surv c = _is_active (upd (store0 c))
                             && negb (is_host_unavailable (upd (store0 c))))
      by reflexivity.
    destruct (_is_active (store c)) eqn:Hact; simpl negb; cbv iota.
    + destruct (decide (marker = Some c)) as [Heq|_]; [contradiction|].
      fold (reported host_url start_ns status (store c)).
      pose proof (eq_refl : report_calls host_url start_ns status (store c)
                            = (update_host_status (store c) host_url start_ns
                                 (start_ns + elapsed_time_ns status)
                                 (is_available status)).2) as Hcalls.
      pose proof (eq_refl : reported host_url start_ns status (store c)
                            = (update_host_status (store c) host_url start_ns
                                 (start_ns + elapsed_time_ns status)
                                 (is_available status)).1.2) as Hrep.
      destruct (update_host_status (store c) host_url start_ns
                  (start_ns + elapsed_time_ns status) (is_available status))
        as [[r updated] aborts].
      simpl in Hcalls, Hrep. rewrite Hc0 in Hcalls, Hrep.
      fold upd in Hrep. fold calls_of in Hcalls.
      assert (Hother : forall x, x <> c -> store_set store c updated x = store x).
      { intros x Hx. unfold store_set. destruct (decide (x = c)); [contradiction | reflexivity]. }
      assert (Hat : store_set store c updated c = upd (store0 c)).
      { unfold store_set. destruct (decide (c = c)); [congruence | contradiction]. }
      rewrite Hsurv, Hrep. unfold is_host_unavailable.
      destruct (negb (_is_active updated) || _is_host_unavailable updated) eqn:Hdrop.
      * destruct (IH (store_set store c updated) put_back marker delay (trace ++ aborts)
                    fuel Hm Hnd1 (Hrest _ Hother) (Hkept _ Hother)
                    ltac:(simpl in Hfuel; lia))
          as (d' & Hrun & Hn & Hu & Hstore & Hq & Hd & Ht).
        exists d'. split; [exact Hrun|]. split; [exact Hn|]. split; [exact Hu|].
        split; [exact (Hlookup d' _ Hother Hat Hstore)|].
        assert ((_is_active updated && negb (_is_host_unavailable updated)) = false) as ->.
        { destruct (_is_active updated), (_is_host_unavailable updated);
            simpl in Hdrop |- *; congruence. }
        split; [exact Hq|]. split; [exact Hd|].
        rewrite Ht, <- app_assoc, Hcalls. reflexivity.
      * assert (Hlive : _is_active updated = true /\ _is_host_unavailable updated = false).
        { destruct (_is_active updated), (_is_host_unavailable updated);
            simpl in Hdrop; auto; discriminate. }
        destruct Hlive as [Hlive Hverdict]. rewrite Hlive, Hverdict. simpl andb. cbv iota.
        assert (Hback : Forall (fun x => _is_active (store_set store c updated x) = true)
                          (put_back ++ [c])).
        { apply Forall_app. split; [apply Hkept, Hother|].
          apply Forall_cons_2; [|apply Forall_nil_2]. rewrite Hat, Hrep. exact Hlive. }
        rewrite <- app_assoc.
        destruct (IH (store_set store c updated) (put_back ++ [c]) _ 
                    (if (delay =? -1) || (_failure_detection_interval_ms updated <? delay)
                     then _failure_detection_interval_ms updated else delay)
                    (trace ++ aborts) fuel
                    (marker_of_put_back _ _ c Hm) Hnd2 (Hrest _ Hother) Hback
                    ltac:(simpl in Hfuel; lia))
          as (d' & Hrun & Hn & Hu & Hstore & Hq & Hd & Ht).
        exists d'. split; [exact Hrun|]. split; [exact Hn|]. split; [exact Hu|].
        split; [exact (Hlookup d' _ Hother Hat Hstore)|].
        split; [rewrite Hq, <- app_assoc; reflexivity|].
        split.
        -- rewrite Hd. cbn [fold_left]. unfold shorter_delay at 3.
           pose proof (reported_frame host_url start_ns status (store0 c))
             as (_ & _ & _ & Hint & _).
           fold upd in Hint. rewrite Hrep in Hint. rewrite Hint. reflexivity.
        -- rewrite Ht, <- app_assoc, Hcalls. reflexivity.
    + destruct (reported_inactive host_url start_ns status (store0 c)) as [Hsame_c Hno];
        [congruence|].
      fold upd in Hsame_c. fold calls_of in Hno.
      destruct (IH store put_back marker delay trace fuel Hm Hnd1
                  (Hrest store (fun _ _ => eq_refl)) Hactive
                  ltac:(simpl in Hfuel; lia))
        as (d' & Hrun & Hn & Hu & Hstore & Hq & Hd & Ht).
      exists d'. split; [exact Hrun|]. split; [exact Hn|]. split; [exact Hu|].
      split.
      { apply (Hlookup d' store); [reflexivity | congruence | exact Hstore]. }
      rewrite Hsurv, Hsame_c, <- Hc0, Hact. simpl andb. cbv iota.
      split; [exact Hq|]. split; [exact Hd|].
      rewrite Ht, Hc0. unfold calls_of in *. rewrite Hno. reflexivity.
Qed.

End DispatchPass.

(** Left alone by the other threads, the loop runs as on contexts that do
    not change under it. *)
Lemma process_active_contexts_alone others host_url start_ns status :
  (forall turn, others turn = []) ->
  forall fuel turn d d',
    process_active_contexts fuel host_url start_ns status d = Some d' ->
    process_active_contexts_among (S fuel) others turn host_url start_ns status d
    = Some d'.
Proof.
  intros Hnone.
  induction fuel as [|fuel IH];
    intros turn [[store new active used] delay marker trace] d' Hrun;
    cbn [process_active_contexts_among]; rewrite Hnone;
    unfold monitor_calls; cbn [fold_left queues delay_ms first_added_new_context
                               dispatch_trace];
    unfold active_context_turn;
    cbn [process_active_contexts queues _active_contexts contexts _new_contexts
         _context_last_used_ns delay_ms first_added_new_context dispatch_trace] in *.
  - destruct active as [|c rest]; [exact Hrun | discriminate].
  - destruct active as [|c rest].
    + destruct fuel; exact Hrun.
    + destruct (negb (_is_active (store c))); [apply IH; exact Hrun|].
      destruct (decide (marker = Some c)); [exact Hrun|].
      destruct (update_host_status (store c) host_url start_ns
                  (start_ns + elapsed_time_ns status) (is_available status))
        as [[r updated] aborts].
      destruct (negb (_is_active updated) || is_host_unavailable updated);
        apply IH; exact Hrun.
Qed.

(** One pass of the monitor over its active contexts with the result of a
    probe, provided no other thread calls the monitor while the pass runs:
    it ends within two turns more than there are contexts in the queue;
    every context of the queue gets the report exactly once and no other
    context is touched; the queue is left with the contexts that are still
    active and have no verdict after the report (the first of them gone to
    the end); the queue of new contexts is not touched; what was called
    outside are the aborts of the contexts, in the order of the queue. *)
Theorem active_contexts_pass_undisturbed :
  forall (host_url : string) (start_ns : Z) (status : HostStatus) (self : MonitorQueues)
         (others : nat -> list MonitorCall),
    NoDup (_active_contexts self) ->
    (forall turn, others turn = []) ->
    exists d' : Dispatch,
      process_active_contexts_among (S (S (length (_active_contexts self)))) others 0
        host_url start_ns status (mkDispatch self (-1) None []) = Some d'
      /\ _new_contexts (queues d') = _new_contexts self
      /\ (forall c,
            contexts (queues d') c
            = if bool_decide (c ∈ _active_contexts self)
              then reported host_url start_ns status (contexts self c)
              else contexts self c)
      /\ _active_contexts (queues d')
         = head_to_end (List.filter (survives host_url start_ns status (contexts self))
                          (_active_contexts self))
      /\ (forall c, c ∈ _active_contexts (queues d') ->
                    _is_active (contexts (queues d') c) = true
                    /\ is_host_unavailable (contexts (queues d') c) = false)
      /\ dispatch_trace d'
         = flat_map (fun c => report_calls host_url start_ns status (contexts self c))
             (_active_contexts self).
Proof.
  intros url s status [store new active used] others Hnd Hnone. simpl in *.
  destruct (process_active_contexts_from url s status store new used active
              store [] None (-1) [] (S (length active)) eq_refl
              ltac:(rewrite app_nil_r; exact Hnd) ltac:(reflexivity)
              ltac:(apply Forall_nil_2) ltac:(lia))
    as (d' & Hrun & Hn & _ & Hstore & Hq & _ & Ht).
  rewrite app_nil_r in Hrun. simpl in Hq, Ht.
  exists d'.
  split; [exact (process_active_contexts_alone others url s status Hnone _ 0%nat _ _ Hrun)|].
  split; [exact Hn|]. split; [exact Hstore|].
  split; [exact Hq|]. split; [|exact Ht].
  intros c Hc. rewrite Hq, head_to_end_perm in Hc.
  apply filter_member in Hc as [Hin Hs].
  rewrite Hstore, bool_decide_eq_true_2 by exact Hin.
  unfold survives in Hs. apply andb_prop in Hs as [Ha Hv].
  apply negb_true_iff in Hv. auto.
Qed.

Lemma active_contexts_pass_undisturbed_witness :
  exists d' : Dispatch,
    process_active_contexts_among (S (S (length (_active_contexts two_active_contexts))))
      undisturbed 0 "db-1" 8000000000 (mkHostStatus false 1)
      (mkDispatch two_active_contexts (-1) None []) = Some d'
    /\ _new_contexts (queues d') = _new_contexts two_active_contexts.
Proof.
  destruct (active_contexts_pass_undisturbed "db-1" 8000000000 (mkHostStatus false 1)
              two_active_contexts undisturbed) as (d' & Hrun & Hn & _).
  - apply (bool_decide_unpack _). vm_compute. exact I.
  - intros turn. reflexivity.
  - exists d'. split; [exact Hrun | exact Hn].
Defined.




(** ** Monitor: from [start_monitoring] to active monitoring *)

Lemma store_set_same store c context : store_set store c context c = context.
Proof. unfold store_set. destruct (decide (c = c)); [reflexivity | contradiction]. Qed.



(** ** Monitor: the marker of the second loop, stopped under way *)

Lemma process_active_contexts_among_more others url s status :
  forall fuel fuel' turn d d',
    process_active_contexts_among fuel others turn url s status d = Some d' ->
    (fuel <= fuel')%nat ->
    process_active_contexts_among fuel' others turn url s status d = Some d'.
Proof.
  induction fuel as [|fuel IH]; intros fuel' turn d d' Hrun Hle; [discriminate|].
  destruct fuel' as [|fuel']; [lia|].
  cbn [process_active_contexts_among] in *.
  destruct (active_context_turn _ _ _ _) as [d1 | d1]; [|exact Hrun].
  apply (IH fuel'); [exact Hrun | lia].
Qed.

(** A healthy report leaves a monitored context monitored. *)
Lemma healthy_report_monitored context url s e :
  monitored context ->
  monitored (update_host_status context url s e true).1.2.
Proof.
  intros [Ha Hv]. unfold update_host_status. rewrite Ha. cbn [negb].
  split_if; [|split; assumption].
  unfold _set_host_availability. simpl. split; [exact Ha | reflexivity].
Qed.

Section StoppedMarker.

Variables (host_url : string) (start_ns : Z) (status : HostStatus).
Variable others : nat -> list MonitorCall.
Variables (new : list nat) (used : Z).
Hypothesis healthy : is_available status = true.

(** A turn on a monitored context that is not the marker: the context gets
    the report and goes to the end of the queue. *)
Lemma monitored_turn store c rest delay marker trace :
  monitored (store c) ->
  marker <> Some c ->
  exists updated delay' trace',
    active_context_turn host_url start_ns status
      (mkDispatch (mkMonitorQueues store new (c :: rest) used) delay marker trace)
    = NextTurn
        (mkDispatch (mkMonitorQueues (store_set store c updated) new (rest ++ [c]) used)
           delay'
           (match marker with None => Some c | Some first => Some first end)
           trace')
    /\ monitored updated.
Proof.
  intros Hgood Hmarker.
  pose proof (healthy_report_monitored (store c) host_url start_ns
                (start_ns + elapsed_time_ns status) Hgood) as Hafter.
  destruct Hgood as [Ha Hv].
  unfold active_context_turn.
  cbn [queues _active_contexts contexts _new_contexts _context_last_used_ns delay_ms
       first_added_new_context dispatch_trace].
  rewrite Ha. cbn [negb].
  destruct (decide (marker = Some c)) as [Heq | _]; [contradiction|].
  rewrite healthy in *.
  destruct (update_host_status (store c) host_url start_ns
              (start_ns + elapsed_time_ns status) true) as [[r updated] aborts].
  simpl in Hafter. destruct Hafter as [Ha' Hv'].
  unfold is_host_unavailable in Hv'. unfold is_host_unavailable.
  rewrite Ha', Hv'. cbn [negb orb].
  eexists _, _, _. split; [reflexivity|]. split; assumption.
Qed.

(** The first turns of the loop, while no other thread calls the monitor:
    the contexts of [p1] get the report and go to the end of the queue. *)
Lemma first_turns p1 :
  forall p2 put_back store marker delay trace fuel turn,
    marker_of put_back marker ->
    NoDup (p1 ++ p2 ++ put_back) ->
    (forall j, (turn <= j < turn + length p1)%nat -> others j = []) ->
    Forall (fun c => monitored (store c)) p1 ->
    exists store' delay' trace' marker',
      process_active_contexts_among (length p1 + fuel) others turn host_url start_ns
        status
        (mkDispatch (mkMonitorQueues store new (p1 ++ p2 ++ put_back) used)
           delay marker trace)
      = process_active_contexts_among fuel others (turn + length p1) host_url start_ns
          status
          (mkDispatch (mkMonitorQueues store' new (p2 ++ put_back ++ p1) used)
             delay' marker' trace')
      /\ marker_of (put_back ++ p1) marker'
      /\ Forall (fun c => monitored (store' c)) p1
      /\ (forall c, c ∉ p1 -> store' c = store c).
Proof.
  induction p1 as [|c p1 IH];
    intros p2 put_back store marker delay trace fuel turn Hm Hnd Hnone Hgood.
  - exists store, delay, trace, marker. simpl. rewrite !app_nil_r, Nat.add_0_r.
    split; [reflexivity|]. split; [exact Hm|]. split; [constructor | reflexivity].
  - apply Forall_cons in Hgood as [Hc Hgood].
    assert (Hnd' : NoDup ((c :: (p1 ++ p2)) ++ put_back)).
    { simpl. rewrite <- app_assoc. exact Hnd. }
    pose proof (marker_not_pending _ _ _ _ Hm Hnd') as Hnot.
    destruct (NoDup_put_back _ _ _ Hnd') as [_ Hnd''].
    rewrite <- app_assoc in Hnd''.
    assert (Hfresh : c ∉ p1).
    { simpl in Hnd. apply NoDup_cons in Hnd as [Hc' _].
      intros Hin. apply Hc', elem_of_app. left. exact Hin. }
    destruct (monitored_turn store c (p1 ++ p2 ++ put_back) delay marker trace Hc Hnot)
      as (updated & delay1 & trace1 & Hturn & Hupdated).
    destruct (IH p2 (put_back ++ [c]) (store_set store c updated)
                (match marker with None => Some c | Some first => Some first end)
                delay1 trace1 fuel (S turn))
      as (store' & delay' & trace' & marker' & Hrun & Hm' & Hgood' & Hsame).
    + apply marker_of_put_back. exact Hm.
    + exact Hnd''.
    + intros j Hj. apply Hnone. simpl. lia.
    + apply Forall_forall. intros x Hx.
      unfold store_set. destruct (decide (x = c)) as [-> | _]; [contradiction|].
      apply (proj1 (Forall_forall _ _) Hgood). exact Hx.
    + exists store', delay', trace', marker'.
      split; [|split; [|split]].
      * cbn [length Nat.add process_active_contexts_among].
        rewrite (Hnone turn) by (simpl; lia).
        unfold monitor_calls.
        cbn [fold_left queues delay_ms first_added_new_context dispatch_trace].
        change ((c :: p1) ++ p2 ++ put_back) with (c :: (p1 ++ p2 ++ put_back)).
        rewrite Hturn.
        replace ((p1 ++ p2 ++ put_back) ++ [c]) with (p1 ++ p2 ++ put_back ++ [c])
          by (rewrite <- !app_assoc; reflexivity).
        rewrite Hrun.
        replace (S turn + length p1)%nat with (turn + S (length p1))%nat by lia.
        replace ((put_back ++ [c]) ++ p1) with (put_back ++ c :: p1)
          by (rewrite <- app_assoc; reflexivity).
        reflexivity.
      * replace (put_back ++ c :: p1) with ((put_back ++ [c]) ++ p1)
          by (rewrite <- app_assoc; reflexivity).
        exact Hm'.
      * apply Forall_cons_2; [|exact Hgood'].
        rewrite (Hsame c Hfresh), store_set_same. exact Hupdated.
      * intros x Hx. rewrite Hsame.
        -- unfold store_set. destruct (decide (x = c)) as [-> | _]; [|reflexivity].
           exfalso. apply Hx. left.
        -- intros Hin. apply Hx. right. exact Hin.
Qed.

(** Once the marker is inactive the loop does not leave: the marker is
    discarded when it is met, and no other context is the marker. *)
Lemma stopped_marker_spin (m : nat) :
  forall fuel turn d,
    (forall j, (turn < j)%nat -> others j = []) ->
    first_added_new_context d = Some m ->
    _is_active (contexts (monitor_calls (others turn) (queues d)) m) = false ->
    Forall (fun c => c <> m -> monitored (contexts (monitor_calls (others turn) (queues d)) c))
      (_active_contexts (monitor_calls (others turn) (queues d))) ->
    (exists c, c ∈ _active_contexts (monitor_calls (others turn) (queues d)) /\ c <> m) ->
    process_active_contexts_among fuel others turn host_url start_ns status d = None.
Proof.
  induction fuel as [|fuel IH]; intros turn d Hnone Hmarker Hstopped Hgood Hsome;
    [reflexivity|].
  cbn [process_active_contexts_among].
  destruct (monitor_calls (others turn) (queues d)) as [store new' active used'].
  cbn [contexts _active_contexts] in Hstopped, Hgood, Hsome.
  destruct active as [|c rest].
  { destruct Hsome as (c & Hc & _). inversion Hc. }
  assert (Hnext : others (S turn) = []) by (apply Hnone; lia).
  destruct (decide (c = m)) as [-> | Hcm].
  - unfold active_context_turn.
    cbn [queues _active_contexts contexts _new_contexts _context_last_used_ns delay_ms
         first_added_new_context dispatch_trace].
    rewrite Hstopped. cbn [negb].
    apply IH.
    + intros j Hj. apply Hnone. lia.
    + exact Hmarker.
    + rewrite Hnext. exact Hstopped.
    + rewrite Hnext. simpl. apply Forall_cons in Hgood as [_ Hgood]. exact Hgood.
    + rewrite Hnext. simpl. destruct Hsome as (x & Hx & Hxm). exists x.
      split; [|exact Hxm]. apply elem_of_cons in Hx as [-> | Hx]; [contradiction | exact Hx].
  - apply Forall_cons in Hgood as [Hc Hgood]. specialize (Hc Hcm).
    assert (Hne : first_added_new_context d <> Some c) by congruence.
    pose proof Hc as Hc0. destruct Hc0 as [Ha Hv].
    pose proof (healthy_report_monitored (store c) host_url start_ns
                  (start_ns + elapsed_time_ns status) Hc) as Hafter.
    unfold active_context_turn.
    cbn [queues _active_contexts contexts _new_contexts _context_last_used_ns delay_ms
         first_added_new_context dispatch_trace].
    rewrite Ha. cbn [negb].
    destruct (decide (first_added_new_context d = Some c)) as [Heq | _]; [contradiction|].
    rewrite healthy in *.
    destruct (update_host_status (store c) host_url start_ns
                (start_ns + elapsed_time_ns status) true) as [[r updated] aborts].
    simpl in Hafter. destruct Hafter as [Ha' Hv'].
    unfold is_host_unavailable in Hv'. rewrite Ha'.
    unfold is_host_unavailable at 1. rewrite Hv'. cbn [negb orb].
    apply IH.
    + intros j Hj. apply Hnone. lia.
    + simpl. rewrite Hmarker. reflexivity.
    + rewrite Hnext. simpl. unfold store_set.
      destruct (decide (m = c)) as [Heq | _]; [congruence | exact Hstopped].
    + rewrite Hnext. simpl. apply Forall_app. split.
      * apply Forall_forall. intros x Hx Hxm. unfold store_set.
        destruct (decide (x = c)) as [_ | _]; [split; assumption|].
        exact (proj1 (Forall_forall _ _) Hgood x Hx Hxm).
      * apply Forall_cons_2; [|constructor]. intros _.
        rewrite store_set_same. split; assumption.
    + rewrite Hnext. simpl. exists c. split; [|exact Hcm].
      apply elem_of_app. right. apply list_elem_of_singleton. reflexivity.
Qed.

End StoppedMarker.

(** The marker of the second loop is the first context that the loop has
    put back.  If another thread stops this context before the loop meets
    it again, the loop does not end: with a healthy probe, a queue of at
    least two monitored contexts, and [Monitor.stop_monitoring] called on
    the first of them after any of the first turns of the loop (and no
    other call), no number of turns brings the loop to its end.  The stopped
    marker is discarded as inactive, the marker check comes after that
    check, and the other contexts get the report of the same probe round
    after round. *)
Theorem stopped_marker_is_never_met :
  forall (host_url : string) (start_ns : Z) (status : HostStatus) (self : MonitorQueues)
         (m : nat) (rest : list nat) (turn : nat) (now_ns : Z),
    _active_contexts self = m :: rest ->
    rest <> [] ->
    NoDup (m :: rest) ->
    is_available status = true ->
    Forall (fun c => monitored (contexts self c)) (m :: rest) ->
    (1 <= turn <= length (m :: rest))%nat ->
    forall fuel : nat,
      process_active_contexts_among fuel (stopped_before turn m now_ns) 0
        host_url start_ns status (mkDispatch self (-1) None []) = None.
Proof.
  intros url s status [store new active used] m rest turn now Hq Hrest Hnd Hhealthy
    Hgood Hturn fuel.
  simpl in Hq. subst active.
  destruct turn as [|k]; [lia|]. simpl in Hturn.
  set (others := stopped_before (S k) m now).
  destruct (process_active_contexts_among fuel others 0 url s status _) as [d'|] eqn:Hrun;
    [exfalso | reflexivity].
  apply (process_active_contexts_among_more others url s status fuel (S k + fuel))
    in Hrun; [|lia].
  assert (Hsplit : m :: rest = (m :: take k rest) ++ drop k rest ++ []).
  { rewrite app_nil_r. simpl. rewrite take_drop. reflexivity. }
  assert (Hlen : length (m :: take k rest) = S k).
  { simpl. rewrite length_take_le by lia. reflexivity. }
  destruct (first_turns url s status others new used Hhealthy
              (m :: take k rest) (drop k rest) [] store None (-1) [] fuel 0%nat)
    as (store' & delay' & trace' & marker' & Hfirst & Hm & Hgood' & Hsame).
  - reflexivity.
  - rewrite <- Hsplit. exact Hnd.
  - intros j Hj. rewrite Hlen in Hj. unfold others, stopped_before.
    destruct (decide (j = S k)); [lia | reflexivity].
  - apply Forall_forall. intros x Hx.
    apply (proj1 (Forall_forall _ _) Hgood).
    apply elem_of_cons in Hx as [-> | Hx]; [left | right].
    apply (subseteq_take k rest). exact Hx.
  - rewrite Hlen, <- Hsplit in Hfirst. rewrite Hfirst in Hrun. clear Hfirst.
    unfold marker_of in Hm. simpl in Hm. subst marker'.
    assert (Hcalls : others (0 + S k)%nat = [CallStopMonitoring m now]).
    { unfold others, stopped_before. simpl.
      destruct (decide (S k = S k)); [reflexivity | contradiction]. }
    rewrite (stopped_marker_spin url s status others Hhealthy m) in Hrun;
      [discriminate | | reflexivity | | |].
    + intros j Hj. unfold others, stopped_before.
      destruct (decide (j = S k)); [lia | reflexivity].
    + rewrite Hcalls. simpl. rewrite store_set_same. reflexivity.
    + rewrite Hcalls. simpl. apply Forall_forall. intros x Hx Hxm.
      unfold store_set. destruct (decide (x = m)) as [Heq | _]; [contradiction|].
      apply elem_of_app in Hx as [Hx | Hx].
      * rewrite Hsame.
        -- apply (proj1 (Forall_forall _ _) Hgood). right.
           apply (subseteq_drop k rest). exact Hx.
        -- intros Hin. rewrite Hsplit, app_nil_r in Hnd.
           apply NoDup_app in Hnd as (_ & Hdisj & _). exact (Hdisj x Hin Hx).
      * apply (proj1 (Forall_forall _ _) Hgood'). exact Hx.
    + rewrite Hcalls. simpl.
      destruct rest as [|c rest']; [contradiction|]. exists c. split.
      * assert (Hin : c ∈ m :: c :: rest') by (right; left).
        rewrite Hsplit, app_nil_r in Hin.
        apply elem_of_app in Hin as [Hin | Hin]; apply elem_of_app; auto.
      * intros ->. apply NoDup_cons in Hnd as [Hnot _]. apply Hnot. left.
Qed.

Lemma stopped_marker_is_never_met_witness :
  process_active_contexts_among 1000 (stopped_before 1 1%nat 7000000000) 0
    "db-1" 6000000000 (mkHostStatus true 1)
    (mkDispatch two_active_contexts (-1) None []) = None.
Proof.
  apply (stopped_marker_is_never_met "db-1" 6000000000 (mkHostStatus true 1)
           two_active_contexts 1%nat [2%nat] 1%nat 7000000000).
  - reflexivity.
  - discriminate.
  - apply (bool_decide_unpack _). vm_compute. exact I.
  - reflexivity.
  - repeat constructor.
  - simpl. lia.
Defined.
